(** * Order-extract pipeline: a shallow embedding of the execution engine

    The development follows [backend/ecomm_processor]: the run-scoped
    context and its ledger ([core/processing_context.py]), the configuration
    models ([core/config_models.py]), the four pipeline steps ([steps/]), the
    field transformers ([transformers/]) and the engine
    ([core/pipeline_engine.py]).

    Python objects that the code mutates in place (data frames) live in an
    explicit store of references, so that aliasing between the caller's table
    and the tables handed from step to step is visible.  Functions of pandas,
    [re], [dateutil] and the Python runtime are not part of the repository;
    they are gathered in the class [PyLib] and every general theorem holds
    for all of its instances.  Of the ten field strategies, [static],
    [direct] and [formula] are unfolded; the other seven are taken as a
    whole, in the class [Strategies], with the effects they can have: they
    read the row and the mapping, and read and write the context.  Two of
    the seven, [lookup] and [phone], are also written out on their own and
    can be put in the place of the class's ([unfolded_strategies]).

    What pandas does to the element type of the cells it is handed is
    written out where the steps depend on it: [iterrows] yields each row in
    the common dtype of the columns, an item assignment to a row may change
    the dtype of the row and the form of the cell, [pd.DataFrame] infers the
    dtype of each column it builds, and [pd.to_numeric] gives a column one
    dtype.  A table holds cells, not arrays: the dtype of a column is the
    one its cells would be given, so a column of integers held in an
    [object] array is not told apart from an [int64] column.

    Left out: time stamps and durations, the progress callback, brand and
    file names in the result. *)

From Stdlib Require Import ZArith Ascii String Lia.
From stdpp Require Import base option list gmap strings sets.

Local Open Scope string_scope.
Local Open Scope Z_scope.

(** ** Cell values and Python objects *)

(** A Python [float]: not-a-number, an infinity, or the finite number
    [m * 2^e]. *)
Inductive Float64 :=
  | FNaN
  | FInf (negative : bool)
  | FNum (m e : Z).

(** The scalars a table cell holds. *)
Inductive Value :=
  | VNone
  | VBool (b : bool)
  | VInt (z : Z)
  | VFloat (f : Float64)
  | VStr (s : string).

(** Values found in configuration ([Any] fields, resolved references). *)
#[warnings="-register-all"]
Inductive PyObj :=
  | OVal (v : Value)
  | OList (l : list Value)
  | ODict (d : list (string * PyObj))
  | OModel (attrs : list (string * PyObj)).

Global Instance Float64_eq_dec : EqDecision Float64.
Proof. solve_decision. Defined.
Global Instance Value_eq_dec : EqDecision Value.
Proof. solve_decision. Defined.

(** Row labels of a table: pandas index entries. *)
Inductive Label :=
  | LInt (n : Z)
  | LOther (s : string).

Global Instance Label_eq_dec : EqDecision Label.
Proof. solve_decision. Defined.

(** A row as a pandas [Series]: column label to cell. *)
Abbreviation Row := (gmap string Value).

(** A pandas [DataFrame]: ordered column labels and labelled rows.  A
    column is identified by its label: a row gives one cell per label. *)
Record DataFrame := mkDF {
  columns : list string;
  rows : list (Label * Row);
}.

(** [len(df)] *)
Definition len (df : DataFrame) : Z := Z.of_nat (List.length (rows df)).

(** [col in df.columns] *)
Definition has_column (df : DataFrame) (col : string) : bool :=
  bool_decide (col ∈ columns df).

(** ** Ledger entries ([core/processing_context.py]) *)

Inductive ErrorSeverity := INFO | WARNING | ERROR | CRITICAL.

Global Instance ErrorSeverity_eq_dec : EqDecision ErrorSeverity.
Proof. solve_decision. Defined.

(** Exceptions that reach the engine or the transform step. *)
Inductive Exn :=
  | AttributeError
  | KeyError
  | ValueError (what : string)
  | TypeError (what : string)
  | NameError (name : string)
  | ZeroDivisionError
  | OtherError (what : string).

(** The formatted messages of the code, one constructor per f-string;
    [MsgTransformer] stands for the messages of the strategies that are
    not unfolded here. *)
Inductive Message :=
  | MsgUnknownStep (step_name : string)
  | MsgStepFailed (step_name : string) (e : Exn)
  | MsgNoOutputRows (step_name : string)
  | MsgMissingRequiredColumn (col : string)
  | MsgOptionalColumnNotFound (col : string)
  | MsgMissingOutputColumns (missing : list string)
  | MsgFailedToOrder (e : Exn)
  | MsgFilterColumnSkipped (col : string)
  | MsgFilterColumnNotFound (col : string)
  | MsgGroupByNotFound (col : string)
  | MsgAggSourceNotFound (col : string)
  | MsgNoValidAggregations
  | MsgAggregationFailed (e : Exn)
  | MsgTransformFailed (field : string) (e : Exn)
  | MsgDataTransformFailed (e : Exn)
  | MsgFormulaFailed (e : Exn)
  | MsgRequiredFieldMissing (field : string)
  | MsgRequiredFieldEmpty (field : string)
  | MsgInvalidType (field expected : string)
  | MsgRowQuarantined (reason : string)
  | MsgTransformer (what : string).

(** [RowError]; its [details] are never set by the engine and are left
    out. *)
Record RowError := mkRowError {
  row_index : Z;
  column : option string;
  message : Message;
  severity : ErrorSeverity;
  original_value : option PyObj;
}.

(** [StepResult], without the duration and without its own list of
    errors, which the engine never fills. *)
Record StepResult := mkStepResult {
  sr_step_name : string;
  sr_input_rows : Z;
  sr_output_rows : Z;
  sr_filtered_rows : Z;
}.

(** [ProcessingResult], without the brand name, the file names and the
    time stamps. *)
Record ProcessingResult := mkResult {
  success : bool;
  input_rows : Z;
  output_rows : Z;
  step_results : list StepResult;
  errors : list RowError;
  warnings : list RowError;
  quarantined_rows : list Z;
}.

(** ** Configuration ([core/config_models.py]) *)

Inductive FilterOperator :=
  | EQUALS | NOT_EQUALS | CONTAINS | NOT_CONTAINS | IN | NOT_IN
  | GREATER_THAN | LESS_THAN | GREATER_EQUAL | LESS_EQUAL
  | IS_NULL | IS_NOT_NULL | STARTS_WITH | ENDS_WITH.

Inductive AggregateFunction :=
  | SUM | MAX | MIN | MEAN | FIRST | LAST | FIRST_NON_NULL | COUNT | CONCAT.

Inductive TransformType :=
  | STATIC | DIRECT | LOOKUP | DATE | PHONE | FORMULA
  | CURRENCY_CONVERT | TAX_EXCLUDE | CLEAN | CONDITIONAL.

Global Instance TransformType_eq_dec : EqDecision TransformType.
Proof. solve_decision. Defined.

Inductive DataTransform :=
  | TO_STRING | TO_NUMERIC | TO_UPPER | TO_LOWER | STRIP.

Record FilterCondition := mkCondition {
  fc_column : string;
  fc_operator : FilterOperator;
  fc_value : PyObj;
  fc_case_sensitive : bool;
  fc_skip_if_column_missing : bool;
}.

Inductive FilterMode := all_of | any_of.

Record FilterConfig := mkFilterConfig {
  mode : FilterMode;
  conditions : list FilterCondition;
}.

Record AggregationRule := mkRule {
  source : string;
  function : AggregateFunction;
  ar_coerce_numeric : bool;
  separator : string;
}.

Record AggregateConfig := mkAggregateConfig {
  group_by : string;
  aggregations : list (string * AggregationRule);
}.

Inductive LookupStrategy := DIRECT_MAP | COUNTRY_MAP | CURRENCY_MAP | ORDER_PREFIX.

Inductive TaxStrategy := SUBTRACT | DIVIDE | PRE_CALCULATED.

Record LookupConfig := mkLookupConfig {
  lk_strategy : LookupStrategy;
  lk_source_column : string;
  lk_mapping : list (string * Value);
  lk_default : Value;
  prefix_length : option Z;
}.

Record DateConfig := mkDateConfig {
  dt_source_column : string;
  input_format : string;
  output_format : string;
}.

Record PhoneConfig := mkPhoneConfig {
  country_column : string;
  phone_column : string;
}.

Record FormulaConfig := mkFormulaConfig {
  expression : string;
  coerce_numeric : bool;
}.

Record CurrencyConvertConfig := mkCurrencyConvertConfig {
  cc_source_column : string;
  source_currency : string;
  target_currency_column : string;
  rates_ref : string;
}.

Record TaxExcludeConfig := mkTaxExcludeConfig {
  tx_strategy : TaxStrategy;
  amount_column : string;
  tax_column : option string;
  pre_tax_column : option string;
  divisor_lookup_column : option string;
  divisors_ref : string;
}.

Record CleanConfig := mkCleanConfig {
  cl_source_column : string;
  pattern : string;
  replacement : string;
}.

Record ConditionalBranch := mkBranch {
  when : string;
  then_ : Value;
}.

Record ConditionalConfig := mkConditionalConfig {
  cd_source_column : string;
  cd_conditions : list ConditionalBranch;
  else_value : Value;
}.

(** [FieldMapping]: the tag and one optional sub-configuration per
    strategy.  [value] is the static literal, [VNone] when not given. *)
Record FieldMapping := mkFieldMapping {
  type : TransformType;
  value : Value;
  source_column : option string;
  transform : option DataTransform;
  lookup : option LookupConfig;
  date : option DateConfig;
  phone : option PhoneConfig;
  formula : option FormulaConfig;
  currency : option CurrencyConvertConfig;
  tax : option TaxExcludeConfig;
  clean : option CleanConfig;
  conditional : option ConditionalConfig;
}.

Record TransformConfig := mkTransformConfig {
  mappings : list (string * FieldMapping);
}.

(** The [dict] handed to the validate step, with its three keys. *)
Record ValidateConfig := mkValidateConfig {
  required_fields : option (list string);
  quarantine_invalid : option bool;
  validate_types : option (list (string * string));
}.

Inductive StepConfig :=
  | CFilter (c : FilterConfig)
  | CAggregate (c : AggregateConfig)
  | CTransform (c : TransformConfig)
  | CDict (c : ValidateConfig).

Record PipelineStep := mkStep {
  step : string;
  config : StepConfig;
}.

Record InputSchema := mkSchema {
  required_columns : list string;
  optional_columns : list string;
}.

Record BrandConfig := mkBrand {
  brand_name : string;
  input_schema : InputSchema;
  pipeline : list PipelineStep;
  output_columns : list string;
}.

(** [GlobalConfig]: its declared attributes, by name, as reference
    resolution reads them. *)
Record GlobalConfig := mkGlobal {
  global_attrs : list (string * PyObj);
}.

(** ** The run-scoped context ([ProcessingContext]) *)

Record ProcessingContext := mkCtx {
  global_config : GlobalConfig;
  brand_config : BrandConfig;
  current_step : string;
  current_row : Z;
  _errors : list RowError;
  _warnings : list RowError;
  _quarantined_rows : gset Z;
  _step_results : list StepResult;
  _ref_cache : gmap string PyObj;
}.

(** [ProcessingContext.__init__] *)
Definition new_context (gc : GlobalConfig) (bc : BrandConfig) : ProcessingContext :=
  {| global_config := gc; brand_config := bc;
     current_step := ""; current_row := 0;
     _errors := []; _warnings := []; _quarantined_rows := ∅;
     _step_results := []; _ref_cache := ∅ |}.

(** ** Store, state and the monad of the embedding

    A reference is a position in the store; [df.copy()] and every pandas
    operation that builds a table allocate a new one. *)

Record State := mkState {
  heap : list DataFrame;
  ctx : ProcessingContext;
}.

Inductive Res (A : Type) :=
  | Ok (a : A)
  | Raise (e : Exn).
Arguments Ok {A} a.
Arguments Raise {A} e.

(** A computation reads and writes the state and either returns or raises;
    what it wrote before raising stays written. *)
Definition M (A : Type) : Type := State → State * Res A.

Definition ret {A} (a : A) : M A := λ st, (st, Ok a).
Definition raise {A} (e : Exn) : M A := λ st, (st, Raise e).
Definition bind {A B} (m : M A) (k : A → M B) : M B :=
  λ st, match m st with
        | (st', Ok a) => k a st'
        | (st', Raise e) => (st', Raise e)
        end.
(** [try: m except Exception as e: h e] *)
Definition try_except {A} (m : M A) (h : Exn → M A) : M A :=
  λ st, match m st with
        | (st', Ok a) => (st', Ok a)
        | (st', Raise e) => h e st'
        end.
Definition lift_res {A} (r : Res A) : M A := λ st, (st, r).

Notation "'let*' x ':=' m 'in' k" := (bind m (λ x, k))
  (at level 10, x pattern, m at level 99, k at level 200).
Notation "m ';;;' k" := (bind m (λ _, k))
  (at level 100, k at level 200, right associativity).

Definition get_ctx : M ProcessingContext := λ st, (st, Ok (ctx st)).
Definition modify_ctx (f : ProcessingContext → ProcessingContext) : M unit :=
  λ st, ({| heap := heap st; ctx := f (ctx st) |}, Ok tt).

(** The table a reference denotes; a dangling reference reads as the empty
    table (references handed out by [alloc] never dangle). *)
Definition deref (st : State) (l : nat) : DataFrame :=
  default (mkDF [] []) (heap st !! l).
Definition read (l : nat) : M DataFrame := λ st, (st, Ok (deref st l)).
Definition alloc (df : DataFrame) : M nat :=
  λ st, ({| heap := heap st ++ [df]; ctx := ctx st |}, Ok (List.length (heap st))).
Definition write (l : nat) (df : DataFrame) : M unit :=
  λ st, ({| heap := <[l := df]> (heap st); ctx := ctx st |}, Ok tt).

(** A loop over a list whose body may raise. *)
Fixpoint for_each {A} (xs : list A) (body : A → M unit) : M unit :=
  match xs with
  | [] => ret tt
  | x :: xs' => body x ;;; for_each xs' body
  end.

(** *** Ledger operations *)

(** [add_error]: ERROR and CRITICAL go to [_errors], the rest to
    [_warnings]; [row_index] defaults to the current row. *)
Definition add_error_ctx (msg : Message) (col : option string)
    (orig : option PyObj) (ri : option Z) (sev : ErrorSeverity)
    (c : ProcessingContext) : ProcessingContext :=
  let error := {| row_index := default (current_row c) ri;
                  column := col; message := msg; severity := sev;
                  original_value := orig |} in
  match sev with
  | ERROR | CRITICAL =>
      {| global_config := global_config c; brand_config := brand_config c;
         current_step := current_step c; current_row := current_row c;
         _errors := _errors c ++ [error]; _warnings := _warnings c;
         _quarantined_rows := _quarantined_rows c;
         _step_results := _step_results c; _ref_cache := _ref_cache c |}
  | _ =>
      {| global_config := global_config c; brand_config := brand_config c;
         current_step := current_step c; current_row := current_row c;
         _errors := _errors c; _warnings := _warnings c ++ [error];
         _quarantined_rows := _quarantined_rows c;
         _step_results := _step_results c; _ref_cache := _ref_cache c |}
  end.

Definition add_error (msg : Message) (col : option string)
    (orig : option PyObj) (ri : option Z) (sev : ErrorSeverity) : M unit :=
  modify_ctx (add_error_ctx msg col orig ri sev).

(** [add_warning] *)
Definition add_warning (msg : Message) (col : option string)
    (orig : option PyObj) (ri : option Z) : M unit :=
  add_error msg col orig ri WARNING.

(** [quarantine_row] *)
Definition quarantine_row (ri : Z) (reason : string) : M unit :=
  modify_ctx (λ c,
      {| global_config := global_config c; brand_config := brand_config c;
         current_step := current_step c; current_row := current_row c;
         _errors := _errors c; _warnings := _warnings c;
         _quarantined_rows := {[ ri ]} ∪ _quarantined_rows c;
         _step_results := _step_results c; _ref_cache := _ref_cache c |}) ;;;
  add_error (MsgRowQuarantined reason) None None (Some ri) WARNING.

(** [add_step_result] *)
Definition add_step_result (r : StepResult) : M unit :=
  modify_ctx (λ c,
      {| global_config := global_config c; brand_config := brand_config c;
         current_step := current_step c; current_row := current_row c;
         _errors := _errors c; _warnings := _warnings c;
         _quarantined_rows := _quarantined_rows c;
         _step_results := _step_results c ++ [r]; _ref_cache := _ref_cache c |}).

Definition set_current_step (name : string) : M unit :=
  modify_ctx (λ c,
      {| global_config := global_config c; brand_config := brand_config c;
         current_step := name; current_row := current_row c;
         _errors := _errors c; _warnings := _warnings c;
         _quarantined_rows := _quarantined_rows c;
         _step_results := _step_results c; _ref_cache := _ref_cache c |}).

Definition set_current_row (n : Z) : M unit :=
  modify_ctx (λ c,
      {| global_config := global_config c; brand_config := brand_config c;
         current_step := current_step c; current_row := n;
         _errors := _errors c; _warnings := _warnings c;
         _quarantined_rows := _quarantined_rows c;
         _step_results := _step_results c; _ref_cache := _ref_cache c |}).

(** [get_result]: the run is a success only if the caller says so and no
    entry sits in [_errors]. *)
Definition get_result (c : ProcessingContext) (input_rows output_rows : Z)
    (success : bool) : ProcessingResult :=
  {| success := success && bool_decide (List.length (_errors c) = 0%nat);
     input_rows := input_rows;
     output_rows := output_rows;
     step_results := _step_results c;
     errors := _errors c;
     warnings := _warnings c;
     quarantined_rows := elements (_quarantined_rows c) |}.

(** ** Plain string functions

    Python's [in], [startswith], [endswith], [split] and [replace] on
    strings, written out on the characters. *)

Fixpoint starts_with (p s : string) : bool :=
  match p, s with
  | EmptyString, _ => true
  | String a p', String b s' => if Ascii.eqb a b then starts_with p' s' else false
  | String _ _, EmptyString => false
  end.

(** [needle in s] *)
Fixpoint str_in (needle s : string) : bool :=
  starts_with needle s ||
  match s with
  | EmptyString => false
  | String _ s' => str_in needle s'
  end.

Definition str_rev (s : string) : string :=
  string_of_list_ascii (rev (list_ascii_of_string s)).

Definition ends_with (p s : string) : bool :=
  starts_with (str_rev p) (str_rev s).

(** [s[n:]] *)
Fixpoint str_drop (n : nat) (s : string) : string :=
  match n, s with
  | O, _ => s
  | S n', String _ s' => str_drop n' s'
  | S _, EmptyString => EmptyString
  end.

(** [s.split(sep)] for a one-character separator: the pieces, the one
    being read last. *)
Fixpoint split_on (sep : ascii) (s : string) (cur : string) : list string :=
  match s with
  | EmptyString => [cur]
  | String a s' =>
      if Ascii.eqb a sep then cur :: split_on sep s' EmptyString
      else split_on sep s' (cur ++ String a EmptyString)%string
  end.
Definition split (sep : ascii) (s : string) : list string := split_on sep s EmptyString.

(** [s.replace(old, new)] for a non-empty [old]: occurrences are replaced
    from the left and do not overlap. *)
Fixpoint replace_fuel (fuel : nat) (old new s : string) : string :=
  match fuel with
  | O => s
  | S fuel' =>
      match s with
      | EmptyString => EmptyString
      | String a s' =>
          if starts_with old s
          then (new ++ replace_fuel fuel' old new (str_drop (String.length old) s))%string
          else String a (replace_fuel fuel' old new s')
      end
  end.
Definition str_replace (old new s : string) : string :=
  replace_fuel (S (String.length s)) old new s.

(** [pd.isna] on a cell; [Series.dropna] drops the cells it holds for. *)
Definition pd_isna (v : Value) : bool :=
  match v with
  | VNone | VFloat FNaN => true
  | _ => false
  end.

(** The [aggfunc] of a named aggregation: a pandas reduction named by a
    string, or a callable applied to the cells of a group. *)
Inductive AggFunc :=
  | ByName (name : string)
  | ByCallable (f : list Value → Value).

(** ** Library functions

    What pandas, [re] and the Python runtime compute.  Operations on a
    column are elementwise, so each is given on one cell; the common dtype
    that pandas gives a coerced column is put on by [to_numeric_series]
    below.  Those that can raise on the configured operand do so before any
    cell is looked at.  The dtype of a column is what pandas inferred from
    its cells. *)
Class PyLib := {
  (** [str(x)], also [Series.astype(str)] on a cell *)
  py_str : PyObj → string;
  (** [s.upper()], [s.lower()], [s.strip()] *)
  str_upper : string → string;
  str_lower : string → string;
  str_strip : string → string;
  (** [float(x)] *)
  py_float : PyObj → Res Float64;
  (** [str(float(x))] for a float [x] *)
  float_repr : Float64 → string;
  (** [pd.to_numeric(x, errors="coerce")] on a cell *)
  to_numeric : Value → Value;
  (** [Series.dtype == object] for the cells of a column *)
  dtype_is_object : list Value → bool;
  (** [Series == value]: may raise on an operand that is not a scalar;
      then the order comparisons of a cell with a float *)
  series_eq : PyObj → Res (Value → bool);
  series_gt : Value → Float64 → bool;
  series_lt : Value → Float64 → bool;
  series_ge : Value → Float64 → bool;
  series_le : Value → Float64 → bool;
  (** [Series.str.contains(pat, na=False)]: compiling [pat] may raise *)
  str_contains : string → Res (string → bool);
  (** [Series.isin(values)]: raises unless [values] is list-like *)
  isin : PyObj → Res (Value → bool);
  (** [df.groupby(key, as_index=False).agg] with named aggregations *)
  groupby_agg : DataFrame → string → list (string * (string * AggFunc)) → Res DataFrame;
  (** the built-in [eval] of a text, with no builtins and no locals *)
  py_eval : string → Res Value;
}.

(** The seven strategies whose bodies are not unfolded in this development
    (lookup, date, phone, currency_convert, tax_exclude, clean, conditional):
    each reads the row and the mapping, may record entries in the context
    or fill its reference cache, and returns a value or raises. *)
Class Strategies := {
  strategy_transform :
    TransformType → Row → FieldMapping → Z →
    ProcessingContext → ProcessingContext * Res Value;
}.

(** ** Reference resolution ([ProcessingContext.resolve_reference]) *)

Fixpoint assoc {A} (k : string) (l : list (string * A)) : option A :=
  match l with
  | [] => None
  | (k', v) :: l' => if String.eqb k k' then Some v else assoc k l'
  end.

(** The walk along the dotted path: a declared attribute of a model, else
    a key of a [dict] ([dict.get], so a missing key gives [None]), else
    [ValueError].  The result is [None] when the walk raises.  Only the
    declared fields of a model count as attributes; names of methods of
    Python objects are not looked at. *)
Fixpoint resolve_path (parts : list string) (obj : PyObj) : option PyObj :=
  match parts with
  | [] => Some obj
  | part :: rest =>
      match obj with
      | OModel attrs =>
          match assoc part attrs with
          | Some o => resolve_path rest o
          | None => None
          end
      | ODict d => resolve_path rest (default (OVal VNone) (assoc part d))
      | _ => None
      end
  end.

Definition set_ref_cache (ref : string) (obj : PyObj) : M unit :=
  modify_ctx (λ c,
      {| global_config := global_config c; brand_config := brand_config c;
         current_step := current_step c; current_row := current_row c;
         _errors := _errors c; _warnings := _warnings c;
         _quarantined_rows := _quarantined_rows c;
         _step_results := _step_results c;
         _ref_cache := <[ref := obj]> (_ref_cache c) |}).

Definition resolve_reference (ref : string) : M PyObj :=
  let* c := get_ctx in
  match _ref_cache c !! ref with
  | Some cached => ret cached
  | None =>
      if negb (starts_with "$ref:" ref) then ret (OVal (VStr ref))
      else
        match split "." (str_drop 5 ref) with
        | part0 :: parts =>
            if String.eqb part0 "global" then
              match resolve_path parts (OModel (global_attrs (global_config c))) with
              | Some obj => set_ref_cache ref obj ;;; ret obj
              | None => raise (ValueError "Cannot resolve reference")
              end
            else raise (ValueError "Unknown reference type")
        | [] => raise (ValueError "Unknown reference type")
        end
  end.

(** [BaseStep.resolve_ref], [BaseTransformer.resolve_ref] *)
Definition resolve_ref (value : PyObj) : M PyObj :=
  match value with
  | OVal (VStr s) => if starts_with "$ref:" s then resolve_reference s else ret value
  | _ => ret value
  end.

(** ** Table operations used by the steps *)

(** [df[column]]: the cells of a column, row by row. *)
Definition column_values (df : DataFrame) (col : string) : list Value :=
  map (λ r : Label * Row, default VNone (r.2 !! col)) (rows df).

(** [df[mask]] for a boolean mask on the index of [df]: the rows whose
    mask entry is true, in order. *)
Fixpoint boolean_index (rs : list (Label * Row)) (mask : list bool)
    : list (Label * Row) :=
  match rs, mask with
  | r :: rs', b :: mask' =>
      if b then r :: boolean_index rs' mask' else boolean_index rs' mask'
  | _, _ => []
  end.

(** [df.loc[labels]]: for each requested label, the rows that carry it. *)
Definition loc_select (rs : list (Label * Row)) (labels : list Label)
    : list (Label * Row) :=
  flat_map (λ l, filter (λ r : Label * Row, r.1 = l) rs) labels.

(** [df[col] = values]: the column is overwritten, or appended when new. *)
Definition set_column (df : DataFrame) (col : string) (vals : list Value)
    : DataFrame :=
  {| columns := if has_column df col then columns df else columns df ++ [col];
     rows := zip_with (λ (r : Label * Row) v, (r.1, <[col := v]> r.2))
               (rows df) vals |}.

(** [idx if isinstance(idx, int) else 0] *)
Definition row_index_of (idx : Label) : Z :=
  match idx with
  | LInt n => n
  | LOther _ => 0
  end.

(** ** Dtypes: what pandas does to the cells it is handed

    A column and a row ([Series]) hold their cells in one element type.
    The dtype of a column is read off its cells, as pandas infers it when
    it builds the column: cells of one kind give [bool], [int64] or
    [float64], anything else gives [object].  An integer cell stands for
    an [int64]: integers are taken to lie in its range. *)

Inductive Dtype := DBool | DInt64 | DFloat64 | DObject.

Global Instance Dtype_eq_dec : EqDecision Dtype.
Proof. solve_decision. Defined.

(** [float(z)]: the nearest float, a tie going to the even significand. *)
Definition float_of_int (z : Z) : Float64 :=
  let a := Z.abs z in
  let k := Z.log2 a - 52 in
  if k <=? 0 then FNum z 0
  else
    let q := a / 2 ^ k in
    let r := a mod 2 ^ k in
    let q' :=
      if (2 ^ (k - 1) <? r) || ((r =? 2 ^ (k - 1)) && Z.odd q) then q + 1 else q in
    FNum (Z.sgn z * (q' * 2 ^ k)) 0.

(** [int(f)] when [f.is_integer()] *)
Definition int_of_float (f : Float64) : option Z :=
  match f with
  | FNum m e =>
      if 0 <=? e then Some (m * 2 ^ e)
      else if m mod 2 ^ (- e) =? 0 then Some (m / 2 ^ (- e))
      else None
  | _ => None
  end.

(** The dtype of one value: what [Series([v])] infers. *)
Definition value_dtype (v : Value) : Dtype :=
  match v with
  | VBool _ => DBool
  | VInt _ => DInt64
  | VFloat _ => DFloat64
  | VNone | VStr _ => DObject
  end.

(** The dtype of a column that holds these cells. *)
Definition column_dtype (cells : list Value) : Dtype :=
  match cells with
  | [] => DObject
  | v :: vs =>
      if forallb (λ w, bool_decide (value_dtype w = value_dtype v)) vs
      then value_dtype v
      else DObject
  end.

(** The dtype that holds the cells of two arrays ([find_common_type]):
    integers and floats meet in [float64]; [bool] does not mix with
    numbers. *)
Definition join_dtype (a b : Dtype) : Dtype :=
  match a, b with
  | DObject, _ | _, DObject => DObject
  | DBool, DBool => DBool
  | DBool, _ | _, DBool => DObject
  | DInt64, DInt64 => DInt64
  | _, _ => DFloat64
  end.

(** The dtype of [df.values]: the common dtype of the columns, [float64]
    for a table without columns. *)
Definition common_dtype (dtypes : list Dtype) : Dtype :=
  match dtypes with
  | [] => DFloat64
  | d :: ds => fold_left join_dtype ds d
  end.

(** A cell of an [int64] or [float64] array converted to dtype [d]; the
    conversion to [object] keeps the cell. *)
Definition astype (d : Dtype) (v : Value) : Value :=
  match d, v with
  | DFloat64, VInt z => VFloat (float_of_int z)
  | _, _ => v
  end.

(** A number, a boolean or a null as a cell of a [float64] column. *)
Definition as_float64 (v : Value) : Value :=
  match v with
  | VNone => VFloat FNaN
  | VBool b => VFloat (FNum (if b then 1 else 0) 0)
  | VInt z => VFloat (float_of_int z)
  | _ => v
  end.

(** A boolean as a cell of an [int64] column. *)
Definition as_int64 (v : Value) : Value :=
  match v with
  | VBool b => VInt (if b then 1 else 0)
  | _ => v
  end.

(** A row as [iterrows] yields it and as the transform step extends it: a
    [Series] with its dtype. *)
Record Series := mkSeries {
  dtype : Dtype;
  values : Row;
}.

(** The dtype of [df.values]. *)
Definition values_dtype (df : DataFrame) : Dtype :=
  common_dtype (map (λ c, column_dtype (column_values df c)) (columns df)).

(** [df.iterrows()]: the rows in order, each with its cells converted to
    the common dtype of the columns. *)
Definition iterrows (df : DataFrame) : list (Label * Series) :=
  let d := values_dtype df in
  map (λ r : Label * Row, (r.1, {| dtype := d; values := astype d <$> r.2 |}))
    (rows df).

(** [series[key] = v] for a scalar [v]: the dtype of the row afterwards
    and the cell as it is stored.  A value the dtype cannot hold makes the
    row [object], or [float64] for a float or a null set into integers; a
    null is stored as NaN unless the row is [object]; a float without
    fractional part set at a label that an [int64] row already has is
    stored as an integer. *)
Definition assign (d : Dtype) (existing : bool) (v : Value) : Dtype * Value :=
  match d, v with
  | DObject, _ => (DObject, v)
  | DFloat64, VFloat _ => (DFloat64, v)
  | DFloat64, VInt z => (DFloat64, VFloat (float_of_int z))
  | DFloat64, VNone => (DFloat64, VFloat FNaN)
  | DFloat64, _ => (DObject, v)
  | DInt64, VInt _ => (DInt64, v)
  | DInt64, VFloat f =>
      match int_of_float f with
      | Some z => if existing then (DInt64, VInt z) else (DFloat64, v)
      | None => (DFloat64, v)
      end
  | DInt64, VNone => (DFloat64, VFloat FNaN)
  | DInt64, _ => (DObject, v)
  | DBool, VBool _ => (DBool, v)
  | DBool, VNone => (DObject, VFloat FNaN)
  | DBool, _ => (DObject, v)
  end.

(** [Series.__setitem__] with a label and a scalar.  The cells already
    there are converted to the dtype of the row afterwards; a row without
    cells takes the dtype of the value.  The assignment is taken not to
    raise. *)
Definition setitem (s : Series) (key : string) (v : Value) : Series :=
  if bool_decide (values s = ∅) && negb (pd_isna v) then
    {| dtype := value_dtype v; values := {[ key := v ]} |}
  else
    let '(d, w) := assign (dtype s) (bool_decide (is_Some (values s !! key))) v in
    {| dtype := d; values := <[key := w]> (astype d <$> values s) |}.

(** Whether [pd.DataFrame] of a [dict] of lists holds these values in a
    [float64] column: they are numbers and nulls, with a number among them,
    and not all integers. *)
Definition inferred_float64 (cells : list Value) : bool :=
  forallb (λ v, match v with VNone | VInt _ | VFloat _ => true | _ => false end) cells
  && existsb (λ v, match v with VInt _ | VFloat _ => true | _ => false end) cells
  && negb (forallb (λ v, match v with VInt _ => true | _ => false end) cells).

(** [pd.DataFrame(data)] followed by the assignment of the index, for the
    columns [cols] and the rows [rs] of the cells of [data]: the cells of
    a column inferred as [float64] are floats, the others are as given. *)
Definition pd_DataFrame (cols : list string) (rs : list (Label * Row)) : DataFrame :=
  let given c := map (λ r : Label * Row, default VNone (r.2 !! c)) rs in
  {| columns := cols;
     rows := map (λ r : Label * Row,
               (r.1, map_imap (λ c v, Some (if inferred_float64 (given c)
                                            then as_float64 v else v)) r.2)) rs |}.

Section with_lib.
Context `{PyLib}.

(** The cells of a coerced column in one dtype: floats when one of them
    is a float, else integers when one of them is an integer. *)
Definition one_dtype (cells : list Value) : list Value :=
  if existsb (λ v, match v with VFloat _ => true | _ => false end) cells
  then map as_float64 cells
  else if existsb (λ v, match v with VInt _ => true | _ => false end) cells
  then map as_int64 cells
  else cells.

(** [pd.to_numeric(series, errors="coerce")]: a column of numbers or of
    booleans is given back as it is; the cells of an [object] column are
    coerced one by one and held in one dtype. *)
Definition to_numeric_series (cells : list Value) : list Value :=
  match column_dtype cells with
  | DObject => one_dtype (map to_numeric cells)
  | _ => cells
  end.
End with_lib.

(** ** Filter step ([steps/filter_step.py]) *)

Module FilterStep.
Section with_lib.
Context `{PyLib}.

(** The operand of [in] / [not_in] given as comma-separated text. *)
Definition comma_list (value : PyObj) : PyObj :=
  match value with
  | OVal (VStr s) => OList (map (λ v, VStr (str_strip v)) (split "," s))
  | _ => value
  end.

Definition cell_str (v : Value) : string := py_str (OVal v).

Definition _apply_operator (col_values : list Value)
    (operator : FilterOperator) (value : PyObj) : Res (list bool) :=
  match operator with
  | EQUALS =>
      match series_eq value with
      | Ok equal => Ok (map equal col_values)
      | Raise e => Raise e
      end
  | NOT_EQUALS =>
      match series_eq value with
      | Ok equal => Ok (map (λ v, negb (equal v)) col_values)
      | Raise e => Raise e
      end
  | CONTAINS =>
      match str_contains (py_str value) with
      | Ok found => Ok (map (λ v, found (cell_str v)) col_values)
      | Raise e => Raise e
      end
  | NOT_CONTAINS =>
      match str_contains (py_str value) with
      | Ok found => Ok (map (λ v, negb (found (cell_str v))) col_values)
      | Raise e => Raise e
      end
  | IN =>
      match isin (comma_list value) with
      | Ok member => Ok (map member col_values)
      | Raise e => Raise e
      end
  | NOT_IN =>
      match isin (comma_list value) with
      | Ok member => Ok (map (λ v, negb (member v)) col_values)
      | Raise e => Raise e
      end
  | GREATER_THAN =>
      match py_float value with
      | Ok x => Ok (map (λ v, series_gt (to_numeric v) x) col_values)
      | Raise e => Raise e
      end
  | LESS_THAN =>
      match py_float value with
      | Ok x => Ok (map (λ v, series_lt (to_numeric v) x) col_values)
      | Raise e => Raise e
      end
  | GREATER_EQUAL =>
      match py_float value with
      | Ok x => Ok (map (λ v, series_ge (to_numeric v) x) col_values)
      | Raise e => Raise e
      end
  | LESS_EQUAL =>
      match py_float value with
      | Ok x => Ok (map (λ v, series_le (to_numeric v) x) col_values)
      | Raise e => Raise e
      end
  | IS_NULL =>
      match series_eq (OVal (VStr "")) with
      | Ok blank =>
          Ok (map (λ v, pd_isna v || blank v
                        || String.eqb (str_strip (cell_str v)) "") col_values)
      | Raise e => Raise e
      end
  | IS_NOT_NULL =>
      match series_eq (OVal (VStr "")) with
      | Ok blank =>
          Ok (map (λ v, negb (pd_isna v) && negb (blank v)
                        && negb (String.eqb (str_strip (cell_str v)) "")) col_values)
      | Raise e => Raise e
      end
  | STARTS_WITH =>
      Ok (map (λ v, starts_with (py_str value) (cell_str v)) col_values)
  | ENDS_WITH =>
      Ok (map (λ v, ends_with (py_str value) (cell_str v)) col_values)
  end.

(** The operand upper-cased for a case-insensitive comparison. *)
Definition upper_operand (value : PyObj) : PyObj :=
  match value with
  | OVal (VStr s) => OVal (VStr (str_upper s))
  | OList l =>
      OList (map (λ v, match v with VStr s => VStr (str_upper s) | _ => v end) l)
  | _ => value
  end.

(** A mask, or [None] when the condition is skipped. *)
Definition _evaluate_condition (l : nat) (condition : FilterCondition)
    : M (option (list bool)) :=
  let* df := read l in
  let column := fc_column condition in
  if negb (has_column df column) then
    if fc_skip_if_column_missing condition then
      add_warning (MsgFilterColumnSkipped column) None None None ;;;
      ret None
    else
      add_error (MsgFilterColumnNotFound column) None None None ERROR ;;;
      ret (Some (repeat true (List.length (rows df))))
  else
    let col_values := column_values df column in
    let* value := resolve_ref (fc_value condition) in
    if negb (fc_case_sensitive condition) && dtype_is_object col_values then
      lift_res
        (match _apply_operator
                 (map (λ v, VStr (str_upper (cell_str v))) col_values)
                 (fc_operator condition) (upper_operand value) with
         | Ok mask => Ok (Some mask)
         | Raise e => Raise e
         end)
    else
      lift_res
        (match _apply_operator col_values (fc_operator condition) value with
         | Ok mask => Ok (Some mask)
         | Raise e => Raise e
         end).

Fixpoint collect_masks (l : nat) (conds : list FilterCondition)
    : M (list (list bool)) :=
  match conds with
  | [] => ret []
  | condition :: conds' =>
      let* mask := _evaluate_condition l condition in
      let* masks := collect_masks l conds' in
      ret (match mask with Some m => m :: masks | None => masks end)
  end.

Definition combine (md : FilterMode) (masks : list (list bool)) : list bool :=
  match masks with
  | [] => []
  | m0 :: ms =>
      match md with
      | all_of => fold_left (zip_with andb) ms m0
      | any_of => fold_left (zip_with orb) ms m0
      end
  end.

(** [execute]: the reference given back is the input itself when nothing
    is to be filtered, else a new table. *)
Definition execute (l : nat) (config : FilterConfig) : M nat :=
  match conditions config with
  | [] => ret l
  | _ =>
      let* masks := collect_masks l (conditions config) in
      match masks with
      | [] => ret l
      | _ =>
          let* df := read l in
          alloc {| columns := columns df;
                   rows := boolean_index (rows df) (combine (mode config) masks) |}
      end
  end.
End with_lib.
End FilterStep.

(** ** Aggregate step ([steps/aggregate_step.py]) *)

Module AggregateStep.
Section with_lib.
Context `{PyLib}.

(** [_first_non_null] *)
Definition _first_non_null (series : list Value) : Value :=
  match filter (λ v, negb (pd_isna v)) series with
  | v :: _ => v
  | [] => VFloat FNaN
  end.

(** [Series.unique]: first occurrences, in order. *)
Fixpoint unique (seen l : list string) : list string :=
  match l with
  | [] => []
  | x :: l' =>
      if bool_decide (x ∈ seen) then unique seen l'
      else x :: unique (x :: seen) l'
  end.

(** [sep.join(parts)] *)
Fixpoint join (sep : string) (parts : list string) : string :=
  match parts with
  | [] => ""
  | [x] => x
  | x :: parts' => (x ++ sep ++ join sep parts')%string
  end.

Definition _get_agg_function (rule : AggregationRule) : option AggFunc :=
  match function rule with
  | SUM => Some (ByName "sum")
  | MAX => Some (ByName "max")
  | MIN => Some (ByName "min")
  | MEAN => Some (ByName "mean")
  | FIRST => Some (ByName "first")
  | LAST => Some (ByName "last")
  | COUNT => Some (ByName "count")
  | FIRST_NON_NULL => Some (ByCallable _first_non_null)
  | CONCAT =>
      Some (ByCallable (λ x,
        VStr (join (separator rule)
                (unique [] (map (λ v, py_str (OVal v))
                              (filter (λ v, negb (pd_isna v)) x))))))
  end.

(** The loop that builds the aggregation specification; a rule with
    [coerce_numeric] overwrites its source column in the table it was
    handed. *)
Fixpoint build_agg_spec (l : nat) (rules : list (string * AggregationRule))
    (agg_spec : list (string * (string * AggFunc)))
    : M (list (string * (string * AggFunc))) :=
  match rules with
  | [] => ret agg_spec
  | (output_name, rule) :: rules' =>
      let* df := read l in
      if negb (has_column df (source rule)) then
        add_warning (MsgAggSourceNotFound (source rule)) None None None ;;;
        build_agg_spec l rules' agg_spec
      else
        (if ar_coerce_numeric rule then
           write l (set_column df (source rule)
                      (to_numeric_series (column_values df (source rule))))
         else ret tt) ;;;
        match _get_agg_function rule with
        | None => build_agg_spec l rules' agg_spec
        | Some agg_func =>
            build_agg_spec l rules'
              (agg_spec ++ [(output_name, (source rule, agg_func))])
        end
  end.

Definition execute (l : nat) (config : AggregateConfig) : M nat :=
  let* df := read l in
  if negb (has_column df (group_by config)) then
    add_error (MsgGroupByNotFound (group_by config)) None None None ERROR ;;;
    ret l
  else
    let* agg_spec := build_agg_spec l (aggregations config) [] in
    match agg_spec with
    | [] =>
        add_error MsgNoValidAggregations None None None ERROR ;;;
        ret l
    | _ =>
        let* df := read l in
        match groupby_agg df (group_by config) agg_spec with
        | Ok result => alloc result
        | Raise e =>
            add_error (MsgAggregationFailed e) None None None ERROR ;;;
            ret l
        end
    end.
End with_lib.
End AggregateStep.

(** ** Field transformers ([transformers/]) *)

(** [BaseTransformer.get_column_value] *)
Definition get_column_value (row : Row) (column : string) (default : Value) : Value :=
  match row !! column with
  | Some v => v
  | None => default
  end.

Definition is_digit (a : ascii) : bool :=
  let n := nat_of_ascii a in (48 <=? n)%nat && (n <=? 57)%nat.

(** ASCII white space *)
Definition is_space (a : ascii) : bool :=
  let n := nat_of_ascii a in
  ((9 <=? n)%nat && (n <=? 13)%nat) || ((28 <=? n)%nat && (n <=? 32)%nat).

(** The longest prefix of [s] whose characters satisfy [p], and the rest. *)
Fixpoint span (p : ascii → bool) (s : string) : string * string :=
  match s with
  | EmptyString => (EmptyString, EmptyString)
  | String a s' =>
      if p a then let '(x, y) := span p s' in (String a x, y)
      else (EmptyString, s)
  end.

Definition not_close_brace (a : ascii) : bool := negb (Ascii.eqb a "}"%char).

(** A match of [\{([^}]+)\}] at the head of [s]: the group and what follows. *)
Definition match_placeholder (s : string) : option (string * string) :=
  match s with
  | String "{" s1 =>
      match span not_close_brace s1 with
      | (EmptyString, _) => None
      | (name, String "}" s2) => Some (name, s2)
      | _ => None
      end
  | _ => None
  end.

(** [re.findall] of the placeholder pattern: the groups, left to right. *)
Fixpoint findall_placeholders (fuel : nat) (s : string) : list string :=
  match fuel with
  | O => []
  | S fuel' =>
      match match_placeholder s with
      | Some (name, rest) => name :: findall_placeholders fuel' rest
      | None =>
          match s with
          | EmptyString => []
          | String _ s' => findall_placeholders fuel' s'
          end
      end
  end.

(** A match of [(\\d+(?:\\.\\d+)?)] at the head of [s]. *)
Definition match_number (s : string) : option (string * string) :=
  match span is_digit s with
  | (EmptyString, _) => None
  | (d1, String "." s') =>
      match span is_digit s' with
      | (EmptyString, _) => Some (d1, String "." s')
      | (d2, rest) => Some ((d1 ++ "." ++ d2)%string, rest)
      end
  | (d1, rest) => Some (d1, rest)
  end.

(** A match of the COALESCE pattern at the head of [s]: the column, the
    default and what follows. *)
Definition match_coalesce (s : string) : option (string * string * string) :=
  if starts_with "COALESCE(" s then
    match match_placeholder (str_drop 9 s) with
    | Some (col_name, String "," s1) =>
        match match_number (snd (span is_space s1)) with
        | Some (default, String ")" rest) => Some (col_name, default, rest)
        | _ => None
        end
    | _ => None
    end
  else None.

Module FormulaTransformer.
Section with_lib.
Context `{PyLib}.

(** [replace_coalesce], the callback of the substitution *)
Definition replace_coalesce (row : Row) (coerce_numeric : bool)
    (col_name default : string) : Res string :=
  let value := get_column_value row col_name VNone in
  if pd_isna value then Ok default
  else if coerce_numeric then
    let numeric := to_numeric value in
    if pd_isna numeric then Ok default
    else
      match py_float (OVal numeric) with
      | Ok x => Ok (float_repr x)
      | Raise e => Raise e
      end
  else Ok (py_str (OVal value)).

(** [re.sub(coalesce_pattern, replace_coalesce, expr)] *)
Fixpoint sub_coalesce (fuel : nat) (row : Row) (coerce_numeric : bool)
    (s : string) : Res string :=
  match fuel with
  | O => Ok s
  | S fuel' =>
      match match_coalesce s with
      | Some (col_name, default, rest) =>
          match replace_coalesce row coerce_numeric col_name default with
          | Ok r =>
              match sub_coalesce fuel' row coerce_numeric rest with
              | Ok out => Ok (r ++ out)%string
              | Raise e => Raise e
              end
          | Raise e => Raise e
          end
      | None =>
          match s with
          | EmptyString => Ok EmptyString
          | String a s' =>
              match sub_coalesce fuel' row coerce_numeric s' with
              | Ok out => Ok (String a out)
              | Raise e => Raise e
              end
          end
      end
  end.

Definition _handle_coalesce (expr : string) (row : Row)
    (coerce_numeric : bool) : Res string :=
  sub_coalesce (S (String.length expr)) row coerce_numeric expr.

(** The loop that replaces the remaining placeholders. *)
Fixpoint substitute (column_refs : list string) (row : Row)
    (coerce_numeric : bool) (eval_expr : string) : Res string :=
  match column_refs with
  | [] => Ok eval_expr
  | col_name :: refs =>
      let value := get_column_value row col_name (VInt 0) in
      let value :=
        if coerce_numeric then
          let numeric := to_numeric value in
          if pd_isna numeric then VInt 0 else numeric
        else value in
      match py_float (OVal value) with
      | Ok x =>
          substitute refs row coerce_numeric
            (str_replace ("{" ++ col_name ++ "}") (float_repr x) eval_expr)
      | Raise e => Raise e
      end
  end.

(** The text handed to the evaluator. *)
Definition eval_text (row : Row) (config : FormulaConfig) : Res string :=
  match _handle_coalesce (expression config) row (coerce_numeric config) with
  | Ok eval_expr =>
      substitute (findall_placeholders (S (String.length eval_expr)) eval_expr)
        row (coerce_numeric config) eval_expr
  | Raise e => Raise e
  end.

Definition transform (row : Row) (mapping : FieldMapping) (row_index : Z)
    : M Value :=
  match formula mapping with
  | None => ret VNone
  | Some config =>
      let* eval_expr := lift_res (eval_text row config) in
      match py_eval eval_expr with
      | Ok result => ret result
      | Raise e =>
          add_warning (MsgFormulaFailed e) None
            (Some (OVal (VStr (expression config)))) (Some row_index) ;;;
          ret VNone
      end
  end.
End with_lib.
End FormulaTransformer.

Module StaticTransformer.
Definition transform (row : Row) (mapping : FieldMapping) (row_index : Z)
    : M Value :=
  ret (value mapping).
End StaticTransformer.

Module DirectTransformer.
Section with_lib.
Context `{PyLib}.

(** [_apply_transform]; the library calls of its branches do not raise,
    so the handler of its [try] is never entered. *)
Definition _apply_transform (value : Value) (transform : DataTransform)
    (row_index : Z) : Value :=
  match transform with
  | TO_STRING => VStr (py_str (OVal value))
  | TO_NUMERIC => to_numeric value
  | TO_UPPER => VStr (str_upper (py_str (OVal value)))
  | TO_LOWER => VStr (str_lower (py_str (OVal value)))
  | STRIP => VStr (str_strip (py_str (OVal value)))
  end.

Definition transform (row : Row) (mapping : FieldMapping) (row_index : Z)
    : M Value :=
  match source_column mapping with
  | None | Some EmptyString => ret VNone
  | Some column =>
      let value := get_column_value row column VNone in
      if pd_isna value then ret VNone
      else
        match (mapping.(transform) : option DataTransform) with
        | Some t => ret (_apply_transform value t row_index)
        | None => ret value
        end
  end.
End with_lib.
End DirectTransformer.

(** A computation on the context alone. *)
Definition on_ctx {A} (f : ProcessingContext → ProcessingContext * Res A) : M A :=
  λ st, let '(c, r) := f (ctx st) in ({| heap := heap st; ctx := c |}, r).

Module TransformerFactory.
Section with_lib.
Context `{PyLib} `{Strategies}.

(** [get_transformer(type).transform]: the closed registry of the ten
    strategies. *)
Definition get_transformer (transform_type : TransformType)
    : Row → FieldMapping → Z → M Value :=
  match transform_type with
  | STATIC => StaticTransformer.transform
  | DIRECT => DirectTransformer.transform
  | FORMULA => FormulaTransformer.transform
  | other => λ row mapping row_index,
      on_ctx (strategy_transform other row mapping row_index)
  end.
End with_lib.
End TransformerFactory.

(** ** Transform step ([steps/transform_step.py]) *)

Module TransformStep.
Section with_lib.
Context `{PyLib} `{Strategies}.

(** The [try] block of the inner loop: the value of one field, computed
    by its strategy from the row it is handed; a failure is recorded as a
    warning and the value is [None]. *)
Definition transform_field (field_name : string) (mapping : FieldMapping)
    (extended_row : Row) : M Value :=
  try_except
    (let* c := get_ctx in
     TransformerFactory.get_transformer (type mapping)
       extended_row mapping (current_row c))
    (λ e,
       let* c := get_ctx in
       add_warning (MsgTransformFailed field_name e) (Some field_name)
         None (Some (current_row c)) ;;;
       ret VNone).

(** The inner loop over the mappings of one row.  [extended_row] starts
    as a copy of the row and is assigned every computed field;
    [result_row] collects the cells appended to [result_data]. *)
Fixpoint transform_fields (mappings : list (string * FieldMapping))
    (extended_row : Series) (result_row : Row) : M (Series * Row) :=
  match mappings with
  | [] => ret (extended_row, result_row)
  | (field_name, mapping) :: mappings' =>
      let* value := transform_field field_name mapping (values extended_row) in
      transform_fields mappings'
        (setitem extended_row field_name value)
        (<[field_name := value]> result_row)
  end.

(** The outer loop over the rows that [iterrows] yields. *)
Fixpoint transform_rows (mappings : list (string * FieldMapping))
    (rs : list (Label * Series)) : M (list (Label * Row)) :=
  match rs with
  | [] => ret []
  | (idx, row) :: rs' =>
      set_current_row (row_index_of idx) ;;;
      let* done := transform_fields mappings row ∅ in
      let* out := transform_rows mappings rs' in
      ret ((idx, snd done) :: out)
  end.

Definition execute (l : nat) (config : TransformConfig) : M nat :=
  match mappings config with
  | [] => ret l
  | _ =>
      let* df := read l in
      let* result_rows := transform_rows (mappings config) (iterrows df) in
      alloc (pd_DataFrame (map fst (mappings config)) result_rows)
  end.
End with_lib.
End TransformStep.

(** ** Validate step ([steps/validate_step.py]) *)

Module ValidateStep.
Section with_lib.
Context `{PyLib}.

Definition _is_empty (value : Value) : bool :=
  match value with
  | VNone => true
  | VFloat FNaN => true
  | VStr s => String.eqb (str_strip s) ""
  | _ => false
  end.

(** [_validate_type]; only [ValueError] and [TypeError] of [float] are
    caught. *)
Definition _validate_type (value : Value) (expected_type : string) : Res bool :=
  if _is_empty value then Ok true
  else if String.eqb expected_type "numeric" then
    match py_float (OVal value) with
    | Ok _ => Ok true
    | Raise (ValueError _) | Raise (TypeError _) => Ok false
    | Raise e => Raise e
    end
  else if String.eqb expected_type "string" then
    Ok (match value with VStr _ => true | _ => false end)
  else if String.eqb expected_type "date" then
    Ok (match value with
        | VStr s => str_in "T" s || str_in "-" s
        | _ => true
        end)
  else Ok true.

(** The loop over the required fields of one row; gives [is_valid]. *)
Fixpoint check_required (fields : list string) (row : Row) (row_index : Z)
    (is_valid : bool) : M bool :=
  match fields with
  | [] => ret is_valid
  | field :: fields' =>
      match row !! field with
      | None =>
          add_error (MsgRequiredFieldMissing field) (Some field) None
            (Some row_index) ERROR ;;;
          check_required fields' row row_index false
      | Some cell =>
          (if _is_empty cell then
             add_warning (MsgRequiredFieldEmpty field) (Some field)
               (Some (OVal cell)) (Some row_index)
           else ret tt) ;;;
          check_required fields' row row_index is_valid
      end
  end.

(** The loop over the type constraints of one row. *)
Fixpoint check_types (types : list (string * string)) (row : Row)
    (row_index : Z) : M unit :=
  match types with
  | [] => ret tt
  | (field, expected_type) :: types' =>
      match row !! field with
      | Some cell =>
          let* ok := lift_res (_validate_type cell expected_type) in
          (if negb ok then
             add_warning (MsgInvalidType field expected_type) (Some field)
               (Some (OVal cell)) (Some row_index)
           else ret tt) ;;;
          check_types types' row row_index
      | None => check_types types' row row_index
      end
  end.

(** The loop over the rows, each with the cells of the [Series] that
    [iterrows] yields; gives [rows_to_keep]. *)
Fixpoint validate_rows (required_fields : list string)
    (quarantine_invalid : bool) (validate_types : list (string * string))
    (rs : list (Label * Row)) : M (list Label) :=
  match rs with
  | [] => ret []
  | (idx, row) :: rs' =>
      let row_index := row_index_of idx in
      let* is_valid := check_required required_fields row row_index true in
      check_types validate_types row row_index ;;;
      (if is_valid || negb quarantine_invalid then ret tt
       else quarantine_row row_index "Failed validation") ;;;
      let* rows_to_keep :=
        validate_rows required_fields quarantine_invalid validate_types rs' in
      ret (if is_valid || negb quarantine_invalid
           then idx :: rows_to_keep else rows_to_keep)
  end.

Definition execute (l : nat) (config : ValidateConfig) : M nat :=
  let required_fields := default [] (required_fields config) in
  let quarantine_invalid := default true (quarantine_invalid config) in
  let validate_types := default [] (validate_types config) in
  let* df := read l in
  let* rows_to_keep :=
    validate_rows required_fields quarantine_invalid validate_types
      (map (λ r : Label * Series, (r.1, values r.2)) (iterrows df)) in
  alloc {| columns := columns df; rows := loc_select (rows df) rows_to_keep |}.
End with_lib.
End ValidateStep.

(** ** Configuration-load check of a field mapping
    ([FieldMapping.validate_type_config]) *)

Definition type_config_map (t : TransformType) : string :=
  match t with
  | STATIC => "value"
  | DIRECT => "source_column"
  | LOOKUP => "lookup"
  | DATE => "date"
  | PHONE => "phone"
  | FORMULA => "formula"
  | CURRENCY_CONVERT => "currency"
  | TAX_EXCLUDE => "tax"
  | CLEAN => "clean"
  | CONDITIONAL => "conditional"
  end.

(** [getattr(self, name, None) is None] *)
Definition attr_is_none (m : FieldMapping) (name : string) : bool :=
  if String.eqb name "value" then bool_decide (value m = VNone)
  else if String.eqb name "source_column" then bool_decide (source_column m = None)
  else if String.eqb name "lookup" then match lookup m with None => true | _ => false end
  else if String.eqb name "date" then match date m with None => true | _ => false end
  else if String.eqb name "phone" then match phone m with None => true | _ => false end
  else if String.eqb name "formula" then match formula m with None => true | _ => false end
  else if String.eqb name "currency" then match currency m with None => true | _ => false end
  else if String.eqb name "tax" then match tax m with None => true | _ => false end
  else if String.eqb name "clean" then match clean m with None => true | _ => false end
  else if String.eqb name "conditional" then match conditional m with None => true | _ => false end
  else true.

(** The validator run after the fields are set: it gives the mapping back
    or raises [ValueError], which rejects the configuration. *)
Definition validate_type_config (self : FieldMapping) : Res FieldMapping :=
  let required_field := type_config_map (type self) in
  if negb (String.eqb required_field "") then
    if attr_is_none self required_field
       && negb (bool_decide (type self = STATIC)) then
      if bool_decide (type self = DIRECT)
         && bool_decide (source_column self = None) then
        Raise (ValueError "Transform type requires its config")
      else Ok self
    else Ok self
  else Ok self.

(** ** Pipeline engine ([core/pipeline_engine.py]) *)

(** The [return] statements of [process]. *)
Inductive ReturnSite :=
  | AtSchema
  | AtUnknownStep (step_name : string)
  | AtStepFailed (step_name : string)
  | AtNoRows (step_name : string)
  | AtEnd.

Module PipelineEngine.
Section with_lib.
Context `{PyLib} `{Strategies}.

(** [_step_executors]: the registered executor of a step name.  An
    executor handed a configuration of another class fails on its first
    attribute access. *)
Definition _step_executors (step_name : string)
    : option (nat → StepConfig → M nat) :=
  if String.eqb step_name "filter" then
    Some (λ l cfg, match cfg with
                   | CFilter c => FilterStep.execute l c
                   | _ => raise AttributeError
                   end)
  else if String.eqb step_name "aggregate" then
    Some (λ l cfg, match cfg with
                   | CAggregate c => AggregateStep.execute l c
                   | _ => raise AttributeError
                   end)
  else if String.eqb step_name "transform" then
    Some (λ l cfg, match cfg with
                   | CTransform c => TransformStep.execute l c
                   | _ => raise AttributeError
                   end)
  else if String.eqb step_name "validate" then
    Some (λ l cfg, match cfg with
                   | CDict c => ValidateStep.execute l c
                   | _ => raise AttributeError
                   end)
  else None.

(** [_validate_schema]: the list of error messages. *)
Definition _validate_schema (l : nat) (brand_config : BrandConfig)
    : M (list Message) :=
  let* df := read l in
  let schema := input_schema brand_config in
  let errors :=
    map MsgMissingRequiredColumn
      (filter (λ col, negb (has_column df col)) (required_columns schema)) in
  for_each (required_columns schema) (λ col,
    if negb (has_column df col) then
      add_error (MsgMissingRequiredColumn col) None None None CRITICAL
    else ret tt) ;;;
  for_each (optional_columns schema) (λ col,
    if negb (has_column df col) then
      add_warning (MsgOptionalColumnNotFound col) None None None
    else ret tt) ;;;
  ret errors.

(** [df[cols]]: the listed columns in the listed order, [KeyError] when
    one is not a column of the table. *)
Definition select_columns (df : DataFrame) (cols : list string)
    : Res DataFrame :=
  if forallb (has_column df) cols then
    Ok {| columns := cols;
          rows := map (λ r : Label * Row,
                    (r.1, filter (λ kv : string * Value, kv.1 ∈ cols) r.2))
                  (rows df) |}
  else Raise KeyError.

(** [_order_output_columns]; the missing columns are added to the table
    it was handed. *)
Definition _order_output_columns (l : nat) (brand_config : BrandConfig)
    : M nat :=
  let output_columns := output_columns brand_config in
  let* df := read l in
  let missing := filter (λ col, negb (has_column df col)) output_columns in
  (match missing with
   | [] => ret tt
   | _ =>
       add_error (MsgMissingOutputColumns missing) None None None ERROR ;;;
       for_each missing (λ col,
         let* df := read l in
         write l (set_column df col (repeat VNone (List.length (rows df)))))
   end) ;;;
  let* df := read l in
  match select_columns df output_columns with
  | Ok out => alloc out
  | Raise e =>
      add_error (MsgFailedToOrder e) None None None ERROR ;;;
      ret l
  end.

(** The loop of [process] over the steps, followed by the code after
    the loop. *)
Fixpoint run_steps (input_rows : Z) (brand_config : BrandConfig)
    (steps : list PipelineStep) (current_df : nat)
    : M (ReturnSite * option nat * ProcessingResult) :=
  match steps with
  | [] =>
      let* output_df := _order_output_columns current_df brand_config in
      let* out := read output_df in
      let* c := get_ctx in
      ret (AtEnd, Some output_df, get_result c input_rows (len out) true)
  | step_config :: steps' =>
      let step_name := step step_config in
      set_current_step step_name ;;;
      match _step_executors step_name with
      | None =>
          add_error (MsgUnknownStep step_name) None None None CRITICAL ;;;
          let* c := get_ctx in
          ret (AtUnknownStep step_name, None, get_result c input_rows 0 false)
      | Some executor =>
          let* executed :=
            try_except
              (let* result_df := executor current_df (config step_config) in
               ret (Some result_df))
              (λ e,
                 add_error (MsgStepFailed step_name e) None None None CRITICAL ;;;
                 ret None) in
          match executed with
          | None =>
              let* c := get_ctx in
              ret (AtStepFailed step_name, None, get_result c input_rows 0 false)
          | Some result_df =>
              let* cur := read current_df in
              let* res := read result_df in
              add_step_result
                {| sr_step_name := step_name;
                   sr_input_rows := len cur;
                   sr_output_rows := len res;
                   sr_filtered_rows := len cur - len res |} ;;;
              if len res =? 0 then
                add_warning (MsgNoOutputRows step_name) None None None ;;;
                let* c := get_ctx in
                ret (AtNoRows step_name, None, get_result c input_rows 0 true)
              else run_steps input_rows brand_config steps' result_df
          end
      end
  end.

(** The loop of [process] by itself: what [process] returns when a step
    ends the run, else the table with which the code after the loop
    starts. *)
Fixpoint run_loop (input_rows : Z) (steps : list PipelineStep) (current_df : nat)
    : M (ReturnSite * option nat * ProcessingResult + nat) :=
  match steps with
  | [] => ret (inr current_df)
  | step_config :: steps' =>
      let step_name := step step_config in
      set_current_step step_name ;;;
      match _step_executors step_name with
      | None =>
          add_error (MsgUnknownStep step_name) None None None CRITICAL ;;;
          let* c := get_ctx in
          ret (inl (AtUnknownStep step_name, None, get_result c input_rows 0 false))
      | Some executor =>
          let* executed :=
            try_except
              (let* result_df := executor current_df (config step_config) in
               ret (Some result_df))
              (λ e,
                 add_error (MsgStepFailed step_name e) None None None CRITICAL ;;;
                 ret None) in
          match executed with
          | None =>
              let* c := get_ctx in
              ret (inl (AtStepFailed step_name, None, get_result c input_rows 0 false))
          | Some result_df =>
              let* cur := read current_df in
              let* res := read result_df in
              add_step_result
                {| sr_step_name := step_name;
                   sr_input_rows := len cur;
                   sr_output_rows := len res;
                   sr_filtered_rows := len cur - len res |} ;;;
              if len res =? 0 then
                add_warning (MsgNoOutputRows step_name) None None None ;;;
                let* c := get_ctx in
                ret (inl (AtNoRows step_name, None, get_result c input_rows 0 true))
              else run_loop input_rows steps' result_df
          end
      end
  end.

(** [process], run on a reference to the caller's table. *)
Definition process_ref (df : nat) (brand_config : BrandConfig)
    : M (ReturnSite * option nat * ProcessingResult) :=
  let* input := read df in
  let input_rows := len input in
  let* schema_errors := _validate_schema df brand_config in
  match schema_errors with
  | _ :: _ =>
      let* c := get_ctx in
      ret (AtSchema, None, get_result c input_rows 0 false)
  | [] =>
      let* snapshot := read df in
      let* current_df := alloc snapshot in
      run_steps input_rows brand_config (pipeline brand_config) current_df
  end.

(** A run of [process]: the caller's table is the only object of the
    store, at reference 0, and the context is new. *)
Definition process (global_config : GlobalConfig) (df : DataFrame)
    (brand_config : BrandConfig)
    : State * Res (ReturnSite * option nat * ProcessingResult) :=
  process_ref 0%nat brand_config
    {| heap := [df]; ctx := new_context global_config brand_config |}.
End with_lib.
End PipelineEngine.

(** ** Further code of the same modules *)

(** [ProcessingContext.is_quarantined] *)
Definition is_quarantined (c : ProcessingContext) (row_index : Z) : bool :=
  bool_decide (row_index ∈ _quarantined_rows c).

(** *** Checking a brand configuration without running it
    ([PipelineEngine.validate_brand_config]) *)

(** The messages of the check; a step is named by its position, counted
    from one, and its step name. *)
Inductive ConfigError :=
  | ErrNoTransformStep
  | ErrNoFilterConditions (position : Z) (step_name : string)
  | ErrInvalidFilterConfig (position : Z) (step_name : string)
  | ErrNoGroupBy (position : Z) (step_name : string)
  | ErrNoAggregations (position : Z) (step_name : string)
  | ErrInvalidAggregateConfig (position : Z) (step_name : string)
  | ErrNoFieldMappings (position : Z) (step_name : string)
  | ErrInvalidTransformConfig (position : Z) (step_name : string).

(** [_validate_step_config] *)
Definition _validate_step_config (step_config : PipelineStep) (index : Z)
    : list ConfigError :=
  let position := index + 1 in
  let name := step step_config in
  if String.eqb name "filter" then
    match config step_config with
    | CFilter c =>
        match conditions c with
        | [] => [ErrNoFilterConditions position name]
        | _ => []
        end
    | _ => [ErrInvalidFilterConfig position name]
    end
  else if String.eqb name "aggregate" then
    match config step_config with
    | CAggregate c =>
        ((if String.eqb (group_by c) "" then [ErrNoGroupBy position name] else []) ++
         match aggregations c with
         | [] => [ErrNoAggregations position name]
         | _ => []
         end)%list
    | _ => [ErrInvalidAggregateConfig position name]
    end
  else if String.eqb name "transform" then
    match config step_config with
    | CTransform c =>
        match mappings c with
        | [] => [ErrNoFieldMappings position name]
        | _ => []
        end
    | _ => [ErrInvalidTransformConfig position name]
    end
  else [].

(** The loop of [validate_brand_config] over the enumerated steps. *)
Fixpoint validate_steps (steps : list PipelineStep) (index : Z)
    : list ConfigError :=
  match steps with
  | [] => []
  | step_config :: steps' =>
      (_validate_step_config step_config index ++
       validate_steps steps' (index + 1))%list
  end.

Definition validate_brand_config (brand_config : BrandConfig) : list ConfigError :=
  let has_transform :=
    existsb (λ s, String.eqb (step s) "transform") (pipeline brand_config) in
  ((if has_transform then [] else [ErrNoTransformStep]) ++
   validate_steps (pipeline brand_config) 0)%list.

(** *** Slices of a string *)

(** [s[:n]] for a natural [n] *)
Fixpoint str_take (n : nat) (s : string) : string :=
  match n, s with
  | S n', String a s' => String a (str_take n' s')
  | _, _ => EmptyString
  end.

(** [s[i:]] and [s[:i]] for an integer [i]; a negative index counts from
    the end. *)
Definition slice_from (i : Z) (s : string) : string :=
  if 0 <=? i then str_drop (Z.to_nat i) s
  else str_drop (String.length s - Z.to_nat (- i)) s.

Definition slice_to (i : Z) (s : string) : string :=
  if 0 <=? i then str_take (Z.to_nat i) s
  else str_take (String.length s - Z.to_nat (- i)) s.

(** *** Phone country codes ([GlobalConfig.get_phone_code]) *)

Record PhoneCodeConfig := mkPhoneCode {
  patterns : list string;
  code : string;
  digits_to_keep : Z;
}.

(** The table of country codes and names shared by the transformers
    ([_normalize_country]). *)
Definition country_map : list (string * string) :=
  [("AE", "United Arab Emirates"); ("UAE", "United Arab Emirates");
   ("SA", "Saudi Arabia"); ("KSA", "Saudi Arabia");
   ("KW", "Kuwait"); ("BH", "Bahrain")].

Section with_lib.
Context `{PyLib}.

(** [get_phone_code], on the [country_phone_codes] of the global
    configuration: the first entry one of whose patterns is the country,
    compared in upper case. *)
Definition get_phone_code (country_phone_codes : list PhoneCodeConfig)
    (country : Value) : option (string * Z) :=
  let country_upper := str_strip (str_upper (py_str (OVal country))) in
  match find (λ cfg, existsb (λ p, String.eqb (str_upper p) country_upper)
                       (patterns cfg))
          country_phone_codes with
  | Some cfg => Some (code cfg, digits_to_keep cfg)
  | None => None
  end.

Definition _normalize_country (value : Value) : string :=
  let value_str := str_strip (str_upper (py_str (OVal value))) in
  default (py_str (OVal value)) (assoc value_str country_map).
End with_lib.

(** ** Lookup and phone strategies ([transformers/implementations.py])

    Two of the strategies that the class [Strategies] takes as a whole,
    written out.  Neither touches the context, so each is a function of
    the row and the mapping. *)

Module LookupTransformer.
Section with_lib.
Context `{PyLib}.

(** [dict.get]: [None] for a missing key. *)
Definition mapping_get (mapping : list (string * Value)) (key : string) : Value :=
  default VNone (assoc key mapping).

Definition _lookup_direct (value : Value) (config : LookupConfig) : Value :=
  let value :=
    match lk_strategy config with
    | COUNTRY_MAP => VStr (_normalize_country value)
    | _ => value
    end in
  let str_value := str_strip (py_str (OVal value)) in
  match mapping_get (lk_mapping config) str_value with
  | VNone =>
      match find (λ kv : string * Value,
                    String.eqb (str_upper kv.1) (str_upper str_value))
              (lk_mapping config) with
      | Some kv => kv.2
      | None => lk_default config
      end
  | result => result
  end.

Definition _lookup_by_prefix (value : Value) (config : LookupConfig) : Value :=
  let str_value := str_upper (py_str (OVal value)) in
  let prefix_len :=
    match prefix_length config with
    | Some n => if n =? 0 then 4 else n
    | None => 4
    end in
  let prefix := slice_to prefix_len str_value in
  match mapping_get (lk_mapping config) prefix with
  | VNone => lk_default config
  | result => result
  end.

Definition transform (row : Row) (mapping : FieldMapping) (row_index : Z)
    : Value :=
  match lookup mapping with
  | None => VNone
  | Some config =>
      match get_column_value row (lk_source_column config) VNone with
      | VNone => lk_default config
      | source_value =>
          match lk_strategy config with
          | ORDER_PREFIX => _lookup_by_prefix source_value config
          | _ => _lookup_direct source_value config
          end
      end
  end.
End with_lib.
End LookupTransformer.

Module PhoneTransformer.
Section with_lib.
Context `{PyLib}.

(** The number without blanks, [.0] and dashes, then without a leading
    [+] and a leading [00]. *)
Definition clean_number (phone : Value) : string :=
  let phone_str :=
    str_replace "-" "" (str_replace ".0" "" (str_replace " " "" (py_str (OVal phone)))) in
  let phone_str :=
    if starts_with "+" phone_str then str_drop 1 phone_str else phone_str in
  if starts_with "00" phone_str then str_drop 2 phone_str else phone_str.

(** [phone_str[-digits_to_keep:] if len(phone_str) >= digits_to_keep
    else phone_str] *)
Definition local_number (digits_to_keep : Z) (phone_str : string) : string :=
  if digits_to_keep <=? Z.of_nat (String.length phone_str)
  then slice_from (- digits_to_keep) phone_str
  else phone_str.

Definition transform (country_phone_codes : list PhoneCodeConfig)
    (row : Row) (mapping : FieldMapping) (row_index : Z) : Value :=
  match phone mapping with
  | None => VNone
  | Some config =>
      let country := get_column_value row (country_column config) VNone in
      match get_column_value row (phone_column config) VNone with
      | VNone => VNone
      | phone_value =>
          let phone_str := clean_number phone_value in
          match get_phone_code country_phone_codes country with
          | Some (country_code, digits_to_keep) =>
              VStr (country_code ++ local_number digits_to_keep phone_str)
          | None => VStr phone_str
          end
      end
  end.
End with_lib.
End PhoneTransformer.

(** The strategies [lookup] and [phone] as written out, over any
    strategies for the other five. *)
Definition unfolded_strategies `{PyLib}
    (country_phone_codes : list PhoneCodeConfig) (others : Strategies)
    : Strategies :=
  {| strategy_transform := λ t row mapping row_index c,
       match t with
       | LOOKUP => (c, Ok (LookupTransformer.transform row mapping row_index))
       | PHONE =>
           (c, Ok (PhoneTransformer.transform country_phone_codes
                     row mapping row_index))
       | _ => @strategy_transform others t row mapping row_index c
       end |}.

(** ** A sample library

    An executable instance of [PyLib], used to run the engine on concrete
    tables.  It is meant for cells that are [None], integers, floats that
    are binary fractions of fewer than 53 bits, and ASCII text; numeric text
    is a decimal numeral, patterns are plain text without regular-expression
    operators, and expressions are built from numerals, names, parentheses
    and the operators [+ - * / // % **].  Whatever lies outside answers
    [outside] or a placeholder; no statement below relies on such an
    answer. *)

Module SampleLib.

Definition outside {A} : Res A := Raise (OtherError "outside the sample library").

(** *** Numerals *)

Definition digit_value (a : ascii) : Z := Z.of_nat (nat_of_ascii a) - 48.

Fixpoint digits_value (acc : Z) (s : string) : Z :=
  match s with
  | EmptyString => acc
  | String a s' => digits_value (10 * acc + digit_value a) s'
  end.

Definition digit_char (d : Z) : ascii := ascii_of_nat (Z.to_nat (48 + d)).

Fixpoint show_pos (fuel : nat) (n : Z) (acc : string) : string :=
  match fuel with
  | O => acc
  | S fuel' =>
      if n <? 10 then String (digit_char n) acc
      else show_pos fuel' (n / 10) (String (digit_char (n mod 10)) acc)
  end.

(** [str(n)] for an integer *)
Definition show_Z (n : Z) : string :=
  if n <? 0 then String "-" (show_pos (Z.to_nat (Z.log2 (- n)) + 1) (- n) "")
  else show_pos (Z.to_nat (Z.log2 n) + 1) n "".

(** A float in the form used here: an integer when it has no fractional
    part, else an odd numerator over a power of two. *)
Fixpoint canon (fuel : nat) (m e : Z) : Z * Z :=
  match fuel with
  | O => (m, e)
  | S fuel' =>
      if m =? 0 then (0, 0)
      else if 0 <? e then (m * 2 ^ e, 0)
      else if (e <? 0) && Z.even m then canon fuel' (m / 2) (e + 1)
      else (m, e)
  end.

(** The float [m * 2^e], when it needs fewer than 53 bits. *)
Definition mk_float (m e : Z) : Res Float64 :=
  let '(m', e') := canon (Z.to_nat (Z.abs e) + 1) m e in
  if Z.abs m' <? 2 ^ 53 then Ok (FNum m' e') else outside.

(** The float [n / d] for [d > 0], when it is a binary fraction. *)
Definition mk_quotient (n d : Z) : Res Float64 :=
  let k := Z.log2 d + 1 in
  if (n * 2 ^ k) mod d =? 0 then mk_float (n * 2 ^ k / d) (- k) else outside.

Inductive Num :=
  | NInt (z : Z)
  | NFlt (f : Float64).

(** A decimal numeral [digits] or [digits.digits], without sign. *)
Definition read_numeral (s : string) : option (Res Num * string) :=
  match span is_digit s with
  | (EmptyString, _) => None
  | (d1, String "." s') =>
      match span is_digit s' with
      | (EmptyString, _) => Some (Ok (NInt (digits_value 0 d1)), String "." s')
      | (d2, rest) =>
          Some (match mk_quotient (digits_value 0 (d1 ++ d2))
                        (10 ^ Z.of_nat (String.length d2)) with
                | Ok f => Ok (NFlt f)
                | Raise e => Raise e
                end, rest)
      end
  | (d1, rest) => Some (Ok (NInt (digits_value 0 d1)), rest)
  end.

(** *** Text *)

Definition upper_char (a : ascii) : ascii :=
  let n := nat_of_ascii a in
  if (97 <=? n)%nat && (n <=? 122)%nat then ascii_of_nat (n - 32) else a.
Definition lower_char (a : ascii) : ascii :=
  let n := nat_of_ascii a in
  if (65 <=? n)%nat && (n <=? 90)%nat then ascii_of_nat (n + 32) else a.

Fixpoint map_string (f : ascii → ascii) (s : string) : string :=
  match s with
  | EmptyString => EmptyString
  | String a s' => String (f a) (map_string f s')
  end.

Definition lstrip (s : string) : string := snd (span is_space s).
Definition strip (s : string) : string := str_rev (lstrip (str_rev (lstrip s))).

Definition show_float (f : Float64) : string :=
  match f with
  | FNaN => "nan"
  | FInf false => "inf"
  | FInf true => "-inf"
  | FNum m e => if e =? 0 then (show_Z m ++ ".0")%string else "<float>"
  end.

Definition show (x : PyObj) : string :=
  match x with
  | OVal VNone => "None"
  | OVal (VBool true) => "True"
  | OVal (VBool false) => "False"
  | OVal (VInt z) => show_Z z
  | OVal (VFloat f) => show_float f
  | OVal (VStr s) => s
  | _ => "<object>"
  end.

(** Numeric text: an optional sign and a numeral, white space around. *)
Definition read_number (s : string) : option (Res Num) :=
  let s := strip s in
  let '(negative, body) :=
    match s with
    | String "-" s' => (true, s')
    | String "+" s' => (false, s')
    | _ => (false, s)
    end in
  match read_numeral body with
  | Some (Ok (NInt z), EmptyString) => Some (Ok (NInt (if negative then - z else z)))
  | Some (Ok (NFlt (FNum m e)), EmptyString) =>
      Some (Ok (NFlt (FNum (if negative then - m else m) e)))
  | Some (Raise e, EmptyString) => Some (Raise e)
  | _ => None
  end.

Definition to_float (x : PyObj) : Res Float64 :=
  match x with
  | OVal (VInt z) => mk_float z 0
  | OVal (VBool b) => Ok (FNum (if b then 1 else 0) 0)
  | OVal (VFloat f) => Ok f
  | OVal (VStr s) =>
      match read_number s with
      | Some (Ok (NInt z)) => mk_float z 0
      | Some (Ok (NFlt f)) => Ok f
      | Some (Raise e) => Raise e
      | None => Raise (ValueError "could not convert string to float")
      end
  | _ => Raise (TypeError "float() argument must be a string or a real number")
  end.

Definition coerce (v : Value) : Value :=
  match v with
  | VNone => VFloat FNaN
  | VStr s =>
      match read_number s with
      | Some (Ok (NInt z)) => VInt z
      | Some (Ok (NFlt f)) => VFloat f
      | _ => VFloat FNaN
      end
  | _ => v
  end.

(** *** Comparisons *)

Definition is_number (v : Value) : bool :=
  match v with VInt _ | VFloat _ => true | _ => false end.
Definition is_bool (v : Value) : bool :=
  match v with VBool _ => true | _ => false end.

Definition object_dtype (cells : list Value) : bool :=
  negb (forallb is_number cells || forallb is_bool cells).

(** The sign of [m1 * 2^e1 - m2 * 2^e2] *)
Definition compare_dyadic (m1 e1 m2 e2 : Z) : comparison :=
  let e := Z.min e1 e2 in
  (m1 * 2 ^ (e1 - e)) ?= (m2 * 2 ^ (e2 - e)).

Definition compare_cell (v : Value) (x : Float64) : option comparison :=
  match v, x with
  | VInt z, FNum m e => Some (compare_dyadic z 0 m e)
  | VFloat (FNum m1 e1), FNum m2 e2 => Some (compare_dyadic m1 e1 m2 e2)
  | _, _ => None
  end.

Definition equal_cell (v : Value) (x : PyObj) : bool :=
  match v, x with
  | VStr a, OVal (VStr b) => String.eqb a b
  | VBool a, OVal (VBool b) => Bool.eqb a b
  | VInt a, OVal (VInt b) => a =? b
  | VInt a, OVal (VFloat (FNum m e)) =>
      match compare_dyadic a 0 m e with Eq => true | _ => false end
  | VFloat (FNum m e), OVal (VInt b) =>
      match compare_dyadic m e b 0 with Eq => true | _ => false end
  | VFloat (FNum m1 e1), OVal (VFloat (FNum m2 e2)) =>
      match compare_dyadic m1 e1 m2 e2 with Eq => true | _ => false end
  | _, _ => false
  end.

Definition plain_pattern (pat : string) : bool :=
  forallb (λ a, negb (bool_decide (a ∈ list_ascii_of_string ".^$*+?{}[]\|()")))
    (list_ascii_of_string pat).

Definition contains (pat : string) : Res (string → bool) :=
  if plain_pattern pat then Ok (str_in pat) else outside.

Definition member (values : PyObj) : Res (Value → bool) :=
  match values with
  | OList l =>
      Ok (λ v, match v with
               | VStr _ | VInt _ | VBool _ | VFloat _ =>
                   existsb (λ x, equal_cell v (OVal x)) l
               | VNone => false
               end)
  | _ => Raise (TypeError "only list-like objects are allowed to be passed to isin()")
  end.

(** *** Expressions: the arithmetic fragment of Python's grammar *)

Inductive BinOp := Add | Sub | Mul | Div | FloorDiv | Mod | Pow.

Inductive Token :=
  | TNum (n : Num)
  | TName (s : string)
  | TOp (o : BinOp)
  | TLParen
  | TRParen.

Inductive Expr :=
  | ENum (n : Num)
  | EName (s : string)
  | ENeg (e : Expr)
  | EPos (e : Expr)
  | EBin (o : BinOp) (l r : Expr).

Definition is_ident_start (a : ascii) : bool :=
  let n := nat_of_ascii a in
  ((65 <=? n)%nat && (n <=? 90)%nat) || ((97 <=? n)%nat && (n <=? 122)%nat)
  || (n =? 95)%nat.
Definition is_ident_char (a : ascii) : bool := is_ident_start a || is_digit a.

Definition keywords : list string :=
  ["False"; "None"; "True"; "and"; "as"; "assert"; "async"; "await";
   "break"; "class"; "continue"; "def"; "del"; "elif"; "else"; "except";
   "finally"; "for"; "from"; "global"; "if"; "import"; "in"; "is";
   "lambda"; "nonlocal"; "not"; "or"; "pass"; "raise"; "return"; "try";
   "while"; "with"; "yield"].

(** An integer literal may not start with a zero followed by digits. *)
Definition zero_led (s : string) : bool :=
  match s with
  | String "0" (String a _) => is_digit a
  | _ => false
  end.

Fixpoint tokenize (fuel : nat) (s : string) : option (list Token) :=
  match fuel with
  | O => None
  | S fuel' =>
      match s with
      | EmptyString => Some []
      | String a s' =>
          let next t rest := option_map (cons t) (tokenize fuel' rest) in
          if Ascii.eqb a " " then tokenize fuel' s'
          else if is_digit a then
            match read_numeral s with
            | Some (Ok (NInt z), rest) =>
                if zero_led s then None else next (TNum (NInt z)) rest
            | Some (Ok n, rest) => next (TNum n) rest
            | _ => None
            end
          else if is_ident_start a then
            let '(name, rest) := span is_ident_char s in
            if bool_decide (name ∈ keywords) then None else next (TName name) rest
          else if Ascii.eqb a "(" then next TLParen s'
          else if Ascii.eqb a ")" then next TRParen s'
          else if Ascii.eqb a "+" then next (TOp Add) s'
          else if Ascii.eqb a "-" then next (TOp Sub) s'
          else if Ascii.eqb a "%" then next (TOp Mod) s'
          else if Ascii.eqb a "*" then
            match s' with
            | String "*" s'' => next (TOp Pow) s''
            | _ => next (TOp Mul) s'
            end
          else if Ascii.eqb a "/" then
            match s' with
            | String "/" s'' => next (TOp FloorDiv) s''
            | _ => next (TOp Div) s'
            end
          else None
      end
  end.

Definition additive (o : BinOp) : bool :=
  match o with Add | Sub => true | _ => false end.
Definition multiplicative (o : BinOp) : bool :=
  match o with Mul | Div | FloorDiv | Mod => true | _ => false end.

(** Recursive descent; the level is 0 for sums, 1 for products, 2 for
    signed factors, 3 for powers and 4 for atoms. *)
Fixpoint parse (fuel : nat) (lvl : nat) (ts : list Token)
    : option (Expr * list Token) :=
  match fuel with
  | O => None
  | S f =>
      match lvl with
      | 0%nat =>
          match parse f 1%nat ts with
          | Some (l, rest) => parse_more f 0%nat l rest
          | None => None
          end
      | 1%nat =>
          match parse f 2%nat ts with
          | Some (l, rest) => parse_more f 1%nat l rest
          | None => None
          end
      | 2%nat =>
          match ts with
          | TOp Sub :: rest =>
              match parse f 2%nat rest with
              | Some (e, rest') => Some (ENeg e, rest')
              | None => None
              end
          | TOp Add :: rest =>
              match parse f 2%nat rest with
              | Some (e, rest') => Some (EPos e, rest')
              | None => None
              end
          | _ => parse f 3%nat ts
          end
      | 3%nat =>
          match parse f 4%nat ts with
          | Some (b, TOp Pow :: rest) =>
              match parse f 2%nat rest with
              | Some (e, rest') => Some (EBin Pow b e, rest')
              | None => None
              end
          | other => other
          end
      | _ =>
          match ts with
          | TNum n :: rest => Some (ENum n, rest)
          | TName x :: rest => Some (EName x, rest)
          | TLParen :: rest =>
              match parse f 0%nat rest with
              | Some (e, TRParen :: rest') => Some (e, rest')
              | _ => None
              end
          | _ => None
          end
      end
  end
with parse_more (fuel : nat) (lvl : nat) (lhs : Expr) (ts : list Token)
    : option (Expr * list Token) :=
  match fuel with
  | O => None
  | S f =>
      match ts with
      | TOp o :: rest =>
          if (Nat.eqb lvl 0 && additive o) || (Nat.eqb lvl 1 && multiplicative o)
          then
            match parse f (S lvl) rest with
            | Some (rhs, rest') => parse_more f lvl (EBin o lhs rhs) rest'
            | None => None
            end
          else Some (lhs, ts)
      | _ => Some (lhs, ts)
      end
  end.

Definition as_float (n : Num) : Res Float64 :=
  match n with
  | NInt z => mk_float z 0
  | NFlt f => Ok f
  end.

Definition float_op (o : BinOp) (x y : Float64) : Res Num :=
  match x, y with
  | FNum m1 e1, FNum m2 e2 =>
      let e := Z.min e1 e2 in
      let a := m1 * 2 ^ (e1 - e) in
      let b := m2 * 2 ^ (e2 - e) in
      let lift r := match r with Ok f => Ok (NFlt f) | Raise x => Raise x end in
      match o with
      | Add => lift (mk_float (a + b) e)
      | Sub => lift (mk_float (a - b) e)
      | Mul => lift (mk_float (m1 * m2) (e1 + e2))
      | Div =>
          if b =? 0 then Raise ZeroDivisionError
          else if 0 <? b then lift (mk_quotient a b)
          else lift (mk_quotient (- a) (- b))
      | _ => outside
      end
  | _, _ => outside
  end.

Definition apply_op (o : BinOp) (x y : Num) : Res Num :=
  match x, y with
  | NInt a, NInt b =>
      match o with
      | Add => Ok (NInt (a + b))
      | Sub => Ok (NInt (a - b))
      | Mul => Ok (NInt (a * b))
      | FloorDiv => if b =? 0 then Raise ZeroDivisionError else Ok (NInt (a / b))
      | Mod => if b =? 0 then Raise ZeroDivisionError else Ok (NInt (a mod b))
      | Pow => if 0 <=? b then Ok (NInt (a ^ b)) else outside
      | Div =>
          match mk_float a 0, mk_float b 0 with
          | Ok x, Ok y => float_op Div x y
          | _, _ => outside
          end
      end
  | _, _ =>
      match as_float x, as_float y with
      | Ok x, Ok y => float_op o x y
      | Raise e, _ => Raise e
      | _, Raise e => Raise e
      end
  end.

(** Evaluation with no names bound: a name raises [NameError]. *)
Fixpoint eval_expr (e : Expr) : Res Num :=
  match e with
  | ENum n => Ok n
  | EName x => Raise (NameError x)
  | ENeg e =>
      match eval_expr e with
      | Ok (NInt z) => Ok (NInt (- z))
      | Ok (NFlt (FNum m k)) => Ok (NFlt (FNum (- m) k))
      | Ok _ => outside
      | Raise x => Raise x
      end
  | EPos e => eval_expr e
  | EBin o l r =>
      match eval_expr l with
      | Ok x =>
          match eval_expr r with
          | Ok y => apply_op o x y
          | Raise e => Raise e
          end
      | Raise e => Raise e
      end
  end.

Definition evaluate (text : string) : Res Value :=
  match tokenize (S (String.length text)) text with
  | Some ts =>
      match parse (6 * S (List.length ts)) 0%nat ts with
      | Some (e, []) =>
          match eval_expr e with
          | Ok (NInt z) => Ok (VInt z)
          | Ok (NFlt f) => Ok (VFloat f)
          | Raise x => Raise x
          end
      | _ => outside
      end
  | None => outside
  end.

(** *** Grouping *)

Definition key_le (a b : Value) : bool :=
  match a, b with
  | VInt x, VInt y => x <=? y
  | VStr x, VStr y => String.leb x y
  | _, _ => true
  end.

Fixpoint insert_key (k : Value) (ks : list Value) : list Value :=
  match ks with
  | [] => [k]
  | k' :: ks' =>
      if bool_decide (k = k') then ks
      else if key_le k k' then k :: ks
      else k' :: insert_key k ks'
  end.

(** The distinct keys in ascending order. *)
Definition sorted_keys (cells : list Value) : list Value :=
  fold_right insert_key [] cells.

Definition uniform_keys (cells : list Value) : bool :=
  forallb (λ v, match v with VInt _ => true | _ => false end) cells
  || forallb (λ v, match v with VStr _ => true | _ => false end) cells.

Definition all_ints (cells : list Value) : option (list Z) :=
  mapM (λ v, match v with VInt z => Some z | _ => None end) cells.

Definition all_floats (cells : list Value) : option (list (Z * Z)) :=
  mapM (λ v, match v with VFloat (FNum m e) => Some (m, e) | _ => None end) cells.

(** A sum of [int64] wraps around. *)
Definition wrap64 (z : Z) : Z := (z + 2 ^ 63) mod 2 ^ 64 - 2 ^ 63.

Definition float_sum (xs : list (Z * Z)) (x : Z * Z) : Res Value :=
  match fold_left (λ acc y,
                     match acc with
                     | Ok (NFlt a) => float_op Add a (FNum y.1 y.2)
                     | _ => outside
                     end) xs (Ok (NFlt (FNum x.1 x.2))) with
  | Ok (NFlt f) => Ok (VFloat f)
  | Ok (NInt _) => outside
  | Raise e => Raise e
  end.

Definition float_max (xs : list (Z * Z)) (x : Z * Z) : Z * Z :=
  fold_left (λ a y, match compare_dyadic a.1 a.2 y.1 y.2 with Lt => y | _ => a end) xs x.
Definition float_min (xs : list (Z * Z)) (x : Z * Z) : Z * Z :=
  fold_left (λ a y, match compare_dyadic a.1 a.2 y.1 y.2 with Gt => y | _ => a end) xs x.

Definition reduce (f : AggFunc) (cells : list Value) : Res Value :=
  let present := filter (λ v, negb (pd_isna v)) cells in
  match f with
  | ByCallable g => Ok (g cells)
  | ByName name =>
      if String.eqb name "first" then Ok (default (VFloat FNaN) (head present))
      else if String.eqb name "last" then Ok (default (VFloat FNaN) (last present))
      else if String.eqb name "count" then Ok (VInt (Z.of_nat (List.length present)))
      else
        match all_ints present, all_floats present with
        | Some (z :: zs), _ =>
            if String.eqb name "sum" then Ok (VInt (wrap64 (fold_left Z.add zs z)))
            else if String.eqb name "max" then Ok (VInt (fold_left Z.max zs z))
            else if String.eqb name "min" then Ok (VInt (fold_left Z.min zs z))
            else outside
        | _, Some (x :: xs) =>
            if String.eqb name "sum" then float_sum xs x
            else if String.eqb name "max" then
              Ok (VFloat (FNum (float_max xs x).1 (float_max xs x).2))
            else if String.eqb name "min" then
              Ok (VFloat (FNum (float_min xs x).1 (float_min xs x).2))
            else outside
        | _, _ => outside
        end
  end.

Fixpoint reduce_all (spec : list (string * (string * AggFunc)))
    (group : list Row) (acc : Row) : Res Row :=
  match spec with
  | [] => Ok acc
  | (name, (src, f)) :: spec' =>
      match reduce f (map (λ r : Row, default VNone (r !! src)) group) with
      | Ok v => reduce_all spec' group (<[name := v]> acc)
      | Raise e => Raise e
      end
  end.

Fixpoint group_rows (n : Z) (keys : list Value) (key : string)
    (spec : list (string * (string * AggFunc))) (rs : list Row)
    : Res (list (Label * Row)) :=
  match keys with
  | [] => Ok []
  | k :: keys' =>
      match reduce_all spec
              (filter (λ r : Row, bool_decide (r !! key = Some k)) rs)
              {[ key := k ]} with
      | Ok row =>
          match group_rows (n + 1) keys' key spec rs with
          | Ok out => Ok ((LInt n, row) :: out)
          | Raise e => Raise e
          end
      | Raise e => Raise e
      end
  end.

Definition groupby (df : DataFrame) (key : string)
    (spec : list (string * (string * AggFunc))) : Res DataFrame :=
  let cells := filter (λ v, negb (pd_isna v)) (column_values df key) in
  if uniform_keys cells then
    match group_rows 0 (sorted_keys cells) key spec (map snd (rows df)) with
    | Ok rs => Ok {| columns := key :: map fst spec; rows := rs |}
    | Raise e => Raise e
    end
  else outside.

Definition lib : PyLib :=
  {| py_str := show;
     str_upper := map_string upper_char;
     str_lower := map_string lower_char;
     str_strip := strip;
     py_float := to_float;
     float_repr := show_float;
     to_numeric := coerce;
     dtype_is_object := object_dtype;
     series_eq x := match x with
                    | OVal _ => Ok (λ v, equal_cell v x)
                    | _ => outside
                    end;
     series_gt v x := match compare_cell v x with Some Gt => true | _ => false end;
     series_lt v x := match compare_cell v x with Some Lt => true | _ => false end;
     series_ge v x := match compare_cell v x with Some Gt | Some Eq => true | _ => false end;
     series_le v x := match compare_cell v x with Some Lt | Some Eq => true | _ => false end;
     str_contains := contains;
     isin := member;
     groupby_agg := groupby;
     py_eval := evaluate |}.

(** The seven strategies on a mapping without their sub-configuration:
    each returns [None] and leaves the context alone. *)
Definition strategies : Strategies :=
  {| strategy_transform := λ _ _ _ _ c, (c, Ok VNone) |}.
End SampleLib.

(** * Properties *)

(** ** Sample data *)

Module Sample.
Definition row_of (idx : Z) (cells : list (string * Value)) : Label * Row :=
  (LInt idx, list_to_map cells).

Definition no_mapping (t : TransformType) : FieldMapping :=
  {| type := t; value := VNone; source_column := None; transform := None;
     lookup := None; date := None; phone := None; formula := None;
     currency := None; tax := None; clean := None; conditional := None |}.

Definition static (v : Value) : FieldMapping :=
  {| type := STATIC; value := v; source_column := None; transform := None;
     lookup := None; date := None; phone := None; formula := None;
     currency := None; tax := None; clean := None; conditional := None |}.

Definition direct (col : string) : FieldMapping :=
  {| type := DIRECT; value := VNone; source_column := Some col; transform := None;
     lookup := None; date := None; phone := None; formula := None;
     currency := None; tax := None; clean := None; conditional := None |}.

Definition formula_of (text : string) : FieldMapping :=
  {| type := FORMULA; value := VNone; source_column := None; transform := None;
     lookup := None; date := None; phone := None;
     formula := Some {| expression := text; coerce_numeric := true |};
     currency := None; tax := None; clean := None; conditional := None |}.

(** Three orders, one of them pending. *)
Definition orders : DataFrame :=
  {| columns := ["status"; "amount"; "name"];
     rows :=
       [row_of 0 [("status", VStr "fulfilled"); ("amount", VInt 100); ("name", VStr "#1")];
        row_of 1 [("status", VStr "pending"); ("amount", VInt 50); ("name", VStr "#2")];
        row_of 2 [("status", VStr "fulfilled"); ("amount", VInt 7); ("name", VStr "#3")]] |}.

Definition globals : GlobalConfig := {| global_attrs := [] |}.

Definition brand (steps : list PipelineStep) (out : list string) : BrandConfig :=
  {| brand_name := "Sample"; input_schema := {| required_columns := ["status"];
                                                optional_columns := [] |};
     pipeline := steps; output_columns := out |}.

Definition status_is (text : string) : PipelineStep :=
  {| step := "filter";
     config := CFilter {| mode := all_of;
                          conditions := [ {| fc_column := "status";
                                             fc_operator := EQUALS;
                                             fc_value := OVal (VStr text);
                                             fc_case_sensitive := false;
                                             fc_skip_if_column_missing := false |} ] |} |}.

(** A state whose store holds [df] alone, with a new context. *)
Definition initial (df : DataFrame) (bc : BrandConfig) : State :=
  {| heap := [df]; ctx := new_context globals bc |}.
End Sample.

(** ** Vocabulary of the properties *)

(** A computation that leaves the store alone. *)
Definition heap_pure {A} (m : M A) : Prop :=
  ∀ st st' r, m st = (st', r) → heap st' = heap st.

(** [frame l m]: the store only grows under [m], and every table already
    in it, other than the one at [l], is left as it was. *)
Definition frame {A} (l : nat) (m : M A) : Prop :=
  ∀ st st' r, m st = (st', r) →
    (List.length (heap st) ≤ List.length (heap st'))%nat ∧
    ∀ j, j ≠ l → (j < List.length (heap st))%nat → heap st' !! j = heap st !! j.

(** [own_or_new l m]: the reference [m] returns is [l] itself or one that
    did not exist when [m] started. *)
Definition own_or_new (l : nat) (m : M nat) : Prop :=
  ∀ st st' l', m st = (st', Ok l') →
    l' = l ∨ (List.length (heap st) ≤ l')%nat.

(** The entry [add_error] builds in context [c]. *)
Definition entry (c : ProcessingContext) (msg : Message) (col : option string)
    (orig : option PyObj) (ri : option Z) (sev : ErrorSeverity) : RowError :=
  {| row_index := default (current_row c) ri; column := col; message := msg;
     severity := sev; original_value := orig |}.

(** The severities that [add_error] files under [_errors]. *)
Definition goes_to_errors (sev : ErrorSeverity) : bool :=
  match sev with ERROR | CRITICAL => true | _ => false end.




(** A row has every required field. *)
Definition row_ok (required : list string) (row : Row) : bool :=
  forallb (λ f, bool_decide (is_Some (row !! f))) required.

(** The ERROR entry of a required field that the row lacks. *)
Definition missing_entry (ri : Z) (f : string) : RowError :=
  {| row_index := ri; column := Some f; message := MsgRequiredFieldMissing f;
     severity := ERROR; original_value := None |}.

(** The WARNING entry of a required field that is present but empty. *)
Definition empty_entry (ri : Z) (f : string) (cell : Value) : RowError :=
  {| row_index := ri; column := Some f; message := MsgRequiredFieldEmpty f;
     severity := WARNING; original_value := Some (OVal cell) |}.

(** The ERROR entries of one row: one per required field it lacks. *)
Definition missing_entries (required : list string) (r : Label * Row)
    : list RowError :=
  map (missing_entry (row_index_of r.1))
    (filter (λ f, r.2 !! f = None) required).

(** The store is left alone, [_errors] and the quarantine set change as
    stated, and [_warnings] only grows. *)
Record ledger_step (st st' : State) (new_errors : list RowError)
    (quarantined : gset Z) : Prop := {
  ls_heap : heap st' = heap st;
  ls_errors : _errors (ctx st') = (_errors (ctx st) ++ new_errors)%list;
  ls_quarantined :
    _quarantined_rows (ctx st') = quarantined ∪ _quarantined_rows (ctx st);
  ls_warnings : ∃ ws, _warnings (ctx st') = (_warnings (ctx st) ++ ws)%list;
}.

(** The labels of the rows the validate step keeps: the rows that have
    every required field, or all rows when invalid rows are not
    quarantined. *)
Definition kept (required : list string) (quarantine_invalid : bool)
    (rs : list (Label * Row)) : list Label :=
  map fst (filter (λ r : Label * Row, row_ok required r.2 || negb quarantine_invalid) rs).

(** The row indices the validate step quarantines. *)
Definition quarantined (required : list string) (quarantine_invalid : bool)
    (rs : list (Label * Row)) : gset Z :=
  list_to_set
    (map (λ r : Label * Row, row_index_of r.1)
       (filter (λ r : Label * Row,
                  negb (row_ok required r.2 || negb quarantine_invalid)) rs)).

(** [df[col] = None] *)
Definition null_column (df : DataFrame) (col : string) : DataFrame :=
  set_column df col (repeat VNone (List.length (rows df))).

(** The table after every missing column has been added. *)
Definition add_missing (df : DataFrame) (missing : list string) : DataFrame :=
  fold_left null_column missing df.

(** A cell of the output table: the cell of the input when the column
    exists there, a null when it is declared but absent, nothing when the
    column is not declared. *)
Definition output_cell (bc : BrandConfig) (df : DataFrame) (r : Label * Row)
    (c : string) : option Value :=
  if bool_decide (c ∈ output_columns bc)
  then (if has_column df c then r.2 !! c else Some VNone)
  else None.

(** [out] is [df] restricted to the declared output columns, in the
    declared order, row by row. *)
Definition ordered (bc : BrandConfig) (df out : DataFrame) : Prop :=
  columns out = output_columns bc ∧
  Forall2 (λ (r o : Label * Row), o.1 = r.1 ∧ ∀ c, o.2 !! c = output_cell bc df r c)
    (rows df) (rows out).

(** The entries [_order_output_columns] adds to [_errors]: one, when some
    declared column is absent. *)
Definition missing_columns_entries (bc : BrandConfig) (df : DataFrame)
    (c : ProcessingContext) : list RowError :=
  match filter (λ col, negb (has_column df col)) (output_columns bc) with
  | [] => []
  | missing => [entry c (MsgMissingOutputColumns missing) None None None ERROR]
  end.

(** The [success] argument handed to [get_result] at each return. *)
Definition site_success (site : ReturnSite) : bool :=
  match site with
  | AtEnd | AtNoRows _ => true
  | _ => false
  end.

Section ReturnFacts.
Context `{PyLib} `{Strategies}.

(** What each return of the loop gives back. *)
Definition return_facts (input_rows : Z) (bc : BrandConfig) (st' : State)
    (site : ReturnSite) (out : option nat) (res : ProcessingResult) : Prop :=
  match site with
  | AtEnd =>
      ∃ cur st0,
        (cur < List.length (heap st0))%nat ∧
        PipelineEngine.run_steps input_rows bc [] cur st0
          = (st', Ok (AtEnd, out, res))
  | AtNoRows name =>
      out = None ∧ res = get_result (ctx st') input_rows 0 true ∧
      ∃ c0, ctx st' = add_error_ctx (MsgNoOutputRows name) None None None WARNING c0
  | AtUnknownStep name =>
      out = None ∧ res = get_result (ctx st') input_rows 0 false ∧
      ∃ c0, ctx st' = add_error_ctx (MsgUnknownStep name) None None None CRITICAL c0
  | AtStepFailed name =>
      out = None ∧ res = get_result (ctx st') input_rows 0 false ∧
      ∃ c0 e, ctx st' = add_error_ctx (MsgStepFailed name e) None None None CRITICAL c0
  | AtSchema => False
  end.
End ReturnFacts.

Module SampleRuns.
(** The sample orders through one filter, with the output columns given. *)
Definition filtered_run (out : list string) :=
  PipelineEngine.process (H := SampleLib.lib) (H0 := SampleLib.strategies)
    Sample.globals Sample.orders
    (Sample.brand [Sample.status_is "fulfilled"] out).

(** A filter on a column the table lacks, which records an ERROR and
    keeps every row, followed by a filter that no row passes. *)
Definition region_is (text : string) : PipelineStep :=
  {| step := "filter";
     config := CFilter {| mode := all_of;
                          conditions := [ {| fc_column := "region";
                                             fc_operator := EQUALS;
                                             fc_value := OVal (VStr text);
                                             fc_case_sensitive := false;
                                             fc_skip_if_column_missing := false |} ] |} |}.

Definition emptied_run (steps : list PipelineStep) :=
  PipelineEngine.process (H := SampleLib.lib) (H0 := SampleLib.strategies)
    Sample.globals Sample.orders
    (Sample.brand steps ["status"]).
End SampleRuns.

(** ** Vocabulary of the further properties *)

(** The rows whose position, counted from [i], satisfies [p], in order. *)
Fixpoint rows_from (i : nat) (rs : list (Label * Row)) (p : nat → bool)
    : list (Label * Row) :=
  match rs with
  | [] => []
  | r :: rs' => if p i then r :: rows_from (S i) rs' p else rows_from (S i) rs' p
  end.

(** The rows at the positions that satisfy [p]. *)
Definition rows_at (rs : list (Label * Row)) (p : nat → bool) : list (Label * Row) :=
  rows_from 0 rs p.

(** Whether the masks keep position [i]: all of them hold there, or one
    of them does. *)
Definition keeps (md : FilterMode) (masks : list (list bool)) (i : nat) : bool :=
  match md with
  | all_of => forallb (λ m : list bool, default false (m !! i)) masks
  | any_of => existsb (λ m : list bool, default false (m !! i)) masks
  end.

(** The operator that the configuration offers as the negation of [op]. *)
Definition negated (op : FilterOperator) : option FilterOperator :=
  match op with
  | EQUALS => Some NOT_EQUALS
  | CONTAINS => Some NOT_CONTAINS
  | IN => Some NOT_IN
  | IS_NULL => Some IS_NOT_NULL
  | _ => None
  end.

(** The source columns of the rules that ask for numeric coercion. *)
Definition coerced (rules : list (string * AggregationRule)) : list string :=
  map (λ kr : string * AggregationRule, source kr.2)
    (filter (λ kr : string * AggregationRule, ar_coerce_numeric kr.2) rules).

(** [df'] has the columns and the row labels of [df], and the cells of
    [df] outside the columns [cols]. *)
Definition same_outside (cols : list string) (df df' : DataFrame) : Prop :=
  columns df' = columns df ∧
  Forall2 (λ a b : Label * Row, b.1 = a.1 ∧ ∀ c, c ∉ cols → b.2 !! c = a.2 !! c)
    (rows df) (rows df').

(** How often the rules coerce column [c]: once per rule that asks for
    coercion and has [c] as its source. *)
Definition coercions (rules : list (string * AggregationRule)) (c : string) : nat :=
  List.length
    (filter (λ kr : string * AggregationRule,
               ar_coerce_numeric kr.2 && bool_decide (source kr.2 = c)) rules).

(** The WARNING entry of a cell that fails its type constraint. *)
Definition invalid_type_entry (ri : Z) (f expected : string) (cell : Value)
    : RowError :=
  {| row_index := ri; column := Some f; message := MsgInvalidType f expected;
     severity := WARNING; original_value := Some (OVal cell) |}.

(** The WARNING entry of a quarantined row. *)
Definition quarantine_entry (ri : Z) (reason : string) : RowError :=
  {| row_index := ri; column := None; message := MsgRowQuarantined reason;
     severity := WARNING; original_value := None |}.

Section ValidateVocabulary.
Context `{PyLib}.

(** The warnings of the required fields of one row: one per field that
    is present and empty. *)
Definition empty_warnings (required : list string) (ri : Z) (row : Row)
    : list RowError :=
  flat_map (λ f, match row !! f with
                 | Some cell =>
                     if ValidateStep._is_empty cell then [empty_entry ri f cell]
                     else []
                 | None => []
                 end) required.

(** The warnings of the type constraints of one row: one per constrained
    field that is present and fails its check. *)
Definition type_warnings (types : list (string * string)) (ri : Z) (row : Row)
    : list RowError :=
  flat_map (λ ft : string * string,
              match row !! ft.1 with
              | Some cell =>
                  match ValidateStep._validate_type cell ft.2 with
                  | Ok false => [invalid_type_entry ri ft.1 ft.2 cell]
                  | _ => []
                  end
              | None => []
              end) types.

(** All the warnings of one row, in the order in which they are
    recorded. *)
Definition row_warnings (required : list string) (quarantine_invalid : bool)
    (types : list (string * string)) (r : Label * Row) : list RowError :=
  (empty_warnings required (row_index_of r.1) r.2 ++
   type_warnings types (row_index_of r.1) r.2 ++
   (if row_ok required r.2 || negb quarantine_invalid then []
    else [quarantine_entry (row_index_of r.1) "Failed validation"]))%list.
End ValidateVocabulary.

(** The context after one entry per listed column has been recorded. *)
Definition record_all (mk : string → Message) (sev : ErrorSeverity)
    (cols : list string) (c : ProcessingContext) : ProcessingContext :=
  fold_left (λ c col, add_error_ctx (mk col) None None None sev c) cols c.

(** The columns of a list that the table lacks. *)
Definition lacking (df : DataFrame) (cols : list string) : list string :=
  filter (λ col, negb (has_column df col)) cols.

(** The state in which the loop of [process] starts when the table has
    every required column: the caller's table at reference 0, its copy at
    reference 1, and a context that holds one WARNING per optional column
    the table lacks. *)
Definition run_start (gc : GlobalConfig) (df : DataFrame) (bc : BrandConfig) : State :=
  {| heap := [df; df];
     ctx := record_all MsgOptionalColumnNotFound WARNING
              (lacking df (optional_columns (input_schema bc)))
              (new_context gc bc) |}.

(** The entry of a run-level event: no column, no value, the current row. *)
Definition run_entry (ri : Z) (msg : Message) (sev : ErrorSeverity) : RowError :=
  {| row_index := ri; column := None; message := msg; severity := sev;
     original_value := None |}.

(** The names of the registered steps. *)
Definition step_names : list string := ["filter"; "aggregate"; "transform"; "validate"].

(** The step whose executor reads a configuration of this class. *)
Definition config_class (cfg : StepConfig) : string :=
  match cfg with
  | CFilter _ => "filter"
  | CAggregate _ => "aggregate"
  | CTransform _ => "transform"
  | CDict _ => "validate"
  end.

(** [ctx_step R m]: the contexts before and after any run of [m], whether
    it returns or raises, are related by [R]. *)
Definition ctx_step (R : ProcessingContext → ProcessingContext → Prop)
    {A} (m : M A) : Prop :=
  ∀ st st' r, m st = (st', r) → R (ctx st) (ctx st').

(** What a pipeline step does to the ledger: it leaves the step results
    alone, appends entries of severity ERROR to [_errors] and entries of
    severity WARNING to [_warnings]. *)
Record step_effect (c c' : ProcessingContext) : Prop := {
  se_step_results : _step_results c' = _step_results c;
  se_errors : ∃ es, _errors c' = (_errors c ++ es)%list ∧
                    Forall (λ e, severity e = ERROR) es;
  se_warnings : ∃ ws, _warnings c' = (_warnings c ++ ws)%list ∧
                      Forall (λ e, severity e = WARNING) ws;
}.

(** The quarantine set is left as it was. *)
Definition same_quarantine (c c' : ProcessingContext) : Prop :=
  _quarantined_rows c' = _quarantined_rows c.

(** The strategies that are not unfolded behave as the code of the seven
    transformers does: they record nothing but warnings and quarantine
    nothing. *)
Class LedgerStrategies `{Strategies} : Prop := {
  strategy_step_effect : ∀ t row m ri c c' r,
    strategy_transform t row m ri c = (c', r) → step_effect c c';
  strategy_same_quarantine : ∀ t row m ri c c' r,
    strategy_transform t row m ri c = (c', r) → same_quarantine c c';
}.

(** The step results account for the rows: each step starts from the
    rows its predecessor left, the first from [n], and reports as filtered
    the rows it did not give back. *)
Fixpoint accounted (n : Z) (rs : list StepResult) : Prop :=
  match rs with
  | [] => True
  | r :: rs' =>
      sr_input_rows r = n ∧
      sr_filtered_rows r = n - sr_output_rows r ∧
      accounted (sr_output_rows r) rs'
  end.

(** The rows left after the recorded steps. *)
Definition rows_left (n : Z) (rs : list StepResult) : Z :=
  fold_left (λ _ r, sr_output_rows r) rs n.

(** The context with one more step result. *)
Definition with_step_result (r : StepResult) (c : ProcessingContext)
    : ProcessingContext :=
  {| global_config := global_config c; brand_config := brand_config c;
     current_step := current_step c; current_row := current_row c;
     _errors := _errors c; _warnings := _warnings c;
     _quarantined_rows := _quarantined_rows c;
     _step_results := (_step_results c ++ [r])%list; _ref_cache := _ref_cache c |}.

(** Every entry of [_errors] has severity ERROR and every entry of
    [_warnings] severity WARNING. *)
Definition step_ledger (c : ProcessingContext) : Prop :=
  Forall (λ e, severity e = ERROR) (_errors c) ∧
  Forall (λ e, severity e = WARNING) (_warnings c).

Section LookupVocabulary.
Context `{PyLib}.

(** The text that [_lookup_direct] looks up: the stripped text of the
    value, after country normalisation for the country strategy. *)
Definition lookup_text (value : Value) (config : LookupConfig) : string :=
  str_strip (py_str (OVal match lk_strategy config with
                          | COUNTRY_MAP => VStr (_normalize_country value)
                          | _ => value
                          end)).

(** The key equals the text once both are in upper case. *)
Definition matches_key (text : string) (kv : string * Value) : Prop :=
  str_upper kv.1 = str_upper text.
End LookupVocabulary.


(** What the check asks of a step: a filter, aggregate or transform step
    carries a configuration of its own class that is not empty. *)
Definition well_configured (s : PipelineStep) : Prop :=
  (step s = "filter" → ∃ c, config s = CFilter c ∧ conditions c ≠ []) ∧
  (step s = "aggregate" →
     ∃ c, config s = CAggregate c ∧ group_by c ≠ "" ∧ aggregations c ≠ []) ∧
  (step s = "transform" → ∃ c, config s = CTransform c ∧ mappings c ≠ []).

(** The step a message of the check is about: its position, counted
    from one, and its name. *)
Definition error_step (e : ConfigError) : option (Z * string) :=
  match e with
  | ErrNoTransformStep => None
  | ErrNoFilterConditions p n | ErrInvalidFilterConfig p n
  | ErrNoGroupBy p n | ErrNoAggregations p n | ErrInvalidAggregateConfig p n
  | ErrNoFieldMappings p n | ErrInvalidTransformConfig p n => Some (p, n)
  end.

(** The strategies that record nothing in the context. *)
Definition quiet_types : list TransformType := [STATIC; DIRECT; LOOKUP; PHONE].

(** The ledger of [c'] is that of [c]. *)
Definition same_ledger (c c' : ProcessingContext) : Prop :=
  _errors c' = _errors c ∧ _warnings c' = _warnings c ∧
  _quarantined_rows c' = _quarantined_rows c ∧
  _step_results c' = _step_results c.

(** ** Further sample data *)

(** A global configuration with one table of rates. *)
Definition sample_globals : GlobalConfig :=
  {| global_attrs :=
       [("conversion_rates", ODict [("Kuwait", OVal (VInt 3))])] |}.

(** The sum of the prices, and two orders with prices given as text. *)
Definition price_rule (coerce : bool) : AggregationRule :=
  {| source := "price"; function := SUM; ar_coerce_numeric := coerce;
     separator := "," |}.

Definition priced_orders : DataFrame :=
  {| columns := ["status"; "price"];
     rows := [Sample.row_of 0 [("status", VStr "fulfilled"); ("price", VStr "12")];
              Sample.row_of 1 [("status", VStr "fulfilled"); ("price", VStr "n/a")]] |}.


(** Two orders, the first with an empty name and a malformed amount; the
    table has no column [email]. *)
Definition typed_orders : DataFrame :=
  {| columns := ["name"; "amount"];
     rows := [Sample.row_of 0 [("name", VStr ""); ("amount", VStr "abc")];
              Sample.row_of 1 [("name", VStr "#2"); ("amount", VInt 5)]] |}.

(** A table without the required column [status]. *)
Definition names_only : DataFrame :=
  {| columns := ["name"]; rows := [Sample.row_of 0 [("name", VStr "#1")]] |}.

(** A step of a name that is not registered. *)
Definition dedupe_step : PipelineStep :=
  {| step := "dedupe";
     config := CDict {| required_fields := None; quarantine_invalid := None;
                        validate_types := None |} |}.

(** A comparison with an operand that is not a number. *)
Definition amount_above (text : string) : PipelineStep :=
  {| step := "filter";
     config := CFilter {| mode := all_of;
                          conditions := [ {| fc_column := "amount";
                                             fc_operator := GREATER_THAN;
                                             fc_value := OVal (VStr text);
                                             fc_case_sensitive := true;
                                             fc_skip_if_column_missing := false |} ] |} |}.

(** A filter step that carries the configuration of a validate step. *)
Definition misplaced_config : PipelineStep :=
  {| step := "filter";
     config := CDict {| required_fields := None; quarantine_invalid := None;
                        validate_types := None |} |}.

(** A lookup from order status to a one-letter code. *)
Definition status_codes : LookupConfig :=
  {| lk_strategy := DIRECT_MAP; lk_source_column := "status";
     lk_mapping := [("FULFILLED", VStr "F"); ("pending", VStr "P")];
     lk_default := VStr "?"; prefix_length := None |}.

(** The mapping of a field looked up in it. *)
Definition status_lookup : FieldMapping :=
  {| type := LOOKUP; value := VNone; source_column := None; transform := None;
     lookup := Some status_codes; date := None; phone := None; formula := None;
     currency := None; tax := None; clean := None; conditional := None |}.



(** A filter step without conditions. *)
Definition empty_filter : PipelineStep :=
  {| step := "filter"; config := CFilter {| mode := all_of; conditions := [] |} |}.


(** ** Reasoning about computations *)

Lemma bind_run {A B} (m : M A) (k : A → M B) (st : State) :
  bind m k st =
  match m st with
  | (st', Ok a) => k a st'
  | (st', Raise e) => (st', Raise e)
  end.
Proof. reflexivity. Qed.

Lemma bind_ok {A B} (m : M A) (k : A → M B) st st' a :
  m st = (st', Ok a) → bind m k st = k a st'.
Proof. intros E. rewrite bind_run, E. reflexivity. Qed.

Lemma bind_raise {A B} (m : M A) (k : A → M B) st st' e :
  m st = (st', Raise e) → bind m k st = (st', Raise e).
Proof. intros E. rewrite bind_run, E. reflexivity. Qed.

(** Splits a run of [bind m k] on the outcome of [m]: the state it leaves,
    its result (or the exception) and the equation of its run. *)
Tactic Notation "split_bind" hyp(E) "as" ident(st1) ident(r) ident(Em) :=
  rewrite bind_run in E;
  match type of E with
  | context [match ?m ?st with _ => _ end] =>
      destruct (m st) as [st1 [r | r]] eqn:Em
  end.

Lemma heap_pure_ret {A} (a : A) : heap_pure (ret a).
Proof. intros st st' r E. inversion E. reflexivity. Qed.

Lemma heap_pure_raise {A} (e : Exn) : heap_pure (@raise A e).
Proof. intros st st' r E. inversion E. reflexivity. Qed.

Lemma heap_pure_lift_res {A} (x : Res A) : heap_pure (lift_res x).
Proof. intros st st' r E. inversion E. reflexivity. Qed.

Lemma heap_pure_bind {A B} (m : M A) (k : A → M B) :
  heap_pure m → (∀ a, heap_pure (k a)) → heap_pure (bind m k).
Proof.
  intros Hm Hk st st' r E. split_bind E as st1 a Em.
  - apply Hk in E. apply Hm in Em. congruence.
  - inversion E; subst. eapply Hm; eauto.
Qed.

Lemma heap_pure_try_except {A} (m : M A) (h : Exn → M A) :
  heap_pure m → (∀ e, heap_pure (h e)) → heap_pure (try_except m h).
Proof.
  intros Hm Hh st st' r E. unfold try_except in E.
  destruct (m st) as [st1 [a | e]] eqn:Em.
  - inversion E; subst. eapply Hm; eauto.
  - apply Hh in E. apply Hm in Em. congruence.
Qed.

Lemma heap_pure_get_ctx : heap_pure get_ctx.
Proof. intros st st' r E. inversion E. reflexivity. Qed.

Lemma heap_pure_read l : heap_pure (read l).
Proof. intros st st' r E. inversion E. reflexivity. Qed.

Lemma heap_pure_modify_ctx f : heap_pure (modify_ctx f).
Proof. intros st st' r E. inversion E. reflexivity. Qed.

Lemma heap_pure_on_ctx {A} (f : ProcessingContext → ProcessingContext * Res A) :
  heap_pure (on_ctx f).
Proof.
  intros st st' r E. unfold on_ctx in E.
  destruct (f (ctx st)). inversion E. reflexivity.
Qed.

Lemma heap_pure_add_error msg col orig ri sev :
  heap_pure (add_error msg col orig ri sev).
Proof. apply heap_pure_modify_ctx. Qed.

Lemma heap_pure_add_warning msg col orig ri :
  heap_pure (add_warning msg col orig ri).
Proof. apply heap_pure_modify_ctx. Qed.

Lemma heap_pure_quarantine_row ri reason : heap_pure (quarantine_row ri reason).
Proof.
  apply heap_pure_bind; [apply heap_pure_modify_ctx |].
  intros _. apply heap_pure_add_error.
Qed.

Lemma heap_pure_for_each {A} (xs : list A) (body : A → M unit) :
  (∀ x, heap_pure (body x)) → heap_pure (for_each xs body).
Proof.
  intros Hb. induction xs as [| x xs IH]; simpl.
  - apply heap_pure_ret.
  - apply heap_pure_bind; auto.
Qed.

Lemma heap_pure_resolve_ref value : heap_pure (resolve_ref value).
Proof.
  assert (Hrr : ∀ ref, heap_pure (resolve_reference ref)).
  { intros ref. unfold resolve_reference.
    apply heap_pure_bind; [apply heap_pure_get_ctx |]. intros c.
    destruct (_ref_cache c !! ref); [apply heap_pure_ret |].
    destruct (negb _); [apply heap_pure_ret |].
    destruct (split _ _) as [| part0 parts]; [apply heap_pure_raise |].
    destruct (String.eqb part0 "global"); [| apply heap_pure_raise].
    destruct (resolve_path _ _); [| apply heap_pure_raise].
    apply heap_pure_bind; [apply heap_pure_modify_ctx |].
    intros _. apply heap_pure_ret. }
  unfold resolve_ref.
  destruct value as [[| | | | s] | | |]; try apply heap_pure_ret.
  destruct (starts_with "$ref:" s); [apply Hrr | apply heap_pure_ret].
Qed.

Create HintDb heap_pure.
#[export] Hint Resolve heap_pure_ret heap_pure_raise heap_pure_lift_res
  heap_pure_get_ctx heap_pure_read heap_pure_modify_ctx heap_pure_on_ctx
  heap_pure_add_error heap_pure_add_warning heap_pure_quarantine_row
  heap_pure_resolve_ref : heap_pure.

(** Discharges [heap_pure] goals along the structure of the computation. *)
Ltac heap_pure_tac :=
  repeat first
    [ progress eauto with heap_pure
    | apply heap_pure_bind; [| intros ?]
    | apply heap_pure_try_except; [| intros ?]
    | apply heap_pure_for_each; intros ?
    | match goal with
      | |- heap_pure (if ?b then _ else _) => destruct b
      | |- heap_pure (match ?x with _ => _ end) => destruct x
      end ].

(** ** Store facts *)

Lemma deref_heap st st' l : heap st' = heap st → deref st' l = deref st l.
Proof. unfold deref. intros ->. reflexivity. Qed.

Lemma alloc_run df st :
  alloc df st = ({| heap := heap st ++ [df]; ctx := ctx st |}, Ok (List.length (heap st))).
Proof. reflexivity. Qed.

Lemma deref_alloc df st :
  deref {| heap := heap st ++ [df]; ctx := ctx st |} (List.length (heap st)) = df.
Proof.
  unfold deref. simpl.
  rewrite lookup_app_r by lia. rewrite Nat.sub_diag. reflexivity.
Qed.

Lemma deref_alloc_old df st l :
  (l < List.length (heap st))%nat →
  deref {| heap := heap st ++ [df]; ctx := ctx st |} l = deref st l.
Proof. intros Hl. unfold deref. simpl. rewrite lookup_app_l by lia. reflexivity. Qed.

(** ** Filter step *)

Lemma boolean_index_sublist (rs : list (Label * Row)) (mask : list bool) :
  sublist (boolean_index rs mask) rs.
Proof.
  revert mask. induction rs as [| r rs IH]; intros mask; simpl.
  - destruct mask; constructor.
  - destruct mask as [| b mask].
    + apply sublist_nil_l.
    + destruct b; [apply sublist_skip | apply sublist_cons]; apply IH.
Qed.

Section FilterProperties.
Context `{PyLib}.

Lemma heap_pure_evaluate_condition l condition :
  heap_pure (FilterStep._evaluate_condition l condition).
Proof. unfold FilterStep._evaluate_condition. heap_pure_tac. Qed.

Lemma heap_pure_collect_masks l conds :
  heap_pure (FilterStep.collect_masks l conds).
Proof.
  induction conds as [| c conds IH]; simpl.
  - apply heap_pure_ret.
  - apply heap_pure_bind; [apply heap_pure_evaluate_condition |].
    intros mask. apply heap_pure_bind; [apply IH |].
    intros masks. apply heap_pure_ret.
Qed.

(** What [execute] does to the store: nothing when it hands its input
    back, else one new table holding the selected rows. *)
Lemma filter_execute_store l config st st' l' :
  FilterStep.execute l config st = (st', Ok l') →
  (l' = l ∧ heap st' = heap st) ∨
  (∃ mask, l' = List.length (heap st) ∧
     heap st' = (heap st ++
       [ {| columns := columns (deref st l);
            rows := boolean_index (rows (deref st l)) mask |} ])%list).
Proof.
  unfold FilterStep.execute. intros E.
  destruct (conditions config) as [| c cs] eqn:Ec.
  - inversion E; subst. left. split; reflexivity.
  - split_bind E as st0 r Em; [| discriminate].
    pose proof (heap_pure_collect_masks _ _ _ _ _ Em) as Hh.
    destruct r as [| m ms].
    + inversion E; subst. left. split; [reflexivity | exact Hh].
    + right. exists (FilterStep.combine (mode config) (m :: ms)).
      rewrite bind_run in E. unfold read in E.
      rewrite alloc_run in E. inversion E; subst; clear E. simpl.
      rewrite (deref_heap st st0) by exact Hh. rewrite Hh.
      split; reflexivity.
Qed.

(** C10. For every filter configuration and every table, the table the
    filter step gives back has the columns of its input and its rows are a
    subsequence of the input rows: each is an input row with its label and
    cells, none is repeated or made up, and their order is kept. *)
Theorem C10_filter_output_is_subsequence l config st st' l' :
  FilterStep.execute l config st = (st', Ok l') →
  columns (deref st' l') = columns (deref st l) ∧
  sublist (rows (deref st' l')) (rows (deref st l)).
Proof.
  intros E. destruct (filter_execute_store _ _ _ _ _ E)
    as [[-> Hh] | [mask [-> Hh]]].
  - rewrite (deref_heap st st') by exact Hh. split; reflexivity.
  - unfold deref at 1 3. rewrite Hh.
    rewrite lookup_app_r by lia. rewrite Nat.sub_diag. simpl.
    split; [reflexivity | apply boolean_index_sublist].
Qed.
End FilterProperties.

(** The filter [status == "fulfilled"] on the three sample orders keeps the
    first and the third. *)
Lemma C10_filter_witness :
  let cfg := {| mode := all_of;
                conditions := [ {| fc_column := "status"; fc_operator := EQUALS;
                                   fc_value := OVal (VStr "fulfilled");
                                   fc_case_sensitive := true;
                                   fc_skip_if_column_missing := false |} ] |} in
  let st := Sample.initial Sample.orders (Sample.brand [] []) in
  ∃ st' l',
    FilterStep.execute (H := SampleLib.lib) 0%nat cfg st = (st', Ok l') ∧
    map fst (rows (deref st' l')) = [LInt 0; LInt 2] ∧
    columns (deref st' l') = columns (deref st 0%nat) ∧
    sublist (rows (deref st' l')) (rows (deref st 0%nat)).
Proof.
  intros cfg st. eexists _, _. split; [vm_compute; reflexivity |].
  split; [vm_compute; reflexivity |].
  apply (C10_filter_output_is_subsequence (H := SampleLib.lib) 0%nat cfg st).
  vm_compute; reflexivity.
Defined.

(** ** Aggregate step *)

(** C7. For every table that lacks the configured [group_by] column, the
    aggregate step gives back the very table it was handed, unchanged in
    the store, records exactly one entry, of severity ERROR, and does not
    raise. *)
Theorem C7_aggregate_missing_group_by `{PyLib} (l : nat)
    (config : AggregateConfig) (st : State) :
  has_column (deref st l) (group_by config) = false →
  ∃ st',
    AggregateStep.execute l config st = (st', Ok l) ∧
    heap st' = heap st ∧
    deref st' l = deref st l ∧
    _errors (ctx st') =
      (_errors (ctx st) ++
       [ {| row_index := current_row (ctx st); column := None;
            message := MsgGroupByNotFound (group_by config);
            severity := ERROR; original_value := None |} ])%list ∧
    _warnings (ctx st') = _warnings (ctx st) ∧
    _quarantined_rows (ctx st') = _quarantined_rows (ctx st).
Proof.
  intros Hmissing.
  eexists. unfold AggregateStep.execute.
  rewrite bind_run. unfold read. rewrite Hmissing. simpl negb. cbv iota.
  split; [reflexivity |]. simpl. repeat split; reflexivity.
Qed.

(** The sample orders have no column [order_id]. *)
Lemma C7_aggregate_witness :
  let cfg := {| group_by := "order_id";
                aggregations := [("total", {| source := "amount"; function := SUM;
                                              ar_coerce_numeric := true;
                                              separator := ", " |})] |} in
  let st := Sample.initial Sample.orders (Sample.brand [] []) in
  ∃ st',
    AggregateStep.execute (H := SampleLib.lib) 0%nat cfg st = (st', Ok 0%nat) ∧
    heap st' = heap st ∧
    deref st' 0%nat = deref st 0%nat ∧
    _errors (ctx st') =
      (_errors (ctx st) ++
       [ {| row_index := current_row (ctx st); column := None;
            message := MsgGroupByNotFound (group_by cfg);
            severity := ERROR; original_value := None |} ])%list ∧
    _warnings (ctx st') = _warnings (ctx st) ∧
    _quarantined_rows (ctx st') = _quarantined_rows (ctx st).
Proof.
  intros cfg st.
  apply (C7_aggregate_missing_group_by (H := SampleLib.lib) 0%nat cfg st).
  vm_compute; reflexivity.
Defined.

(** ** Field mappings at configuration load *)

(** C5, as the code has it.  A mapping of type [direct] without a source
    column is rejected when the configuration is loaded, with
    [ValueError]; a mapping of type [static] is accepted whatever its
    value, [None] included. *)
Theorem C5_direct_rejected_static_accepted (m : FieldMapping) :
  (type m = DIRECT → source_column m = None →
     ∃ what, validate_type_config m = Raise (ValueError what)) ∧
  (type m = STATIC → validate_type_config m = Ok m).
Proof.
  split.
  - intros Ht Hs. eexists. unfold validate_type_config.
    rewrite Ht. unfold attr_is_none. simpl. rewrite Hs. reflexivity.
  - intros Ht. unfold validate_type_config. rewrite Ht. simpl.
    rewrite andb_false_r. reflexivity.
Qed.

Lemma C5_witness :
  (∃ what, validate_type_config (Sample.no_mapping DIRECT) = Raise (ValueError what)) ∧
  validate_type_config (Sample.static (VStr "B")) = Ok (Sample.static (VStr "B")).
Proof.
  split.
  - apply (proj1 (C5_direct_rejected_static_accepted (Sample.no_mapping DIRECT)));
      reflexivity.
  - apply (proj2 (C5_direct_rejected_static_accepted (Sample.static (VStr "B"))));
      reflexivity.
Defined.

(** A mapping declared [static] whose [value] is absent passes the check:
    not every one of the ten variants is rejected without its
    sub-configuration. *)
Lemma C5_static_without_value_accepted :
  type (Sample.no_mapping STATIC) = STATIC ∧
  value (Sample.no_mapping STATIC) = VNone ∧
  validate_type_config (Sample.no_mapping STATIC) = Ok (Sample.no_mapping STATIC).
Proof. repeat split; reflexivity. Qed.

(** ** Formula evaluation *)

(** C2, on the code.  The text [2 ** 3] has no placeholder, so it reaches
    the evaluator as it is; [**] is none of [+ - * /], yet the text is
    evaluated, to 8, and nothing is recorded. *)
Theorem C2_formula_accepts_power (row : Row) (row_index : Z) (st : State) :
  FormulaTransformer.eval_text (H := SampleLib.lib) row
    {| expression := "2 ** 3"; coerce_numeric := true |} = Ok "2 ** 3" ∧
  FormulaTransformer.transform (H := SampleLib.lib) row
    (Sample.formula_of "2 ** 3") row_index st = (st, Ok (VInt 8)).
Proof. split; reflexivity. Qed.

(** ** Ledger facts *)

Lemma add_error_run msg col orig ri sev st :
  add_error msg col orig ri sev st =
  ({| heap := heap st; ctx := add_error_ctx msg col orig ri sev (ctx st) |}, Ok tt).
Proof. reflexivity. Qed.

Lemma add_warning_run msg col orig ri st :
  add_warning msg col orig ri st =
  ({| heap := heap st; ctx := add_error_ctx msg col orig ri WARNING (ctx st) |}, Ok tt).
Proof. reflexivity. Qed.

Lemma add_error_ctx_errors msg col orig ri sev c :
  _errors (add_error_ctx msg col orig ri sev c) =
  if goes_to_errors sev then (_errors c ++ [entry c msg col orig ri sev])%list
  else _errors c.
Proof. destruct sev; reflexivity. Qed.

Lemma add_error_ctx_warnings msg col orig ri sev c :
  _warnings (add_error_ctx msg col orig ri sev c) =
  if goes_to_errors sev then _warnings c
  else (_warnings c ++ [entry c msg col orig ri sev])%list.
Proof. destruct sev; reflexivity. Qed.

Lemma add_error_ctx_quarantined msg col orig ri sev c :
  _quarantined_rows (add_error_ctx msg col orig ri sev c) = _quarantined_rows c.
Proof. destruct sev; reflexivity. Qed.

Lemma add_error_ctx_current_row msg col orig ri sev c :
  current_row (add_error_ctx msg col orig ri sev c) = current_row c.
Proof. destruct sev; reflexivity. Qed.

(** ** Rows and their dtype *)










(** What [iterrows] keeps: the labels, their order and the labels of the
    cells; only integers are converted. *)
Lemma iterrows_cells df :
  ∃ d, map (λ r : Label * Series, (r.1, values r.2)) (iterrows df) =
       map (λ r : Label * Row, (r.1, astype d <$> r.2)) (rows df).
Proof. eexists. unfold iterrows. rewrite map_map. reflexivity. Qed.

(** Unless the table is one of integers and floats, [iterrows] yields the
    cells as the table holds them. *)
Lemma iterrows_cells_same df :
  values_dtype df ≠ DFloat64 →
  map (λ r : Label * Series, (r.1, values r.2)) (iterrows df) = rows df.
Proof.
  intros Hd. unfold iterrows. rewrite map_map. cbn [fst snd values].
  rewrite <- (map_id (rows df)) at 2. apply map_ext. intros [idx row].
  cbn [fst snd]. f_equal.
  rewrite <- (map_fmap_id row) at 2. apply map_fmap_ext. intros c v _.
  destruct (values_dtype df); try reflexivity. congruence.
Qed.

Lemma iterrows_labels df : map fst (iterrows df) = map fst (rows df).
Proof. unfold iterrows. rewrite map_map. reflexivity. Qed.

Lemma astype_not_int d v :
  (∀ z, v ≠ VInt z) → astype d v = v.
Proof. intros Hv. destruct d, v; try reflexivity. destruct (Hv z eq_refl). Qed.

Lemma row_ok_astype d required (row : Row) :
  row_ok required (astype d <$> row) = row_ok required row.
Proof.
  unfold row_ok. induction required as [| f fs IH]; [reflexivity |].
  simpl. rewrite IH. f_equal. apply bool_decide_ext.
  rewrite lookup_fmap, fmap_is_Some. reflexivity.
Qed.

Lemma filter_map_astype d (P Q : Label * Row → bool) (rs : list (Label * Row)) :
  (∀ r, P (r.1, astype d <$> r.2) = Q r) →
  filter (λ r, P r) (map (λ r : Label * Row, (r.1, astype d <$> r.2)) rs) =
  map (λ r : Label * Row, (r.1, astype d <$> r.2)) (filter (λ r, Q r) rs).
Proof.
  intros HPQ. induction rs as [| r rs IH]; [reflexivity |].
  simpl. specialize (HPQ r). destruct (Q r) eqn:EQ.
  - rewrite filter_cons_True by (rewrite HPQ; exact I).
    rewrite (filter_cons_True (λ r, Q r)) by (rewrite EQ; exact I).
    simpl. rewrite IH. reflexivity.
  - rewrite filter_cons_False by (rewrite HPQ; exact id).
    rewrite (filter_cons_False (λ r, Q r)) by (rewrite EQ; exact id).
    exact IH.
Qed.

Lemma kept_astype d required quarantine_invalid rs :
  kept required quarantine_invalid
    (map (λ r : Label * Row, (r.1, astype d <$> r.2)) rs) =
  kept required quarantine_invalid rs.
Proof.
  unfold kept.
  rewrite (filter_map_astype d
             (λ r, row_ok required r.2 || negb quarantine_invalid)
             (λ r, row_ok required r.2 || negb quarantine_invalid)).
  - rewrite map_map. reflexivity.
  - intros r. simpl. rewrite row_ok_astype. reflexivity.
Qed.

Lemma quarantined_astype d required quarantine_invalid rs :
  quarantined required quarantine_invalid
    (map (λ r : Label * Row, (r.1, astype d <$> r.2)) rs) =
  quarantined required quarantine_invalid rs.
Proof.
  unfold quarantined.
  rewrite (filter_map_astype d
             (λ r, negb (row_ok required r.2 || negb quarantine_invalid))
             (λ r, negb (row_ok required r.2 || negb quarantine_invalid))).
  - rewrite map_map. reflexivity.
  - intros r. simpl. rewrite row_ok_astype. reflexivity.
Qed.

Lemma missing_entries_astype d required rs :
  flat_map (missing_entries required)
    (map (λ r : Label * Row, (r.1, astype d <$> r.2)) rs) =
  flat_map (missing_entries required) rs.
Proof.
  induction rs as [| r rs IH]; [reflexivity |].
  simpl. rewrite IH. f_equal. unfold missing_entries. simpl. f_equal.
  apply list_filter_iff. intros f. rewrite lookup_fmap, fmap_None. reflexivity.
Qed.

(** ** Validate step *)

Section ValidateProperties.
Context `{PyLib}.

Lemma ledger_step_refl st : ledger_step st st [] ∅.
Proof.
  split; [reflexivity | by rewrite app_nil_r | by rewrite (left_id_L ∅ (∪)) |].
  exists []. by rewrite app_nil_r.
Qed.

Lemma ledger_step_trans st1 st2 st3 e1 e2 q1 q2 :
  ledger_step st1 st2 e1 q1 → ledger_step st2 st3 e2 q2 →
  ledger_step st1 st3 (e1 ++ e2) (q2 ∪ q1).
Proof.
  intros [Hh1 He1 Hq1 [w1 Hw1]] [Hh2 He2 Hq2 [w2 Hw2]]. split.
  - congruence.
  - rewrite He2, He1. by rewrite app_assoc.
  - rewrite Hq2, Hq1. by rewrite (assoc_L (∪)).
  - exists (w1 ++ w2)%list. rewrite Hw2, Hw1. by rewrite app_assoc.
Qed.

Lemma ledger_step_warning msg col orig ri st :
  ledger_step st (add_warning msg col orig ri st).1 [] ∅.
Proof.
  unfold add_warning. rewrite add_error_run. simpl. split; simpl.
  - reflexivity.
  - by rewrite app_nil_r.
  - by rewrite (left_id_L ∅ (∪)).
  - eexists. reflexivity.
Qed.

Lemma ledger_step_error msg col orig ri st :
  ledger_step st (add_error msg col orig ri ERROR st).1
    [entry (ctx st) msg col orig ri ERROR] ∅.
Proof.
  rewrite add_error_run. simpl. split; simpl.
  - reflexivity.
  - reflexivity.
  - by rewrite (left_id_L ∅ (∪)).
  - exists []. by rewrite app_nil_r.
Qed.

Lemma ledger_step_warned st st' e q w :
  ledger_step st st' e q → w ∈ _warnings (ctx st) → w ∈ _warnings (ctx st').
Proof.
  intros [_ _ _ [ws Hw]] Hin. rewrite Hw. apply elem_of_app. by left.
Qed.

(** The loop over the required fields never raises; the row comes out
    valid exactly when it has every required field. *)
Lemma check_required_spec fields row ri is_valid st :
  ∃ st',
    ValidateStep.check_required fields row ri is_valid st =
      (st', Ok (is_valid && row_ok fields row)) ∧
    ledger_step st st'
      (map (missing_entry ri) (filter (λ f, row !! f = None) fields)) ∅ ∧
    (∀ f cell, f ∈ fields → row !! f = Some cell →
       ValidateStep._is_empty cell = true →
       empty_entry ri f cell ∈ _warnings (ctx st')).
Proof.
  revert is_valid st. induction fields as [| f fields IH]; intros is_valid st.
  - exists st. simpl. rewrite andb_true_r. split; [reflexivity |].
    split; [apply ledger_step_refl |]. intros f cell Hin. inversion Hin.
  - simpl. destruct (row !! f) as [cell |] eqn:Ef.
    + set (warn := if ValidateStep._is_empty cell
                   then add_warning (MsgRequiredFieldEmpty f) (Some f)
                          (Some (OVal cell)) (Some ri)
                   else ret tt).
      assert (Hwarn : ∃ st1, warn st = (st1, Ok tt) ∧ ledger_step st st1 [] ∅ ∧
                (ValidateStep._is_empty cell = true →
                 empty_entry ri f cell ∈ _warnings (ctx st1))).
      { subst warn. destruct (ValidateStep._is_empty cell).
        - eexists. split; [reflexivity |].
          split; [apply (ledger_step_warning _ _ _ _ st) |].
          intros _. simpl. apply elem_of_app. right. by apply list_elem_of_singleton.
        - exists st. split; [reflexivity |].
          split; [apply ledger_step_refl | discriminate]. }
      destruct Hwarn as (st1 & Ewarn & Hstep1 & Hempty).
      destruct (IH is_valid st1) as (st' & E & Hstep & Hw).
      exists st'. rewrite (bind_ok _ _ _ _ _ Ewarn), E.
      rewrite filter_cons_False by (intros Hx; simpl in Hx; congruence).
      unfold row_ok. cbn [forallb]. try rewrite Ef.
      rewrite bool_decide_true by eauto. simpl.
      split; [reflexivity |].
      split; [apply (ledger_step_trans _ _ _ _ _ _ _ Hstep1 Hstep) |].
      intros f' cell' Hin Ef' He'. apply elem_of_cons in Hin as [-> | Hin].
      * rewrite Ef in Ef'. inversion Ef'; subst.
        eapply ledger_step_warned; [exact Hstep | auto].
      * eauto.
    + pose proof (add_error_run (MsgRequiredFieldMissing f) (Some f) None
                    (Some ri) ERROR st) as Eadd.
      destruct (IH false {| heap := heap st;
                            ctx := add_error_ctx (MsgRequiredFieldMissing f)
                                     (Some f) None (Some ri) ERROR (ctx st) |})
        as (st' & E & Hstep & Hw).
      exists st'. rewrite (bind_ok _ _ _ _ _ Eadd), E.
      rewrite filter_cons_True by exact Ef.
      unfold row_ok. cbn [forallb]. try rewrite Ef.
      rewrite bool_decide_false by (intros [? ?]; discriminate).
      simpl. rewrite andb_false_r.
      split; [reflexivity |].
      split.
      * pose proof (ledger_step_error (MsgRequiredFieldMissing f) (Some f) None
                      (Some ri) st) as Hone.
        rewrite Eadd in Hone. simpl in Hone.
        apply (ledger_step_trans _ _ _ _ _ _ _ Hone Hstep).
      * intros f' cell' Hin Ef' He'. apply elem_of_cons in Hin as [-> | Hin].
        -- rewrite Ef in Ef'. discriminate.
        -- eauto.
Qed.

(** The loop over the type constraints records warnings only, whether it
    returns or raises. *)
Lemma check_types_step types row ri st st' r :
  ValidateStep.check_types types row ri st = (st', r) →
  ledger_step st st' [] ∅.
Proof.
  revert st. induction types as [| [field expected] types IH]; intros st E.
  - inversion E; subst. apply ledger_step_refl.
  - simpl in E. destruct (row !! field) as [cell |]; [| by apply IH].
    split_bind E as st1 ok Eok.
    + inversion Eok; subst; clear Eok.
      assert (Hs : ∀ st2 r2,
                (if negb ok
                 then add_warning (MsgInvalidType field expected) (Some field)
                        (Some (OVal cell)) (Some ri)
                 else ret tt) st1 = (st2, r2) →
                ledger_step st1 st2 [] ∅).
      { intros st2 r2 Ew. destruct (negb ok).
        - pose proof (ledger_step_warning (MsgInvalidType field expected)
                        (Some field) (Some (OVal cell)) (Some ri) st1) as Hw.
          rewrite Ew in Hw. exact Hw.
        - inversion Ew; subst. apply ledger_step_refl. }
      split_bind E as st2 u Ew.
      * apply IH in E.
        apply (ledger_step_trans _ _ _ _ _ _ _ (Hs _ _ eq_refl) E).
      * inversion E; subst; clear E. apply (Hs _ _ eq_refl).
    + inversion Eok; subst. inversion E; subst. apply ledger_step_refl.
Qed.

Lemma quarantine_row_step ri reason st :
  ∃ st', quarantine_row ri reason st = (st', Ok tt) ∧
         ledger_step st st' [] {[ ri ]}.
Proof.
  eexists. split; [reflexivity |]. split; simpl.
  - reflexivity.
  - by rewrite app_nil_r.
  - reflexivity.
  - eexists. reflexivity.
Qed.

Lemma validate_rows_spec required quarantine_invalid types rs st st' keep :
  ValidateStep.validate_rows required quarantine_invalid types rs st
    = (st', Ok keep) →
  keep = kept required quarantine_invalid rs ∧
  ledger_step st st' (flat_map (missing_entries required) rs)
    (quarantined required quarantine_invalid rs) ∧
  (∀ r f cell, r ∈ rs → f ∈ required → r.2 !! f = Some cell →
     ValidateStep._is_empty cell = true →
     empty_entry (row_index_of r.1) f cell ∈ _warnings (ctx st')).
Proof.
  revert st keep. induction rs as [| [idx row] rs IH]; intros st keep E.
  - inversion E; subst. split; [reflexivity |].
    split; [apply ledger_step_refl |]. intros r f cell Hin. inversion Hin.
  - simpl in E.
    destruct (check_required_spec required row (row_index_of idx) true st)
      as (st1 & E1 & Hs1 & Hw1).
    rewrite (bind_ok _ _ _ _ _ E1) in E. simpl andb in E.
    split_bind E as st2 u Hs2; [| discriminate].
    apply check_types_step in Hs2.
    assert (Hq : ∃ st3,
        (if row_ok required row || negb quarantine_invalid then ret tt
         else quarantine_row (row_index_of idx) "Failed validation") st2
          = (st3, Ok tt) ∧
        ledger_step st2 st3 []
          (if row_ok required row || negb quarantine_invalid then ∅
           else {[ row_index_of idx ]})).
    { destruct (row_ok required row || negb quarantine_invalid).
      - exists st2. split; [reflexivity | apply ledger_step_refl].
      - apply quarantine_row_step. }
    destruct Hq as (st3 & E3 & Hs3).
    rewrite (bind_ok _ _ _ _ _ E3) in E.
    split_bind E as st4 keep' Erest; [| discriminate].
    inversion E; subst; clear E.
    destruct (IH _ _ Erest) as (Hkeep & Hs4 & Hw4). subst keep'.
    pose proof (ledger_step_trans _ _ _ _ _ _ _ Hs1 Hs2) as H12.
    pose proof (ledger_step_trans _ _ _ _ _ _ _ H12 Hs3) as H123.
    pose proof (ledger_step_trans _ _ _ _ _ _ _ H123 Hs4) as Hall.
    rewrite !app_nil_r in Hall.
    split; [| split].
    + unfold kept. simpl.
      destruct (row_ok required row || negb quarantine_invalid) eqn:Eok.
      * rewrite filter_cons_True by (simpl; rewrite Eok; exact I). reflexivity.
      * rewrite filter_cons_False by (simpl; rewrite Eok; exact id). reflexivity.
    + destruct Hall as [Hh He Hq [ws Hw]]. split.
      * exact Hh.
      * exact He.
      * rewrite Hq. unfold quarantined.
        destruct (row_ok required row || negb quarantine_invalid) eqn:Eok.
        -- rewrite filter_cons_False by (simpl; rewrite Eok; exact id).
           rewrite !(right_id_L ∅ (∪)). reflexivity.
        -- rewrite filter_cons_True by (simpl; rewrite Eok; exact I).
           simpl. rewrite !(right_id_L ∅ (∪)).
           f_equal. apply (comm_L (∪)).
      * exists ws. exact Hw.
    + intros r f cell Hin Hf Ecell Hempty.
      apply elem_of_cons in Hin as [-> | Hin].
      * simpl in *.
        eapply ledger_step_warned; [exact Hs4 |].
        eapply ledger_step_warned; [exact Hs3 |].
        eapply ledger_step_warned; [exact Hs2 |].
        eapply Hw1; eauto.
      * eapply Hw4; eauto.
Qed.

(** C4, as the code has it.  In the validate step, for every row: a
    required field that the row lacks is recorded as an ERROR and marks
    the row invalid, so that with [quarantine_invalid] set (the default)
    the row is quarantined and its label is not among the rows to keep,
    while with [quarantine_invalid] unset the row is kept; a required field
    that is present but empty is recorded as a WARNING only, and is no
    reason to drop or quarantine the row: [_errors] receives the entries
    of the absent fields and nothing else. *)
Theorem C4_validate_required_fields l config st st' l' :
  ValidateStep.execute l config st = (st', Ok l') →
  let df := deref st l in
  let required := default [] (required_fields config) in
  let quarantine := default true (quarantine_invalid config) in
  rows (deref st' l') = loc_select (rows df) (kept required quarantine (rows df)) ∧
  _errors (ctx st') =
    (_errors (ctx st) ++ flat_map (missing_entries required) (rows df))%list ∧
  _quarantined_rows (ctx st') =
    quarantined required quarantine (rows df) ∪ _quarantined_rows (ctx st) ∧
  (∀ r f, r ∈ rows df → f ∈ required → r.2 !! f = None →
     missing_entry (row_index_of r.1) f ∈ _errors (ctx st') ∧
     (quarantine = true →
        row_index_of r.1 ∈ _quarantined_rows (ctx st') ∧
        r ∉ filter (λ r : Label * Row, row_ok required r.2 || negb quarantine) (rows df)) ∧
     (quarantine = false → r.1 ∈ kept required quarantine (rows df))) ∧
  (∀ r f cell, r ∈ rows df → f ∈ required → r.2 !! f = Some cell →
     ValidateStep._is_empty cell = true →
     empty_entry (row_index_of r.1) f cell ∈ _warnings (ctx st') ∧
     (row_ok required r.2 = true → r.1 ∈ kept required quarantine (rows df))).
Proof.
  intros E df required quarantine. unfold ValidateStep.execute in E.
  rewrite bind_run in E. unfold read in E. fold df required quarantine in E.
  split_bind E as st1 keep Ev; [| discriminate].
  rewrite alloc_run in E. inversion E; subst st' l'; clear E.
  destruct (iterrows_cells df) as [d Hd]. rewrite Hd in Ev.
  destruct (validate_rows_spec _ _ _ _ _ _ _ Ev) as (-> & [Hh He Hq _] & Hw).
  rewrite kept_astype. rewrite missing_entries_astype in He.
  rewrite quarantined_astype in Hq.
  rewrite deref_alloc. simpl.
  assert (Hbad : ∀ r f, r ∈ rows df → f ∈ required → r.2 !! f = None →
                 row_ok required r.2 = false).
  { intros r f Hr Hf Hnone. unfold row_ok.
    apply not_true_is_false. intros Hall.
    rewrite forallb_forall in Hall.
    specialize (Hall f (proj1 (list_elem_of_In _ _) Hf)).
    apply bool_decide_eq_true in Hall. rewrite Hnone in Hall.
    destruct Hall; discriminate. }
  split; [reflexivity |]. split; [exact He |]. split; [exact Hq |]. split.
  - intros r f Hr Hf Hnone. pose proof (Hbad r f Hr Hf Hnone) as Hno.
    split; [| split].
    + rewrite He. apply elem_of_app. right.
      apply list_elem_of_In, in_flat_map. exists r.
      split; [by apply list_elem_of_In |].
      apply list_elem_of_In. unfold missing_entries.
      apply list_elem_of_fmap. exists f. split; [reflexivity |].
      apply list_elem_of_filter. split; assumption.
    + intros Hqt. split.
      * rewrite Hq. apply elem_of_union. left. unfold quarantined.
        apply elem_of_list_to_set, list_elem_of_fmap. exists r.
        split; [reflexivity |]. apply list_elem_of_filter.
        split; [| assumption]. rewrite Hno, Hqt. exact I.
      * intros Hin. apply list_elem_of_filter in Hin as [Hin _].
        rewrite Hno, Hqt in Hin. exact Hin.
    + intros Hqf. unfold kept. apply list_elem_of_fmap. exists r.
      split; [reflexivity |]. apply list_elem_of_filter.
      split; [| assumption]. rewrite Hqf, orb_true_r. exact I.
  - intros r f cell Hr Hf Hcell Hempty. split.
    { assert (Hc : astype d cell = cell).
      { apply astype_not_int. intros z ->. discriminate Hempty. }
      apply (Hw (r.1, astype d <$> r.2) f cell).
      - apply list_elem_of_fmap. exists r. split; [reflexivity | exact Hr].
      - exact Hf.
      - simpl. rewrite lookup_fmap, Hcell. simpl. rewrite Hc. reflexivity.
      - exact Hempty. }
    intros Hok. unfold kept. apply list_elem_of_fmap. exists r.
    split; [reflexivity |]. apply list_elem_of_filter.
    split; [| assumption]. rewrite Hok. exact I.
Qed.

(** With row labels that do not repeat, selecting the kept labels is
    filtering the rows. *)
Lemma filter_label_absent (l : Label) (rs : list (Label * Row)) :
  l ∉ map fst rs → filter (λ r : Label * Row, r.1 = l) rs = [].
Proof.
  induction rs as [| x rs IH]; intros Hl; [reflexivity |].
  simpl in Hl. apply not_elem_of_cons in Hl as [Hx Hl].
  rewrite filter_cons_False by (intros Heq; apply Hx; by rewrite <- Heq).
  by apply IH.
Qed.

Lemma filter_label_unique (r : Label * Row) (rs : list (Label * Row)) :
  NoDup (map fst rs) → r ∈ rs →
  filter (λ r0 : Label * Row, r0.1 = r.1) rs = [r].
Proof.
  induction rs as [| x rs IH]; intros Hnd Hr; [inversion Hr |].
  simpl in Hnd. apply NoDup_cons in Hnd as [Hx Hnd].
  apply elem_of_cons in Hr as [-> | Hr].
  - rewrite filter_cons_True by reflexivity.
    by rewrite filter_label_absent.
  - rewrite filter_cons_False.
    + by apply IH.
    + intros Heq. apply Hx. rewrite Heq.
      apply list_elem_of_fmap. by exists r.
Qed.

Lemma loc_select_filter (P : Label * Row → bool) (rs : list (Label * Row)) :
  NoDup (map fst rs) →
  loc_select rs (map fst (filter (λ r, P r) rs)) = filter (λ r, P r) rs.
Proof.
  unfold loc_select. intros Hnd.
  assert (Hgen : ∀ sub : list (Label * Row), sub ⊆ rs →
            flat_map (λ l, filter (λ r : Label * Row, r.1 = l) rs) (map fst sub) = sub).
  { induction sub as [| r sub IH]; intros Hsub; [reflexivity |].
    simpl. rewrite IH by (intros x Hx; apply Hsub; by right).
    rewrite filter_label_unique; [reflexivity | exact Hnd |].
    apply Hsub. by left. }
  apply Hgen. intros x Hx. by apply list_elem_of_filter in Hx as [_ ?].
Qed.
End ValidateProperties.

(** The sample orders validated for [name] and [customer]: no row has a
    [customer], so every row is invalid and, quarantine being on by
    default, none is kept. *)
Lemma C4_validate_witness :
  let cfg := {| required_fields := Some ["name"; "customer"];
                quarantine_invalid := None; validate_types := None |} in
  let st := Sample.initial Sample.orders (Sample.brand [] []) in
  ∃ st' l',
    ValidateStep.execute (H := SampleLib.lib) 0%nat cfg st = (st', Ok l') ∧
    rows (deref st' l') = [] ∧
    rows (deref st' l') =
      loc_select (rows (deref st 0%nat))
        (kept (default [] (required_fields cfg))
           (default true (quarantine_invalid cfg)) (rows (deref st 0%nat))).
Proof.
  intros cfg st. eexists _, _. split; [vm_compute; reflexivity |].
  split; [vm_compute; reflexivity |].
  refine (proj1 (C4_validate_required_fields (H := SampleLib.lib)
                   0%nat cfg st _ _ _)).
  vm_compute; reflexivity.
Defined.

(** A row that lacks a required field, with [quarantine_invalid] set: the
    ERROR is recorded, and the row is quarantined and dropped for that
    reason alone (its other required field is present and not empty). *)
Lemma C4_absent_field_quarantines_row :
  let cfg := {| required_fields := Some ["name"; "customer"];
                quarantine_invalid := Some true; validate_types := None |} in
  let table := {| columns := ["name"];
                  rows := [Sample.row_of 0 [("name", VStr "#1")]] |} in
  let run := ValidateStep.execute (H := SampleLib.lib) 0%nat cfg
               (Sample.initial table (Sample.brand [] [])) in
  run.2 = Ok 1%nat ∧
  rows (deref run.1 1%nat) = [] ∧
  _quarantined_rows (ctx run.1) = {[ 0 ]} ∧
  _errors (ctx run.1) =
    [ {| row_index := 0; column := Some "customer";
         message := MsgRequiredFieldMissing "customer";
         severity := ERROR; original_value := None |} ].
Proof. vm_compute. repeat split; reflexivity. Qed.

(** ** Transform step *)

Section TransformProperties.
Context `{PyLib} `{Strategies}.

Lemma heap_pure_get_transformer t row mapping ri :
  heap_pure (TransformerFactory.get_transformer t row mapping ri).
Proof.
  destruct t; simpl; try apply heap_pure_on_ctx.
  - apply heap_pure_ret.
  - unfold DirectTransformer.transform. heap_pure_tac.
  - unfold FormulaTransformer.transform. heap_pure_tac.
Qed.

Lemma heap_pure_transform_field f mapping row :
  heap_pure (TransformStep.transform_field f mapping row).
Proof.
  unfold TransformStep.transform_field.
  apply heap_pure_try_except.
  - apply heap_pure_bind; [apply heap_pure_get_ctx |].
    intros c. apply heap_pure_get_transformer.
  - intros e. heap_pure_tac.
Qed.

Lemma heap_pure_transform_fields ms ext res :
  heap_pure (TransformStep.transform_fields ms ext res).
Proof.
  revert ext res. induction ms as [| [f m] ms IH]; intros ext res; simpl.
  - apply heap_pure_ret.
  - apply heap_pure_bind; [apply heap_pure_transform_field | auto].
Qed.

Lemma heap_pure_transform_rows ms rs :
  heap_pure (TransformStep.transform_rows ms rs).
Proof.
  induction rs as [| [idx row] rs IH]; simpl.
  - apply heap_pure_ret.
  - apply heap_pure_bind; [apply heap_pure_modify_ctx |]. intros _.
    apply heap_pure_bind; [apply heap_pure_transform_fields |]. intros done.
    apply heap_pure_bind; [apply IH |]. intros out. apply heap_pure_ret.
Qed.

(** The value of a field is always produced: a failure of the strategy is
    turned into [None]. *)
Lemma transform_field_returns field_name mapping extended_row st :
  ∃ st' v,
    TransformStep.transform_field field_name mapping extended_row st = (st', Ok v).
Proof.
  unfold TransformStep.transform_field, try_except.
  destruct (bind get_ctx _ st) as [st1 [v | e]].
  - eauto.
  - eexists _, _. reflexivity.
Qed.




(** Outside the mapped fields the inner loop leaves the result row as it
    was; a mapped field has a cell in it. *)
Lemma transform_fields_spec ms extended_row result_row st :
  ∃ st' ext res,
    TransformStep.transform_fields ms extended_row result_row st
      = (st', Ok (ext, res)) ∧
    (∀ c, c ∉ map fst ms → res !! c = result_row !! c) ∧
    (∀ c, c ∈ map fst ms → is_Some (res !! c)).
Proof.
  revert extended_row result_row st.
  induction ms as [| [f m] ms IH]; intros ext0 res0 st.
  - exists st, ext0, res0. split; [reflexivity |].
    split; [auto | intros c Hc; inversion Hc].
  - destruct (transform_field_returns f m (values ext0) st) as (st1 & v & Ev).
    destruct (IH (setitem ext0 f v) (<[f := v]> res0) st1)
      as (st' & ext & res & E & Hout & Hin).
    exists st', ext, res. simpl. rewrite (bind_ok _ _ _ _ _ Ev).
    split; [exact E |]. split.
    + intros c Hc. simpl in Hc. apply not_elem_of_cons in Hc as [Hcf Hc].
      rewrite (Hout c Hc), lookup_insert_ne by congruence. reflexivity.
    + intros c Hc. destruct (decide (c ∈ map fst ms)) as [Hms | Hms].
      * apply Hin, Hms.
      * simpl in Hc. apply elem_of_cons in Hc as [-> | Hc]; [| contradiction].
        rewrite (Hout f Hms), lookup_insert_eq. eauto.
Qed.


(** The outer loop always returns; it keeps the labels of the rows, in
    order, and the cells of each result row are those the inner loop
    collected for the input row with that label. *)
Lemma transform_rows_spec ms rs st :
  ∃ st' out,
    TransformStep.transform_rows ms rs st = (st', Ok out) ∧
    Forall2 (λ (r : Label * Series) (o : Label * Row),
               o.1 = r.1 ∧
               ∃ sta stb ext,
                 TransformStep.transform_fields ms r.2 ∅ sta = (stb, Ok (ext, o.2)))
      rs out.
Proof.
  revert st. induction rs as [| [idx row] rs IH]; intros st.
  - exists st, []. split; [reflexivity | constructor].
  - simpl.
    destruct (set_current_row (row_index_of idx) st) as [st0 [[] | e0]] eqn:E0;
      [| discriminate E0].
    destruct (transform_fields_spec ms row ∅ st0) as (st1 & ext & res & E1 & _).
    destruct (IH st1) as (st' & out & E & Hall).
    exists st', ((idx, res) :: out).
    rewrite (bind_ok _ _ _ _ _ E0), (bind_ok _ _ _ _ _ E1), (bind_ok _ _ _ _ _ E).
    split; [reflexivity |]. constructor; [| exact Hall].
    split; [reflexivity |]. exists st0, st1, ext. exact E1.
Qed.

End TransformProperties.


(** ** Which tables a computation touches *)

Lemma frame_pure {A} l (m : M A) : heap_pure m → frame l m.
Proof. intros Hp st st' r E. apply Hp in E. rewrite E. split; [lia | auto]. Qed.

Lemma frame_bind {A B} l (m : M A) (k : A → M B) :
  frame l m → (∀ a, frame l (k a)) → frame l (bind m k).
Proof.
  intros Hm Hk st st' r E. split_bind E as st1 a Em.
  - destruct (Hm _ _ _ Em) as [Hlen Hold].
    destruct (Hk _ _ _ _ E) as [Hlen' Hold'].
    split; [lia |]. intros j Hj Hlt.
    rewrite Hold' by (auto; lia). auto.
  - inversion E; subst. eapply Hm; eauto.
Qed.

Lemma frame_try_except {A} l (m : M A) (h : Exn → M A) :
  frame l m → (∀ e, frame l (h e)) → frame l (try_except m h).
Proof.
  intros Hm Hh st st' r E. unfold try_except in E.
  destruct (m st) as [st1 [a | e]] eqn:Em.
  - inversion E; subst. eapply Hm; eauto.
  - destruct (Hm _ _ _ Em) as [Hlen Hold].
    destruct (Hh _ _ _ _ E) as [Hlen' Hold'].
    split; [lia |]. intros j Hj Hlt.
    rewrite Hold' by (auto; lia). auto.
Qed.

Lemma frame_alloc l df : frame l (alloc df).
Proof.
  intros st st' r E. rewrite alloc_run in E. inversion E; subst; clear E.
  simpl. rewrite length_app. simpl. split; [lia |].
  intros j _ Hlt. by rewrite lookup_app_l.
Qed.

Lemma frame_write l df : frame l (write l df).
Proof.
  intros st st' r E. inversion E; subst; clear E. simpl.
  rewrite length_insert. split; [lia |].
  intros j Hj _. by rewrite list_lookup_insert_ne.
Qed.

Lemma frame_for_each {A} l (xs : list A) (body : A → M unit) :
  (∀ x, frame l (body x)) → frame l (for_each xs body).
Proof.
  intros Hb. induction xs as [| x xs IH]; simpl.
  - apply frame_pure, heap_pure_ret.
  - apply frame_bind; auto.
Qed.

Lemma own_or_new_ret l : own_or_new l (ret l).
Proof. intros st st' l' E. inversion E. by left. Qed.

Lemma own_or_new_raise l e : own_or_new l (raise e).
Proof. intros st st' l' E. inversion E. Qed.

Lemma own_or_new_alloc l df : own_or_new l (alloc df).
Proof.
  intros st st' l' E. rewrite alloc_run in E. inversion E. right. lia.
Qed.

Lemma own_or_new_bind {A} l l0 (m : M A) (k : A → M nat) :
  frame l0 m → (∀ a, own_or_new l (k a)) → own_or_new l (bind m k).
Proof.
  intros Hm Hk st st' l' E. split_bind E as st1 a Em; [| discriminate].
  destruct (Hm _ _ _ Em) as [Hlen _].
  destruct (Hk _ _ _ _ E) as [-> | Hnew]; [by left | right; lia].
Qed.

(** Discharges [frame] goals along the structure of the computation. *)
Ltac frame_tac :=
  repeat first
    [ apply frame_alloc
    | apply frame_write
    | apply frame_pure; solve [heap_pure_tac]
    | apply frame_bind; [| intros ?]
    | apply frame_try_except; [| intros ?]
    | apply frame_for_each; intros ?
    | match goal with
      | |- frame _ (if ?b then _ else _) => destruct b
      | |- frame _ (match ?x with _ => _ end) => destruct x
      end ].

Ltac own_or_new_tac l :=
  repeat first
    [ apply own_or_new_ret
    | apply own_or_new_raise
    | apply own_or_new_alloc
    | apply (own_or_new_bind _ l); [solve [frame_tac] | intros ?]
    | match goal with
      | |- own_or_new _ (if ?b then _ else _) => destruct b
      | |- own_or_new _ (match ?x with _ => _ end) => destruct x
      end ].

Section StepFrames.
Context `{PyLib} `{Strategies}.

Lemma frame_filter l config : frame l (FilterStep.execute l config).
Proof.
  unfold FilterStep.execute.
  destruct (conditions config); [apply frame_pure, heap_pure_ret |].
  apply frame_bind; [apply frame_pure, heap_pure_collect_masks |].
  intros masks. frame_tac.
Qed.

Lemma own_or_new_filter l config : own_or_new l (FilterStep.execute l config).
Proof.
  unfold FilterStep.execute.
  destruct (conditions config); [apply own_or_new_ret |].
  apply (own_or_new_bind _ l); [apply frame_pure, heap_pure_collect_masks |].
  intros masks. own_or_new_tac l.
Qed.

Lemma frame_build_agg_spec l rules agg_spec :
  frame l (AggregateStep.build_agg_spec l rules agg_spec).
Proof.
  revert agg_spec. induction rules as [| [output_name rule] rules IH];
    intros agg_spec; simpl.
  - apply frame_pure, heap_pure_ret.
  - apply frame_bind; [apply frame_pure, heap_pure_read |]. intros df.
    destruct (negb _).
    + apply frame_bind; [apply frame_pure, heap_pure_add_warning | auto].
    + apply frame_bind.
      * destruct (ar_coerce_numeric rule);
          [apply frame_write | apply frame_pure, heap_pure_ret].
      * intros _. destruct (AggregateStep._get_agg_function rule); auto.
Qed.

Lemma frame_aggregate l config : frame l (AggregateStep.execute l config).
Proof.
  unfold AggregateStep.execute.
  apply frame_bind; [apply frame_pure, heap_pure_read |]. intros df.
  destruct (negb _); [frame_tac |].
  apply frame_bind; [apply frame_build_agg_spec |]. intros agg_spec.
  frame_tac.
Qed.

Lemma own_or_new_aggregate l config :
  own_or_new l (AggregateStep.execute l config).
Proof.
  unfold AggregateStep.execute.
  apply (own_or_new_bind _ l); [apply frame_pure, heap_pure_read |]. intros df.
  destruct (negb _); [own_or_new_tac l |].
  apply (own_or_new_bind _ l); [apply frame_build_agg_spec |]. intros agg_spec.
  own_or_new_tac l.
Qed.

Lemma frame_transform l config : frame l (TransformStep.execute l config).
Proof.
  unfold TransformStep.execute.
  destruct (mappings config); [apply frame_pure, heap_pure_ret |].
  apply frame_bind; [apply frame_pure, heap_pure_read |]. intros df.
  apply frame_bind; [apply frame_pure, heap_pure_transform_rows |].
  intros rs. apply frame_alloc.
Qed.

Lemma own_or_new_transform l config :
  own_or_new l (TransformStep.execute l config).
Proof.
  unfold TransformStep.execute.
  destruct (mappings config); [apply own_or_new_ret |].
  apply (own_or_new_bind _ l); [apply frame_pure, heap_pure_read |]. intros df.
  apply (own_or_new_bind _ l); [apply frame_pure, heap_pure_transform_rows |].
  intros rs. apply own_or_new_alloc.
Qed.

Lemma heap_pure_validate_rows required quarantine types rs :
  heap_pure (ValidateStep.validate_rows required quarantine types rs).
Proof.
  assert (Hreq : ∀ fields row ri v,
            heap_pure (ValidateStep.check_required fields row ri v)).
  { induction fields as [| f fields IH]; intros row ri v; simpl.
    - apply heap_pure_ret.
    - destruct (row !! f).
      + apply heap_pure_bind; [heap_pure_tac | auto].
      + apply heap_pure_bind; [apply heap_pure_add_error | auto]. }
  assert (Htypes : ∀ ts row ri, heap_pure (ValidateStep.check_types ts row ri)).
  { induction ts as [| [f t] ts IH]; intros row ri; simpl.
    - apply heap_pure_ret.
    - destruct (row !! f); [| auto].
      apply heap_pure_bind; [apply heap_pure_lift_res |]. intros ok.
      apply heap_pure_bind; [heap_pure_tac | auto]. }
  induction rs as [| [idx row] rs IH]; simpl.
  - apply heap_pure_ret.
  - apply heap_pure_bind; [apply Hreq |]. intros is_valid.
    apply heap_pure_bind; [apply Htypes |]. intros _.
    apply heap_pure_bind; [heap_pure_tac |]. intros _.
    apply heap_pure_bind; [apply IH |]. intros keep. apply heap_pure_ret.
Qed.

Lemma frame_validate l config : frame l (ValidateStep.execute l config).
Proof.
  unfold ValidateStep.execute.
  apply frame_bind; [apply frame_pure, heap_pure_read |]. intros df.
  apply frame_bind; [apply frame_pure, heap_pure_validate_rows |].
  intros keep. apply frame_alloc.
Qed.

Lemma own_or_new_validate l config :
  own_or_new l (ValidateStep.execute l config).
Proof.
  unfold ValidateStep.execute.
  apply (own_or_new_bind _ l); [apply frame_pure, heap_pure_read |]. intros df.
  apply (own_or_new_bind _ l); [apply frame_pure, heap_pure_validate_rows |].
  intros keep. apply own_or_new_alloc.
Qed.

(** Every registered executor touches its input table and new tables
    only, and returns its input or a new table. *)
Lemma executor_frame step_name executor l cfg :
  PipelineEngine._step_executors step_name = Some executor →
  frame l (executor l cfg) ∧ own_or_new l (executor l cfg).
Proof.
  unfold PipelineEngine._step_executors. intros E.
  repeat match type of E with
         | (if ?b then _ else _) = _ => destruct b
         end;
    inversion E; subst; clear E; destruct cfg;
    (split;
     [ first [ apply frame_filter | apply frame_aggregate
             | apply frame_transform | apply frame_validate
             | apply frame_pure, heap_pure_raise ]
     | first [ apply own_or_new_filter | apply own_or_new_aggregate
             | apply own_or_new_transform | apply own_or_new_validate
             | apply own_or_new_raise ] ]).
Qed.

Lemma frame_order_output_columns l bc :
  frame l (PipelineEngine._order_output_columns l bc).
Proof. unfold PipelineEngine._order_output_columns. frame_tac. Qed.

Lemma heap_pure_validate_schema l bc :
  heap_pure (PipelineEngine._validate_schema l bc).
Proof. unfold PipelineEngine._validate_schema. heap_pure_tac. Qed.

(** The loop over the steps touches the current table and the tables
    made along the way, nothing else. *)
Lemma frame_run_steps input_rows bc steps current_df :
  frame current_df (PipelineEngine.run_steps input_rows bc steps current_df).
Proof.
  revert current_df. induction steps as [| s steps IH]; intros cur; simpl.
  - apply frame_bind; [apply frame_order_output_columns |]. intros out.
    frame_tac.
  - apply frame_bind; [apply frame_pure, heap_pure_modify_ctx |]. intros _.
    destruct (PipelineEngine._step_executors (step s)) as [executor |] eqn:Ex;
      [| frame_tac].
    destruct (executor_frame _ _ cur (config s) Ex) as [Hframe Hnew].
    intros st st' r E. split_bind E as st1 executed Eexec.
    + assert (Hexec : frame cur
                (try_except
                   (let* result_df := executor cur (config s) in ret (Some result_df))
                   (λ e, add_error (MsgStepFailed (step s) e) None None None CRITICAL ;;;
                         ret None))).
      { apply frame_try_except; [| intros e; frame_tac].
        apply frame_bind; [exact Hframe | intros a; frame_tac]. }
      destruct (Hexec _ _ _ Eexec) as [Hlen Hold].
      destruct executed as [result_df |].
      * assert (Hres : result_df = cur ∨ (List.length (heap st) ≤ result_df)%nat).
        { unfold try_except in Eexec. rewrite bind_run in Eexec.
          destruct (executor cur (config s) st) as [st2 [l' | e]] eqn:Ee.
          - inversion Eexec; subst. eapply Hnew; eauto.
          - inversion Eexec. }
        assert (Hrest : frame result_df
                  (let* cur0 := read cur in
                   let* res := read result_df in
                   add_step_result
                     {| sr_step_name := step s; sr_input_rows := len cur0;
                        sr_output_rows := len res;
                        sr_filtered_rows := len cur0 - len res |} ;;;
                   if len res =? 0
                   then add_warning (MsgNoOutputRows (step s)) None None None ;;;
                        let* c := get_ctx in
                        ret (AtNoRows (step s), None, get_result c input_rows 0 true)
                   else PipelineEngine.run_steps input_rows bc steps result_df)).
        { apply frame_bind; [apply frame_pure, heap_pure_read |]. intros cur0.
          apply frame_bind; [apply frame_pure, heap_pure_read |]. intros res.
          apply frame_bind; [apply frame_pure, heap_pure_modify_ctx |]. intros _.
          destruct (len res =? 0); [frame_tac | apply IH]. }
        destruct (Hrest _ _ _ E) as [Hlen' Hold'].
        split; [lia |]. intros j Hj Hlt.
        rewrite Hold' by (destruct Hres; lia). auto.
      * assert (Hrest : frame cur
                  (let* c := get_ctx in
                   ret (AtStepFailed (step s), (None : option nat),
                        get_result c input_rows 0 false))) by frame_tac.
        destruct (Hrest _ _ _ E) as [Hlen' Hold'].
        split; [lia |]. intros j Hj Hlt.
        rewrite Hold' by (auto; lia). auto.
    + inversion E; subst.
      assert (Hexec : frame cur
                (try_except
                   (let* result_df := executor cur (config s) in ret (Some result_df))
                   (λ e, add_error (MsgStepFailed (step s) e) None None None CRITICAL ;;;
                         ret None))).
      { apply frame_try_except; [| intros e; frame_tac].
        apply frame_bind; [exact Hframe | intros a; frame_tac]. }
      eapply Hexec; eauto.
Qed.
End StepFrames.

(** ** Output columns *)

Lemma null_column_rows df col :
  rows (null_column df col) =
  map (λ r : Label * Row, (r.1, <[col := VNone]> r.2)) (rows df).
Proof.
  unfold null_column, set_column. simpl.
  induction (rows df) as [| r rs IH]; [reflexivity |].
  simpl. by rewrite IH.
Qed.

Lemma null_column_columns df col c :
  c ∈ columns (null_column df col) ↔ c ∈ columns df ∨ c = col.
Proof.
  unfold null_column, set_column, has_column. simpl.
  destruct (bool_decide (col ∈ columns df)) eqn:E.
  - apply bool_decide_eq_true in E. split; [auto |]. intros [? | ->]; auto.
  - rewrite elem_of_app, list_elem_of_singleton. reflexivity.
Qed.

Lemma add_missing_columns df missing c :
  c ∈ columns (add_missing df missing) ↔ c ∈ columns df ∨ c ∈ missing.
Proof.
  unfold add_missing. revert df. induction missing as [| m ms IH]; intros df; simpl.
  - split; [auto |]. intros [? | Hc]; [auto | inversion Hc].
  - rewrite IH, null_column_columns, elem_of_cons. tauto.
Qed.

Lemma add_missing_rows df missing :
  Forall2 (λ (r o : Label * Row),
             o.1 = r.1 ∧
             ∀ c, o.2 !! c = if bool_decide (c ∈ missing) then Some VNone else r.2 !! c)
    (rows df) (rows (add_missing df missing)).
Proof.
  unfold add_missing. revert df. induction missing as [| m ms IH]; intros df; simpl.
  - apply Forall2_same_length_lookup. split; [reflexivity |].
    intros i r o Hr Ho. rewrite Hr in Ho. inversion Ho; subst.
    split; [reflexivity |]. intros c. reflexivity.
  - specialize (IH (null_column df m)). rewrite null_column_rows in IH.
    apply Forall2_fmap_l in IH.
    eapply Forall2_impl; [exact IH |].
    intros r o [Hl Hc]. simpl in *. split; [exact Hl |]. intros c.
    rewrite Hc. destruct (decide (c ∈ ms)) as [Hin | Hin].
    + rewrite !bool_decide_true; [reflexivity | by right | exact Hin].
    + rewrite (bool_decide_false _ Hin).
      destruct (decide (c = m)) as [-> | Hne].
      * rewrite lookup_insert_eq, bool_decide_true by (by left). reflexivity.
      * rewrite lookup_insert_ne by congruence.
        rewrite bool_decide_false; [reflexivity |].
        intros Hc'. apply elem_of_cons in Hc' as [? | ?]; contradiction.
Qed.

Section OutputColumns.
Context `{PyLib} `{Strategies}.

(** The loop that adds the missing columns to the table at [l]. *)
Lemma add_missing_run missing l st :
  (l < List.length (heap st))%nat →
  for_each missing (λ col,
      let* df := read l in
      write l (set_column df col (repeat VNone (List.length (rows df))))) st =
  ({| heap := <[l := add_missing (deref st l) missing]> (heap st);
      ctx := ctx st |}, Ok tt).
Proof.
  revert st. induction missing as [| m ms IH]; intros st Hl.
  - simpl. unfold ret. f_equal. destruct st as [h c]. simpl in *. f_equal.
    unfold deref. simpl.
    destruct (lookup_lt_is_Some_2 h l Hl) as [df Hdf].
    rewrite Hdf. simpl. symmetry. by apply list_insert_id.
  - set (st1 := {| heap := <[l := null_column (deref st l) m]> (heap st);
                    ctx := ctx st |}).
    assert (Hl1 : (l < List.length (heap st1))%nat)
      by (simpl; rewrite length_insert; exact Hl).
    assert (Hd : deref st1 l = null_column (deref st l) m).
    { unfold deref at 1. simpl. by rewrite list_lookup_insert_eq. }
    specialize (IH st1 Hl1). rewrite Hd in IH. simpl in IH.
    rewrite list_insert_insert_eq in IH.
    change (for_each (m :: ms) ?body) with (body m ;;; for_each ms body).
    rewrite bind_run. exact IH.
Qed.

Lemma select_columns_all df cols :
  (∀ c, c ∈ cols → c ∈ columns df) →
  PipelineEngine.select_columns df cols =
  Ok {| columns := cols;
        rows := map (λ r : Label * Row,
                  (r.1, filter (λ kv : string * Value, kv.1 ∈ cols) r.2))
                (rows df) |}.
Proof.
  intros Hall. unfold PipelineEngine.select_columns.
  replace (forallb (has_column df) cols) with true; [reflexivity |].
  symmetry. apply forallb_forall. intros c Hc.
  apply bool_decide_eq_true, Hall, list_elem_of_In, Hc.
Qed.

Lemma order_output_columns_spec l bc st :
  (l < List.length (heap st))%nat →
  ∃ st',
    PipelineEngine._order_output_columns l bc st
      = (st', Ok (List.length (heap st))) ∧
    List.length (heap st') = S (List.length (heap st)) ∧
    ordered bc (deref st l) (deref st' (List.length (heap st))) ∧
    _errors (ctx st') =
      (_errors (ctx st) ++ missing_columns_entries bc (deref st l) (ctx st))%list ∧
    _warnings (ctx st') = _warnings (ctx st).
Proof.
  intros Hl. unfold PipelineEngine._order_output_columns, missing_columns_entries.
  rewrite bind_run. unfold read at 1. cbv iota beta.
  set (df := deref st l).
  set (missing := filter (λ col, negb (has_column df col)) (output_columns bc)).
  set (st_e := match missing with
               | [] => st
               | _ => {| heap := heap st;
                         ctx := add_error_ctx (MsgMissingOutputColumns missing)
                                  None None None ERROR (ctx st) |}
               end).
  assert (Hhe : heap st_e = heap st) by (subst st_e; destruct missing; reflexivity).
  assert (Hde : deref st_e l = df) by (apply deref_heap, Hhe).
  assert (Hadd :
    (match missing with
     | [] => ret tt
     | _ =>
         add_error (MsgMissingOutputColumns missing) None None None ERROR ;;;
         for_each missing (λ col,
           let* df := read l in
           write l (set_column df col (repeat VNone (List.length (rows df)))))
     end) st =
    ({| heap := <[l := add_missing df missing]> (heap st); ctx := ctx st_e |}, Ok tt)).
  { subst st_e. destruct missing as [| m ms] eqn:Em.
    - unfold ret. f_equal. destruct st as [h c]. simpl in *. f_equal.
      unfold df, deref. simpl.
      destruct (lookup_lt_is_Some_2 h l Hl) as [d Hd]. rewrite Hd. simpl.
      symmetry. by apply list_insert_id.
    - rewrite bind_run, add_error_run. cbv iota beta.
      rewrite add_missing_run by exact Hl.
      unfold deref. simpl. reflexivity. }
  rewrite (bind_ok _ _ _ _ _ Hadd). rewrite bind_run. unfold read. cbv iota beta.
  set (st_m := {| heap := <[l := add_missing df missing]> (heap st);
                  ctx := ctx st_e |}).
  assert (Hdm : deref st_m l = add_missing df missing).
  { unfold deref. simpl. by rewrite list_lookup_insert_eq. }
  rewrite Hdm.
  assert (Hcols : ∀ c, c ∈ output_columns bc → c ∈ columns (add_missing df missing)).
  { intros c Hc. apply add_missing_columns.
    destruct (has_column df c) eqn:Ec.
    - left. by apply bool_decide_eq_true in Ec.
    - right. apply list_elem_of_filter. split; [| exact Hc]. by rewrite Ec. }
  rewrite (select_columns_all _ _ Hcols). rewrite alloc_run.
  assert (Hlen : List.length (heap st_m) = List.length (heap st))
    by (simpl; apply length_insert).
  rewrite Hlen. eexists. split; [reflexivity |]. simpl.
  split; [rewrite length_app, length_insert; simpl; lia |].
  split; [| split].
  - unfold ordered, deref. simpl.
    rewrite lookup_app_r by (rewrite length_insert; lia).
    rewrite length_insert, Nat.sub_diag. simpl.
    split; [reflexivity |].
    apply Forall2_fmap_r.
    eapply Forall2_impl; [apply add_missing_rows |].
    intros r o [Hlab Hcell]. simpl. split; [exact Hlab |].
    intros c. unfold output_cell. rewrite map_lookup_filter, Hcell. simpl.
    fold df.
    destruct (decide (c ∈ output_columns bc)) as [Hc | Hc].
    + rewrite (bool_decide_true _ Hc).
      destruct (has_column df c) eqn:Ec.
      * rewrite bool_decide_false.
        -- destruct (r.2 !! c); simpl; [| reflexivity].
           rewrite option_guard_True by exact Hc. reflexivity.
        -- intros Hm. apply list_elem_of_filter in Hm as [Hm _].
           rewrite Ec in Hm. exact Hm.
      * rewrite bool_decide_true.
        -- simpl. rewrite option_guard_True by exact Hc. reflexivity.
        -- apply list_elem_of_filter. split; [by rewrite Ec | exact Hc].
    + rewrite (bool_decide_false _ Hc).
      destruct (if bool_decide (c ∈ missing) then Some VNone else r.2 !! c);
        simpl; [| reflexivity].
      rewrite option_guard_False by exact Hc. reflexivity.
  - subst st_e. fold df. fold missing. destruct missing; simpl.
    + by rewrite app_nil_r.
    + reflexivity.
  - subst st_e. destruct missing; reflexivity.
Qed.
End OutputColumns.

(** ** The engine *)

Lemma deref_nonempty_valid st l :
  len (deref st l) ≠ 0 → (l < List.length (heap st))%nat.
Proof.
  unfold deref. intros Hne.
  destruct (heap st !! l) as [df |] eqn:E.
  - eapply lookup_lt_Some; eauto.
  - exfalso. apply Hne. reflexivity.
Qed.

Section EngineProperties.
Context `{PyLib} `{Strategies}.

(** The code after the loop: the columns are ordered into a new table,
    which is returned with a result built from the context as it stands. *)
Lemma run_steps_nil_spec input_rows bc cur st :
  (cur < List.length (heap st))%nat →
  ∃ st',
    PipelineEngine.run_steps input_rows bc [] cur st =
      (st', Ok (AtEnd, Some (List.length (heap st)),
                get_result (ctx st') input_rows
                  (len (deref st' (List.length (heap st)))) true)) ∧
    ordered bc (deref st cur) (deref st' (List.length (heap st))) ∧
    _errors (ctx st') =
      (_errors (ctx st) ++ missing_columns_entries bc (deref st cur) (ctx st))%list ∧
    _warnings (ctx st') = _warnings (ctx st).
Proof.
  intros Hcur.
  destruct (order_output_columns_spec cur bc st Hcur)
    as (st' & E & _ & Hord & He & Hw).
  exists st'. simpl. rewrite (bind_ok _ _ _ _ _ E).
  split; [reflexivity |]. auto.
Qed.

(** The loop always returns, through one of its four returns. *)
Lemma run_steps_spec input_rows bc steps cur st :
  (cur < List.length (heap st))%nat →
  ∃ st' site out res,
    PipelineEngine.run_steps input_rows bc steps cur st
      = (st', Ok (site, out, res)) ∧
    return_facts input_rows bc st' site out res.
Proof.
  revert cur st. induction steps as [| s steps IH]; intros cur st Hcur.
  - destruct (run_steps_nil_spec input_rows bc cur st Hcur) as (st' & E & _).
    eexists st', AtEnd, _, _. split; [exact E |].
    exists cur, st. split; [exact Hcur | exact E].
  - simpl.
    destruct (set_current_step (step s) st) as [st0 [[] | e0]] eqn:E0;
      [| discriminate E0].
    assert (Hh0 : heap st0 = heap st) by (inversion E0; reflexivity).
    rewrite (bind_ok _ _ _ _ _ E0).
    destruct (PipelineEngine._step_executors (step s)) as [executor |].
    + rewrite bind_run. unfold try_except. rewrite bind_run.
      destruct (executor cur (config s) st0) as [st1 [result_df | e]] eqn:Eexec.
      * unfold ret at 1. cbv iota beta.
        rewrite (bind_ok _ _ _ _ _ (eq_refl : read cur st1 = (st1, Ok (deref st1 cur)))).
        rewrite (bind_ok _ _ _ _ _
                   (eq_refl : read result_df st1 = (st1, Ok (deref st1 result_df)))).
        match goal with
        | |- context [add_step_result ?r] =>
            destruct (add_step_result r st1) as [st2 [[] | e2]] eqn:E2;
              [| discriminate E2];
            rewrite (bind_ok _ _ _ _ _ E2)
        end.
        assert (Hh2 : heap st2 = heap st1) by (inversion E2; reflexivity).
        destruct (len (deref st1 result_df) =? 0) eqn:Elen.
        -- rewrite bind_run, add_warning_run. cbv iota beta.
           rewrite bind_run. unfold get_ctx, ret. cbv iota beta.
           eexists _, (AtNoRows (step s)), _, _. split; [reflexivity |].
           simpl. split; [reflexivity |]. split; [reflexivity |].
           eexists. reflexivity.
        -- apply Z.eqb_neq in Elen.
           assert (Hvalid : (result_df < List.length (heap st2))%nat).
           { apply deref_nonempty_valid.
             rewrite (deref_heap st1 st2) by exact Hh2. exact Elen. }
           apply (IH result_df st2 Hvalid).
      * rewrite bind_run, add_error_run. cbv iota beta.
        unfold ret at 1. cbv iota beta.
        rewrite bind_run. unfold get_ctx, ret. cbv iota beta.
        eexists _, (AtStepFailed (step s)), _, _. split; [reflexivity |].
        simpl. split; [reflexivity |]. split; [reflexivity |].
        eexists _, _. reflexivity.
    + rewrite bind_run, add_error_run. cbv iota beta.
      rewrite bind_run. unfold get_ctx, ret. cbv iota beta.
      eexists _, (AtUnknownStep (step s)), _, _. split; [reflexivity |].
      simpl. split; [reflexivity |]. split; [reflexivity |].
      eexists. reflexivity.
Qed.

Lemma for_each_returns {A} (xs : list A) (body : A → M unit) :
  (∀ x st, ∃ st', body x st = (st', Ok tt)) →
  ∀ st, ∃ st', for_each xs body st = (st', Ok tt).
Proof.
  intros Hb. induction xs as [| x xs IH]; intros st; simpl.
  - exists st. reflexivity.
  - destruct (Hb x st) as [st1 E1]. destruct (IH st1) as [st' E'].
    exists st'. rewrite (bind_ok _ _ _ _ _ E1). exact E'.
Qed.

(** Schema validation returns the messages of the required columns the
    table lacks. *)
Lemma validate_schema_returns l bc st :
  ∃ st',
    PipelineEngine._validate_schema l bc st =
      (st', Ok (map MsgMissingRequiredColumn
                  (filter (λ col, negb (has_column (deref st l) col))
                     (required_columns (input_schema bc))))) ∧
    heap st' = heap st.
Proof.
  unfold PipelineEngine._validate_schema.
  rewrite bind_run. unfold read. cbv iota beta.
  set (df := deref st l).
  destruct (for_each_returns (required_columns (input_schema bc))
              (λ col, if negb (has_column df col)
                      then add_error (MsgMissingRequiredColumn col) None None None CRITICAL
                      else ret tt)) with (st := st) as [st1 E1].
  { intros col st0. destruct (negb _); eexists; reflexivity. }
  destruct (for_each_returns (optional_columns (input_schema bc))
              (λ col, if negb (has_column df col)
                      then add_warning (MsgOptionalColumnNotFound col) None None None
                      else ret tt)) with (st := st1) as [st2 E2].
  { intros col st0. destruct (negb _); eexists; reflexivity. }
  exists st2. rewrite (bind_ok _ _ _ _ _ E1), (bind_ok _ _ _ _ _ E2).
  split; [reflexivity |].
  assert (H1 : heap st1 = heap st).
  { refine (heap_pure_for_each _ _ _ _ _ _ E1).
    intros col. destruct (negb (has_column df col)); heap_pure_tac. }
  assert (H2 : heap st2 = heap st1).
  { refine (heap_pure_for_each _ _ _ _ _ _ E2).
    intros col. destruct (negb (has_column df col)); heap_pure_tac. }
  congruence.
Qed.

(** [process] always returns, through one of its five returns. *)
Lemma process_spec gc df bc :
  ∃ st' site out res,
    PipelineEngine.process gc df bc = (st', Ok (site, out, res)) ∧
    match site with
    | AtSchema => out = None ∧ res = get_result (ctx st') (len df) 0 false
    | _ => return_facts (len df) bc st' site out res
    end.
Proof.
  unfold PipelineEngine.process, PipelineEngine.process_ref.
  set (st := {| heap := [df]; ctx := new_context gc bc |}).
  rewrite bind_run. unfold read at 1. cbv iota beta.
  change (deref st 0%nat) with df.
  destruct (validate_schema_returns 0%nat bc st) as (st1 & E1 & Hh1).
  rewrite (bind_ok _ _ _ _ _ E1).
  destruct (map MsgMissingRequiredColumn _) as [| e es].
  - rewrite bind_run. unfold read. cbv iota beta. rewrite bind_run, alloc_run.
    cbv iota beta.
    match goal with
    | |- context [PipelineEngine.run_steps ?ir ?b ?steps ?cur ?s0] =>
        destruct (run_steps_spec ir b steps cur s0) as (st' & site & out & res & E & Hf)
    end.
    { simpl. rewrite length_app. simpl. lia. }
    exists st', site, out, res. split; [exact E |].
    destruct site; try exact Hf. destruct Hf.
  - rewrite bind_run. unfold get_ctx, ret. cbv iota beta.
    eexists _, AtSchema, _, _. split; [reflexivity |]. split; reflexivity.
Qed.

Lemma process_returns gc df bc :
  ∃ st' site out res, PipelineEngine.process gc df bc = (st', Ok (site, out, res)).
Proof.
  destruct (process_spec gc df bc) as (st' & site & out & res & E & _). eauto.
Qed.

Lemma success_get_result c input_rows output_rows flag :
  success (get_result c input_rows output_rows flag) = true ↔
  flag = true ∧ _errors c = [].
Proof.
  unfold get_result. simpl. rewrite andb_true_iff, bool_decide_eq_true.
  split; intros [Hf He]; (split; [exact Hf |]).
  - by apply length_zero_iff_nil.
  - by rewrite He.
Qed.
End EngineProperties.

(** ** Properties of [process] *)

Section ProcessClaims.
Context `{PyLib} `{Strategies}.

(** [process] touches no table that existed before the call. *)
Lemma process_ref_frame df_ref bc st st' r :
  PipelineEngine.process_ref df_ref bc st = (st', r) →
  ∀ j, (j < List.length (heap st))%nat → heap st' !! j = heap st !! j.
Proof.
  unfold PipelineEngine.process_ref. intros E j Hj.
  rewrite bind_run in E. unfold read at 1 in E. cbv iota beta in E.
  destruct (validate_schema_returns df_ref bc st) as (st1 & E1 & Hh1).
  rewrite (bind_ok _ _ _ _ _ E1) in E.
  destruct (map MsgMissingRequiredColumn _) as [| e es].
  - rewrite bind_run in E. unfold read in E. cbv iota beta in E.
    rewrite bind_run, alloc_run in E. cbv iota beta in E.
    apply frame_run_steps in E. destruct E as [_ Hold]. simpl in Hold.
    rewrite Hold.
    + rewrite Hh1. apply lookup_app_l. exact Hj.
    + rewrite Hh1. lia.
    + rewrite length_app, Hh1. simpl. lia.
  - rewrite bind_run in E. unfold get_ctx, ret in E. cbv iota beta in E.
    inversion E; subst. by rewrite Hh1.
Qed.

(** C9. Whatever the table and the brand configuration, and whichever way
    [process] returns (schema abort, CRITICAL abort, early return on an
    empty result, or completion), the caller's table, which sits at
    reference 0 of the store, holds after the call the columns, labels and
    cells it held before. *)
Theorem C9_process_leaves_input_unchanged gc df bc :
  heap (PipelineEngine.process gc df bc).1 !! 0%nat = Some df.
Proof.
  unfold PipelineEngine.process.
  destruct (PipelineEngine.process_ref 0%nat bc _) as [st' r] eqn:E.
  apply process_ref_frame with (j := 0%nat) in E; [| simpl; lia].
  simpl. rewrite E. reflexivity.
Qed.

(** C1, as the code has it.  A run that executes all its steps to
    completion returns [success = true] exactly when no entry of severity
    ERROR or CRITICAL was recorded during the run; warnings are carried in
    the result and never change the flag. *)
Theorem C1_success_iff_no_error_recorded gc df bc st' out res :
  PipelineEngine.process gc df bc = (st', Ok (AtEnd, out, res)) →
  (success res = true ↔ _errors (ctx st') = []) ∧
  errors res = _errors (ctx st') ∧
  warnings res = _warnings (ctx st') ∧
  is_Some out.
Proof.
  intros E. destruct (process_spec gc df bc) as (st2 & site & out2 & res2 & E2 & Hf).
  rewrite E in E2. inversion E2; subst st2 site out2 res2; clear E2.
  destruct Hf as (cur & st0 & Hcur & Efinal).
  destruct (run_steps_nil_spec (len df) bc cur st0 Hcur) as (st3 & E3 & _).
  rewrite Efinal in E3. inversion E3; subst; clear E3.
  split; [| split; [reflexivity | split; [reflexivity | eauto]]].
  rewrite success_get_result. split; [intros [_ ?]; assumption | auto].
Qed.


End ProcessClaims.

(** ** Sample runs *)

(** All steps run and every declared column is there: success. *)
Lemma C1_complete_run_witness :
  ∃ st' out res,
    SampleRuns.filtered_run ["name"; "status"] = (st', Ok (AtEnd, out, res)) ∧
    success res = true ∧
    ((success res = true ↔ _errors (ctx st') = []) ∧
     errors res = _errors (ctx st') ∧
     warnings res = _warnings (ctx st') ∧
     is_Some out).
Proof.
  eexists _, _, _. split; [vm_compute; reflexivity |].
  split; [vm_compute; reflexivity |].
  apply (C1_success_iff_no_error_recorded (H := SampleLib.lib)
           (H0 := SampleLib.strategies) Sample.globals Sample.orders
           (Sample.brand [Sample.status_is "fulfilled"] ["name"; "status"])).
  vm_compute; reflexivity.
Defined.

(** All steps run, but the declared column [Brand] is absent from the
    final table: it is null-filled, one non-critical ERROR is recorded and
    the run, though complete, returns [success = false]. *)
Lemma C1_complete_run_with_error_fails :
  (SampleRuns.filtered_run ["status"; "Brand"]).2 =
  Ok (AtEnd, Some 3%nat,
      {| success := false; input_rows := 3; output_rows := 2;
         step_results := [ {| sr_step_name := "filter"; sr_input_rows := 3;
                              sr_output_rows := 2; sr_filtered_rows := 1 |} ];
         errors := [ {| row_index := 0; column := None;
                        message := MsgMissingOutputColumns ["Brand"];
                        severity := ERROR; original_value := None |} ];
         warnings := []; quarantined_rows := [] |}).
Proof. vm_compute. reflexivity. Qed.



(** * Further properties *)

(** ** The context *)

(** X1. Reference resolution is cached.  Once [resolve_reference] has
    returned a value for a reference, resolving the same reference again
    from the state it left returns the same value and changes nothing; the
    first resolution leaves the store, the errors and the warnings as they
    were. *)
Theorem X1_resolve_reference_cached ref st st1 obj :
  resolve_reference ref st = (st1, Ok obj) →
  resolve_reference ref st1 = (st1, Ok obj) ∧
  heap st1 = heap st ∧
  _errors (ctx st1) = _errors (ctx st) ∧
  _warnings (ctx st1) = _warnings (ctx st).
Proof.
  unfold resolve_reference. rewrite !bind_run. unfold get_ctx.
  destruct (_ref_cache (ctx st) !! ref) as [cached |] eqn:Ec.
  - intros E. inversion E; subst. rewrite Ec. auto.
  - destruct (negb (starts_with "$ref:" ref)) eqn:Ep.
    + intros E. inversion E; subst. rewrite Ec. auto.
    + destruct (split "." (str_drop 5 ref)) as [| part0 parts]; [discriminate |].
      destruct (String.eqb part0 "global"); [| discriminate].
      destruct (resolve_path parts _) as [o |]; [| discriminate].
      intros E. inversion E; subst; clear E. simpl.
      rewrite lookup_insert_eq. auto.
Qed.

(** The reference to the table of rates, resolved twice. *)
Lemma X1_witness :
  let st := {| heap := []; ctx := new_context sample_globals (Sample.brand [] []) |} in
  ∃ st1 obj,
    resolve_reference "$ref:global.conversion_rates" st = (st1, Ok obj) ∧
    obj = ODict [("Kuwait", OVal (VInt 3))] ∧
    (resolve_reference "$ref:global.conversion_rates" st1 = (st1, Ok obj) ∧
     heap st1 = heap st ∧
     _errors (ctx st1) = _errors (ctx st) ∧
     _warnings (ctx st1) = _warnings (ctx st)).
Proof.
  intros st. eexists _, _. split; [vm_compute; reflexivity |].
  split; [reflexivity |].
  apply (X1_resolve_reference_cached "$ref:global.conversion_rates" st).
  vm_compute; reflexivity.
Defined.

(** X2. Quarantining a row always succeeds.  Afterwards [is_quarantined]
    holds for that row and is unchanged for every other row; exactly one
    WARNING with the row index and the reason is appended and the errors
    are untouched; and the result built from the context lists every
    quarantined row once, however often it was quarantined. *)
Theorem X2_quarantined_rows_listed_once ri reason st :
  ∃ st',
    quarantine_row ri reason st = (st', Ok tt) ∧
    is_quarantined (ctx st') ri = true ∧
    (∀ rj, rj ≠ ri →
       is_quarantined (ctx st') rj = is_quarantined (ctx st) rj) ∧
    _warnings (ctx st') =
      (_warnings (ctx st) ++
       [ {| row_index := ri; column := None;
            message := MsgRowQuarantined reason;
            severity := WARNING; original_value := None |} ])%list ∧
    _errors (ctx st') = _errors (ctx st) ∧
    ∀ input_rows output_rows flag,
      NoDup (quarantined_rows (get_result (ctx st') input_rows output_rows flag)) ∧
      ∀ rj, rj ∈ quarantined_rows (get_result (ctx st') input_rows output_rows flag)
            ↔ is_quarantined (ctx st') rj = true.
Proof.
  eexists. split; [reflexivity |]. simpl.
  unfold is_quarantined. simpl.
  split; [apply bool_decide_eq_true, elem_of_union_l, elem_of_singleton; reflexivity |].
  split.
  { intros rj Hne. apply bool_decide_ext.
    rewrite elem_of_union, elem_of_singleton. tauto. }
  split; [reflexivity |]. split; [reflexivity |].
  intros _ _ _. split; [apply NoDup_elements |].
  intros rj. rewrite elem_of_elements, bool_decide_eq_true. reflexivity.
Qed.

(** ** The filter step *)

Lemma rows_from_ext (rs : list (Label * Row)) (p q : nat → bool) k :
  (∀ i, (k ≤ i)%nat → p i = q i) → rows_from k rs p = rows_from k rs q.
Proof.
  revert k. induction rs as [| r rs IH]; intros k Hpq; simpl; [reflexivity |].
  rewrite (Hpq k) by lia. rewrite (IH (S k)) by (intros i Hi; apply Hpq; lia).
  reflexivity.
Qed.

Lemma rows_from_none (rs : list (Label * Row)) (p : nat → bool) k :
  (∀ i, (k ≤ i)%nat → p i = false) → rows_from k rs p = [].
Proof.
  revert k. induction rs as [| r rs IH]; intros k Hp; simpl; [reflexivity |].
  rewrite (Hp k) by lia. apply IH. intros i Hi. apply Hp. lia.
Qed.

Lemma boolean_index_rows_from (rs : list (Label * Row)) (mask : list bool) k :
  boolean_index rs mask =
  rows_from k rs (λ i, default false (mask !! (i - k)%nat)).
Proof.
  revert mask k. induction rs as [| r rs IH]; intros mask k.
  - destruct mask; reflexivity.
  - destruct mask as [| b mask].
    + symmetry. apply rows_from_none. intros i _. reflexivity.
    + cbn [boolean_index rows_from]. rewrite Nat.sub_diag. cbn [lookup list_lookup default].
      rewrite (IH mask (S k)).
      rewrite (rows_from_ext rs
                 (λ i, default false ((b :: mask) !! (i - k)%nat))
                 (λ i, default false (mask !! (i - S k)%nat)) (S k)).
      * reflexivity.
      * intros i Hi. replace (i - k)%nat with (S (i - S k)) by lia. reflexivity.
Qed.

Lemma boolean_index_rows_at (rs : list (Label * Row)) (mask : list bool) :
  boolean_index rs mask = rows_at rs (λ i, default false (mask !! i)).
Proof.
  unfold rows_at. rewrite (boolean_index_rows_from rs mask 0).
  apply rows_from_ext. intros i _. rewrite Nat.sub_0_r. reflexivity.
Qed.

Lemma boolean_index_all (rs : list (Label * Row)) :
  boolean_index rs (repeat true (List.length rs)) = rs.
Proof. induction rs as [| r rs IH]; simpl; [reflexivity |]. rewrite IH. reflexivity. Qed.

(** The entry of the combined mask at a position. *)
Lemma fold_zip_and (ms : list (list bool)) (m0 : list bool) i :
  default false (fold_left (zip_with andb) ms m0 !! i) =
  default false (m0 !! i) && forallb (λ m : list bool, default false (m !! i)) ms.
Proof.
  revert m0. induction ms as [| m ms IH]; intros m0; simpl.
  - rewrite andb_true_r. reflexivity.
  - rewrite IH, lookup_zip_with.
    destruct (m0 !! i) as [a |], (m !! i) as [b |]; simpl;
      try reflexivity; try (rewrite ?andb_false_r; reflexivity).
    rewrite andb_assoc. reflexivity.
Qed.

Lemma fold_zip_or (ms : list (list bool)) (m0 : list bool) n i :
  List.length m0 = n → Forall (λ m : list bool, List.length m = n) ms →
  default false (fold_left (zip_with orb) ms m0 !! i) =
  default false (m0 !! i) || existsb (λ m : list bool, default false (m !! i)) ms.
Proof.
  revert m0. induction ms as [| m ms IH]; intros m0 H0 Hms; simpl.
  - rewrite orb_false_r. reflexivity.
  - inversion Hms as [| ? ? Hm Hms']; subst.
    rewrite IH; [| rewrite length_zip_with; lia | exact Hms'].
    rewrite lookup_zip_with.
    destruct (m0 !! i) as [a |] eqn:Ea, (m !! i) as [b |] eqn:Eb; simpl.
    + rewrite orb_assoc. reflexivity.
    + apply lookup_lt_Some in Ea. apply lookup_ge_None in Eb. lia.
    + apply lookup_lt_Some in Eb. apply lookup_ge_None in Ea. lia.
    + reflexivity.
Qed.

Lemma combine_keeps md (masks : list (list bool)) n i :
  masks ≠ [] → Forall (λ m : list bool, List.length m = n) masks →
  default false (FilterStep.combine md masks !! i) = keeps md masks i.
Proof.
  intros Hne Hlen. destruct masks as [| m0 ms]; [congruence |].
  inversion Hlen as [| ? ? H0 Hms]; subst.
  unfold FilterStep.combine, keeps. destruct md; simpl.
  - apply fold_zip_and.
  - eapply fold_zip_or; eauto.
Qed.

Section FilterExtras.
Context `{PyLib}.

Lemma apply_operator_length col_values op value mask :
  FilterStep._apply_operator col_values op value = Ok mask →
  List.length mask = List.length col_values.
Proof.
  unfold FilterStep._apply_operator.
  destruct op;
    repeat match goal with
           | |- context [match ?x with Ok _ => _ | Raise _ => _ end] => destruct x
           end;
    intros E; inversion E; subst; rewrite ?length_map; reflexivity.
Qed.

Lemma evaluate_condition_length l condition st st1 mask :
  FilterStep._evaluate_condition l condition st = (st1, Ok (Some mask)) →
  List.length mask = List.length (rows (deref st l)).
Proof.
  unfold FilterStep._evaluate_condition. rewrite bind_run. unfold read.
  destruct (negb (has_column (deref st l) (fc_column condition))).
  - destruct (fc_skip_if_column_missing condition).
    + rewrite bind_run, add_warning_run. intros E; inversion E.
    + rewrite bind_run, add_error_run. intros E; inversion E; subst.
      apply repeat_length.
  - intros E. split_bind E as st2 value Ev; [| discriminate].
    assert (Hcv : ∀ cv op v,
               List.length cv = List.length (rows (deref st l)) →
               lift_res (match FilterStep._apply_operator cv op v with
                         | Ok mask => Ok (Some mask)
                         | Raise e => Raise e
                         end) st2 = (st1, Ok (Some mask)) →
               List.length mask = List.length (rows (deref st l))).
    { intros cv op v Hcv. unfold lift_res.
      destruct (FilterStep._apply_operator cv op v) as [m |] eqn:Em;
        intros E'; inversion E'; subst.
      rewrite (apply_operator_length _ _ _ _ Em). exact Hcv. }
    destruct (_ && _); eapply Hcv; try exact E;
      unfold column_values; rewrite ?length_map; reflexivity.
Qed.

Lemma collect_masks_length l conds st st1 masks :
  FilterStep.collect_masks l conds st = (st1, Ok masks) →
  Forall (λ m : list bool, List.length m = List.length (rows (deref st l))) masks.
Proof.
  revert st masks. induction conds as [| c conds IH]; intros st masks E; simpl in E.
  - inversion E. constructor.
  - split_bind E as st2 mask Em; [| discriminate].
    split_bind E as st3 rest Er; [| discriminate].
    inversion E; subst; clear E.
    pose proof (heap_pure_evaluate_condition _ _ _ _ _ Em) as Hh.
    apply IH in Er. rewrite (deref_heap st st2) in Er by exact Hh.
    destruct mask as [m |]; [| exact Er].
    constructor; [| exact Er].
    eapply evaluate_condition_length; eauto.
Qed.

(** X3. The rows a filter step gives back.  A filter step that returns has
    evaluated its conditions into masks, each as long as the table.  With
    no mask (no condition, or every condition skipped) it hands its input
    back and leaves the store alone.  Otherwise its rows are the input rows
    at the positions where every mask holds, for [all_of], or where at
    least one holds, for [any_of], in the order of the input. *)
Theorem X3_filter_keeps_rows_by_mode l config st st' l' :
  FilterStep.execute l config st = (st', Ok l') →
  ∃ st1 masks,
    FilterStep.collect_masks l (conditions config) st = (st1, Ok masks) ∧
    Forall (λ m : list bool, List.length m = List.length (rows (deref st l))) masks ∧
    (masks = [] → l' = l ∧ heap st' = heap st) ∧
    (masks ≠ [] →
       rows (deref st' l') =
       rows_at (rows (deref st l)) (keeps (mode config) masks)).
Proof.
  unfold FilterStep.execute. intros E.
  destruct (conditions config) as [| c cs] eqn:Ec.
  - inversion E; subst. exists st', []. simpl.
    split; [reflexivity |]. split; [constructor |].
    split; [auto | congruence].
  - split_bind E as st1 masks Em; [| discriminate].
    exists st1, masks. split; [reflexivity |].
    pose proof (collect_masks_length _ _ _ _ _ Em) as Hlen.
    pose proof (heap_pure_collect_masks _ _ _ _ _ Em) as Hh.
    split; [exact Hlen |].
    destruct masks as [| m ms].
    + inversion E; subst. split; [auto | congruence].
    + split; [discriminate |]. intros _.
      rewrite bind_run in E. unfold read in E. rewrite alloc_run in E.
      inversion E; subst; clear E.
      rewrite deref_alloc. simpl.
      rewrite (deref_heap st st1) by exact Hh.
      rewrite boolean_index_rows_at.
      apply rows_from_ext. intros i _.
      exact (combine_keeps (mode config) (m :: ms) _ i ltac:(discriminate) Hlen).
Qed.
End FilterExtras.

Lemma zip_with_all_true (f : bool → bool → bool) n :
  f true true = true →
  zip_with f (repeat true n) (repeat true n) = repeat true n.
Proof. intros Hf. induction n as [| n IH]; simpl; [reflexivity |]. rewrite Hf, IH. reflexivity. Qed.

Lemma combine_all_true md (masks : list (list bool)) n :
  masks ≠ [] → Forall (λ m, m = repeat true n) masks →
  FilterStep.combine md masks = repeat true n.
Proof.
  intros Hne Hall. destruct masks as [| m0 ms]; [congruence |].
  inversion Hall as [| ? ? -> Hms]; subst. clear Hall Hne.
  assert (Hfold : ∀ f : bool → bool → bool, f true true = true →
            fold_left (zip_with f) ms (repeat true n) = repeat true n).
  { intros f Hf. induction Hms as [| m ms -> Hms IH]; simpl; [reflexivity |].
    rewrite zip_with_all_true by exact Hf. exact IH. }
  unfold FilterStep.combine. destruct md; apply Hfold; reflexivity.
Qed.

Lemma entry_current_row c c' msg col orig ri sev :
  current_row c' = current_row c →
  entry c' msg col orig ri sev = entry c msg col orig ri sev.
Proof. unfold entry. intros ->. reflexivity. Qed.

Section FilterMissing.
Context `{PyLib}.

(** The masks of conditions whose columns are all missing. *)
Lemma collect_masks_missing l conds st :
  Forall (λ c, has_column (deref st l) (fc_column c) = false) conds →
  ∃ st1,
    FilterStep.collect_masks l conds st =
      (st1, Ok (map (λ _, repeat true (List.length (rows (deref st l))))
                  (filter (λ c, negb (fc_skip_if_column_missing c)) conds))) ∧
    heap st1 = heap st ∧
    current_row (ctx st1) = current_row (ctx st) ∧
    _errors (ctx st1) =
      (_errors (ctx st) ++
       map (λ c, entry (ctx st) (MsgFilterColumnNotFound (fc_column c))
                   None None None ERROR)
         (filter (λ c, negb (fc_skip_if_column_missing c)) conds))%list ∧
    _warnings (ctx st1) =
      (_warnings (ctx st) ++
       map (λ c, entry (ctx st) (MsgFilterColumnSkipped (fc_column c))
                   None None None WARNING)
         (filter (λ c : FilterCondition, fc_skip_if_column_missing c) conds))%list.
Proof.
  revert st. induction conds as [| c conds IH]; intros st Hall.
  - exists st. simpl. rewrite !app_nil_r. auto.
  - inversion Hall as [| ? ? Hc Hcs]; subst.
    cbn [FilterStep.collect_masks]. rewrite bind_run.
    unfold FilterStep._evaluate_condition at 1. rewrite bind_run. unfold read at 1.
    rewrite Hc. cbn [negb].
    destruct (fc_skip_if_column_missing c) eqn:Es.
    + rewrite bind_run, add_warning_run. cbn [ret].
      set (st2 := {| heap := heap st; ctx := _ |}).
      destruct (IH st2) as [st1 (E1 & Hh & Hr & He & Hw)].
      { rewrite (deref_heap st st2) by reflexivity. exact Hcs. }
      rewrite (deref_heap st st2) in E1 by reflexivity.
      exists st1. rewrite bind_run, E1. cbn [ret].
      rewrite filter_cons_False by (rewrite Es; simpl; exact id).
      rewrite filter_cons_True by (rewrite Es; exact I).
      split; [reflexivity |]. split; [exact Hh |].
      split; [rewrite Hr; apply add_error_ctx_current_row |].
      split.
      * rewrite He. subst st2. cbn [ctx]. rewrite add_error_ctx_errors. cbn [goes_to_errors].
        reflexivity.
      * rewrite Hw. subst st2. cbn [ctx]. rewrite add_error_ctx_warnings. cbn [goes_to_errors].
        rewrite <- app_assoc. reflexivity.
    + rewrite bind_run, add_error_run. cbn [ret].
      set (st2 := {| heap := heap st; ctx := _ |}).
      destruct (IH st2) as [st1 (E1 & Hh & Hr & He & Hw)].
      { rewrite (deref_heap st st2) by reflexivity. exact Hcs. }
      rewrite (deref_heap st st2) in E1 by reflexivity.
      exists st1. rewrite bind_run, E1. cbn [ret].
      rewrite filter_cons_True by (rewrite Es; exact I).
      rewrite filter_cons_False by (rewrite Es; simpl; exact id).
      split; [reflexivity |]. split; [exact Hh |].
      split; [rewrite Hr; apply add_error_ctx_current_row |].
      split.
      * rewrite He. subst st2. cbn [ctx]. rewrite add_error_ctx_errors. cbn [goes_to_errors].
        rewrite <- app_assoc. reflexivity.
      * rewrite Hw. subst st2. cbn [ctx]. rewrite add_error_ctx_warnings. cbn [goes_to_errors].
        reflexivity.
Qed.

(** X4. Conditions on columns that the table lacks never remove a row.
    If every condition of a filter names a missing column, the step
    returns a table with the columns and the rows of its input, whatever
    the mode; it records one ERROR per condition without
    [skip_if_column_missing] and one WARNING per condition with it, in the
    order of the conditions; the result is the input itself when every
    condition is skipped, and a new table as soon as one is not. *)
Theorem X4_filter_missing_columns_keep_rows l config st :
  Forall (λ c, has_column (deref st l) (fc_column c) = false) (conditions config) →
  ∃ st' l',
    FilterStep.execute l config st = (st', Ok l') ∧
    columns (deref st' l') = columns (deref st l) ∧
    rows (deref st' l') = rows (deref st l) ∧
    _errors (ctx st') =
      (_errors (ctx st) ++
       map (λ c, entry (ctx st) (MsgFilterColumnNotFound (fc_column c))
                   None None None ERROR)
         (filter (λ c, negb (fc_skip_if_column_missing c)) (conditions config)))%list ∧
    _warnings (ctx st') =
      (_warnings (ctx st) ++
       map (λ c, entry (ctx st) (MsgFilterColumnSkipped (fc_column c))
                   None None None WARNING)
         (filter (λ c : FilterCondition, fc_skip_if_column_missing c)
            (conditions config)))%list ∧
    (Forall (λ c, fc_skip_if_column_missing c = true) (conditions config) →
       l' = l ∧ heap st' = heap st) ∧
    (Exists (λ c, fc_skip_if_column_missing c = false) (conditions config) →
       l' = List.length (heap st)).
Proof.
  intros Hall. unfold FilterStep.execute.
  destruct (conditions config) as [| c cs] eqn:Ec.
  - exists st, l. simpl. rewrite !app_nil_r.
    repeat split; auto. intros Hex. inversion Hex.
  - destruct (collect_masks_missing l (c :: cs) st Hall)
      as [st1 (E1 & Hh & Hr & He & Hw)].
    rewrite bind_run, E1.
    destruct (filter (λ c, negb (fc_skip_if_column_missing c)) (c :: cs))
      as [| c0 rest] eqn:Ef.
    + exists st1, l. cbn [map ret]. rewrite (deref_heap st st1) by exact Hh.
      rewrite He, Hw. cbn [map]. repeat split; auto.
      intros Hex. apply Exists_exists in Hex as [x [Hx Hs]].
      assert (Hin : x ∈ filter (λ c, negb (fc_skip_if_column_missing c)) (c :: cs)).
      { apply list_elem_of_filter. split; [rewrite Hs; exact I | exact Hx]. }
      rewrite Ef in Hin. inversion Hin.
    + cbn [map]. rewrite bind_run. unfold read. rewrite alloc_run.
      eexists _, _. split; [reflexivity |].
      rewrite deref_alloc. cbn [columns rows ctx heap].
      rewrite (deref_heap st st1) by exact Hh.
      rewrite (combine_all_true (mode config) _
                 (List.length (rows (deref st l))));
        [| discriminate | constructor; [reflexivity |];
           apply Forall_forall; intros m Hm;
           apply list_elem_of_fmap in Hm as [? [-> _]]; reflexivity].
      rewrite boolean_index_all. rewrite He, Hw, Hh.
      do 4 (split; [reflexivity |]). split; [| reflexivity].
      intros Hs. exfalso.
      assert (Hin : c0 ∈ filter (λ c, negb (fc_skip_if_column_missing c)) (c :: cs))
        by (rewrite Ef; left).
      apply list_elem_of_filter in Hin as [Hn Hin].
      rewrite Forall_forall in Hs. rewrite (Hs _ Hin) in Hn. exact Hn.
Qed.

(** X5. The operators [not_equals], [not_contains], [not_in] and
    [is_not_null] are the complements of [equals], [contains], [in] and
    [is_null]: on the same cells and operand, whenever the positive
    operator gives a mask the negative one gives its negation, cell by
    cell. *)
Theorem X5_negated_operator_is_complement col_values op nop value mask :
  negated op = Some nop →
  FilterStep._apply_operator col_values op value = Ok mask →
  FilterStep._apply_operator col_values nop value = Ok (map negb mask).
Proof.
  intros Hn. destruct op; inversion Hn; subst; clear Hn;
    unfold FilterStep._apply_operator;
    match goal with
    | |- context [match ?x with Ok _ => _ | Raise _ => _ end] => destruct x
    end;
    intros E; inversion E; subst; clear E;
    rewrite map_map; try reflexivity.
  f_equal. apply map_ext. intros v.
  rewrite !negb_orb. reflexivity.
Qed.
End FilterMissing.

(** Orders that are pending or above 60, under [any_of]: the first two. *)
Lemma X3_witness :
  let cfg := {| mode := any_of;
                conditions :=
                  [ {| fc_column := "status"; fc_operator := EQUALS;
                       fc_value := OVal (VStr "pending");
                       fc_case_sensitive := true;
                       fc_skip_if_column_missing := false |};
                    {| fc_column := "amount"; fc_operator := GREATER_THAN;
                       fc_value := OVal (VInt 60);
                       fc_case_sensitive := true;
                       fc_skip_if_column_missing := false |} ] |} in
  let st := Sample.initial Sample.orders (Sample.brand [] []) in
  ∃ st' l',
    FilterStep.execute (H := SampleLib.lib) 0%nat cfg st = (st', Ok l') ∧
    map fst (rows (deref st' l')) = [LInt 0; LInt 1] ∧
    ∃ st1 masks,
      FilterStep.collect_masks (H := SampleLib.lib) 0%nat (conditions cfg) st
        = (st1, Ok masks) ∧
      Forall (λ m : list bool, List.length m = List.length (rows (deref st 0%nat))) masks ∧
      (masks = [] → l' = 0%nat ∧ heap st' = heap st) ∧
      (masks ≠ [] →
         rows (deref st' l') =
         rows_at (rows (deref st 0%nat)) (keeps (mode cfg) masks)).
Proof.
  intros cfg st. eexists _, _. split; [vm_compute; reflexivity |].
  split; [vm_compute; reflexivity |].
  apply (X3_filter_keeps_rows_by_mode (H := SampleLib.lib) 0%nat cfg st).
  vm_compute; reflexivity.
Defined.

(** Two conditions on columns that the sample orders lack, one of them skipped. *)
Lemma X4_witness :
  let cfg := {| mode := all_of;
                conditions :=
                  [ {| fc_column := "region"; fc_operator := EQUALS;
                       fc_value := OVal (VStr "north");
                       fc_case_sensitive := true;
                       fc_skip_if_column_missing := false |};
                    {| fc_column := "channel"; fc_operator := EQUALS;
                       fc_value := OVal (VStr "web");
                       fc_case_sensitive := true;
                       fc_skip_if_column_missing := true |} ] |} in
  let st := Sample.initial Sample.orders (Sample.brand [] []) in
  ∃ st' l',
    FilterStep.execute (H := SampleLib.lib) 0%nat cfg st = (st', Ok l') ∧
    columns (deref st' l') = columns (deref st 0%nat) ∧
    rows (deref st' l') = rows (deref st 0%nat) ∧
    _errors (ctx st') =
      (_errors (ctx st) ++
       map (λ c, entry (ctx st) (MsgFilterColumnNotFound (fc_column c))
                   None None None ERROR)
         (filter (λ c, negb (fc_skip_if_column_missing c)) (conditions cfg)))%list ∧
    _warnings (ctx st') =
      (_warnings (ctx st) ++
       map (λ c, entry (ctx st) (MsgFilterColumnSkipped (fc_column c))
                   None None None WARNING)
         (filter (λ c : FilterCondition, fc_skip_if_column_missing c)
            (conditions cfg)))%list ∧
    (Forall (λ c, fc_skip_if_column_missing c = true) (conditions cfg) →
       l' = 0%nat ∧ heap st' = heap st) ∧
    (Exists (λ c, fc_skip_if_column_missing c = false) (conditions cfg) →
       l' = List.length (heap st)).
Proof.
  intros cfg st.
  apply (X4_filter_missing_columns_keep_rows (H := SampleLib.lib) 0%nat cfg st).
  repeat constructor.
Defined.

(** Equality with a text on three cells, one of them null. *)
Lemma X5_witness :
  let cells := [VStr "fulfilled"; VNone; VStr "pending"] in
  FilterStep._apply_operator (H := SampleLib.lib) cells EQUALS (OVal (VStr "pending"))
    = Ok [false; false; true] ∧
  FilterStep._apply_operator (H := SampleLib.lib) cells NOT_EQUALS (OVal (VStr "pending"))
    = Ok (map negb [false; false; true]).
Proof.
  intros cells. split; [vm_compute; reflexivity |].
  apply (X5_negated_operator_is_complement (H := SampleLib.lib) cells EQUALS).
  - reflexivity.
  - vm_compute; reflexivity.
Defined.

(** ** The aggregate step *)

Lemma same_outside_refl cols df : same_outside cols df df.
Proof.
  split; [reflexivity |]. apply Forall2_same_length_lookup.
  split; [reflexivity |]. intros i a b Ha Hb. rewrite Ha in Hb. inversion Hb. auto.
Qed.

Lemma same_outside_trans cols df1 df2 df3 :
  same_outside cols df1 df2 → same_outside cols df2 df3 → same_outside cols df1 df3.
Proof.
  intros [Hc1 Hr1] [Hc2 Hr2]. split; [congruence |].
  eapply Forall2_trans; [| exact Hr1 | exact Hr2].
  intros a b c [Hl1 Hv1] [Hl2 Hv2]. split; [congruence |].
  intros k Hk. rewrite Hv2, Hv1 by exact Hk. reflexivity.
Qed.

Lemma same_outside_mono cols cols' df df' :
  (∀ c, c ∈ cols → c ∈ cols') → same_outside cols df df' → same_outside cols' df df'.
Proof.
  intros Hsub [Hc Hr]. split; [exact Hc |].
  eapply Forall2_impl; [exact Hr |]. intros a b [Hl Hv]. split; [exact Hl |].
  intros c Hn. apply Hv. intros Hin. apply Hn, Hsub, Hin.
Qed.

Lemma has_column_valid st l c :
  has_column (deref st l) c = true → (l < List.length (heap st))%nat.
Proof.
  unfold deref, has_column. intros Hc.
  destruct (heap st !! l) as [df |] eqn:El.
  - eapply lookup_lt_Some; eauto.
  - simpl in Hc. discriminate Hc.
Qed.

Lemma deref_write st l df :
  (l < List.length (heap st))%nat →
  deref {| heap := <[l := df]> (heap st); ctx := ctx st |} l = df.
Proof. intros Hl. unfold deref. simpl. rewrite list_lookup_insert_eq by exact Hl. reflexivity. Qed.

Lemma set_column_same_outside df col vals :
  has_column df col = true → List.length vals = List.length (rows df) →
  same_outside [col] df (set_column df col vals).
Proof.
  intros Hc Hlen. unfold set_column. split; simpl; [rewrite Hc; reflexivity |].
  apply Forall2_same_length_lookup. split.
  - rewrite length_zip_with. lia.
  - intros i a b Ha Hb. rewrite lookup_zip_with in Hb.
    rewrite Ha in Hb. simpl in Hb.
    destruct (vals !! i) as [v |]; simpl in Hb; inversion Hb; subst. simpl.
    split; [reflexivity |]. intros c Hn.
    apply lookup_insert_ne. intros ->. apply Hn. left.
Qed.

Lemma column_values_set_column df col vals :
  List.length vals = List.length (rows df) →
  column_values (set_column df col vals) col = vals.
Proof.
  intros Hlen. unfold column_values, set_column. simpl.
  apply list_eq. intros i. rewrite list_lookup_fmap, lookup_zip_with.
  destruct (rows df !! i) as [r |] eqn:Er; simpl.
  - destruct (vals !! i) as [v |] eqn:Ev; simpl.
    + rewrite lookup_insert_eq. reflexivity.
    + apply lookup_lt_Some in Er. apply lookup_ge_None in Ev. lia.
  - apply lookup_ge_None in Er. symmetry. apply lookup_ge_None. lia.
Qed.

Lemma column_values_same_outside cols df df' c :
  same_outside cols df df' → c ∉ cols → column_values df' c = column_values df c.
Proof.
  intros [_ Hr] Hn. unfold column_values.
  induction Hr as [| a b ra rb [Hl Hv] Hr IH]; simpl; [reflexivity |].
  rewrite Hv by exact Hn. rewrite IH. reflexivity.
Qed.

Section AggregateExtras.
Context `{PyLib}.

Lemma to_numeric_series_length (cells : list Value) :
  List.length (to_numeric_series cells) = List.length cells.
Proof.
  unfold to_numeric_series, one_dtype.
  destruct (column_dtype cells); try reflexivity.
  repeat match goal with |- context [if ?b then _ else _] => destruct b end;
    rewrite ?length_map; reflexivity.
Qed.

Lemma coercions_cons name rule rules c :
  coercions ((name, rule) :: rules) c =
  ((if ar_coerce_numeric rule && bool_decide (source rule = c) then 1 else 0)
   + coercions rules c)%nat.
Proof.
  unfold coercions.
  destruct (ar_coerce_numeric rule && bool_decide (source rule = c)) eqn:E.
  - rewrite filter_cons_True by (simpl; rewrite E; exact I). reflexivity.
  - rewrite filter_cons_False by (simpl; rewrite E; exact id). reflexivity.
Qed.

(** What the loop over the rules does to the table it was handed: a
    column is coerced once per rule that asks for it. *)
Lemma build_agg_spec_table l rules agg_spec st st' r :
  AggregateStep.build_agg_spec l rules agg_spec st = (st', r) →
  List.length (heap st') = List.length (heap st) ∧
  same_outside (coerced rules) (deref st l) (deref st' l) ∧
  (∀ c, has_column (deref st l) c = true →
        column_values (deref st' l) c =
        Nat.iter (coercions rules c) to_numeric_series
          (column_values (deref st l) c)).
Proof.
  revert agg_spec st. induction rules as [| [output_name rule] rules IH];
    intros agg_spec st E.
  - inversion E; subst. split; [reflexivity |].
    split; [apply same_outside_refl |]. intros c _. reflexivity.
  - cbn [AggregateStep.build_agg_spec] in E. rewrite bind_run in E.
    unfold read at 1 in E.
    destruct (negb (has_column (deref st l) (source rule))) eqn:Hs.
    + rewrite bind_run, add_warning_run in E.
      apply IH in E. cbn [heap] in E.
      rewrite (deref_heap st {| heap := heap st; ctx := _ |}) in E by reflexivity.
      destruct E as (Hlen & Hso & Hco).
      split; [exact Hlen |]. split.
      * eapply same_outside_mono; [| exact Hso]. intros c Hc.
        unfold coerced. destruct (ar_coerce_numeric rule) eqn:Ec.
        -- rewrite filter_cons_True by (simpl; rewrite Ec; exact I). right. exact Hc.
        -- rewrite filter_cons_False by (simpl; rewrite Ec; exact id). exact Hc.
      * intros c Hhas. rewrite coercions_cons, (Hco c Hhas).
        rewrite (bool_decide_false (source rule = c)), andb_false_r; [reflexivity |].
        intros Heq. rewrite Heq, Hhas in Hs. discriminate.
    + apply negb_false_iff in Hs.
      pose proof (has_column_valid _ _ _ Hs) as Hl.
      rewrite bind_run in E.
      destruct (ar_coerce_numeric rule) eqn:Ec.
      * unfold write at 1 in E.
        set (df1 := set_column (deref st l) (source rule)
                      (to_numeric_series (column_values (deref st l) (source rule))))
          in E.
        set (st1 := {| heap := <[l := df1]> (heap st); ctx := ctx st |}) in E.
        assert (Hd1 : deref st1 l = df1) by (apply deref_write; exact Hl).
        assert (Hlenv :
          List.length (to_numeric_series (column_values (deref st l) (source rule)))
          = List.length (rows (deref st l))).
        { rewrite to_numeric_series_length. unfold column_values.
          apply length_map. }
        assert (Hso1 : same_outside [source rule] (deref st l) df1)
          by (apply set_column_same_outside; assumption).
        assert (E' : ∃ spec', AggregateStep.build_agg_spec l rules spec' st1 = (st', r)).
        { destruct (AggregateStep._get_agg_function rule); eauto. }
        destruct E' as [spec' E']. apply IH in E'.
        destruct E' as (Hlen & Hso & Hco). rewrite Hd1 in *.
        split; [rewrite Hlen; subst st1; simpl; apply length_insert |].
        assert (Hcols : ∀ c, has_column df1 c = has_column (deref st l) c).
        { intros c. unfold has_column. destruct Hso1 as [-> _]. reflexivity. }
        split.
        -- unfold coerced. rewrite filter_cons_True by (simpl; rewrite Ec; exact I).
           cbn [map]. eapply same_outside_trans.
           ++ eapply same_outside_mono; [| exact Hso1].
              intros c Hc. apply list_elem_of_singleton in Hc as ->. left.
           ++ eapply same_outside_mono; [| exact Hso]. intros c Hc. right. exact Hc.
        -- intros c Hhas. rewrite coercions_cons, Ec. cbn [andb].
           rewrite (Hco c) by (rewrite Hcols; exact Hhas).
           destruct (decide (source rule = c)) as [<- | Hne].
           ++ rewrite bool_decide_true by reflexivity.
              unfold df1. rewrite column_values_set_column by exact Hlenv.
              symmetry. apply Nat.iter_succ_r.
           ++ rewrite bool_decide_false by exact Hne.
              rewrite (column_values_same_outside [source rule] (deref st l) df1 c Hso1)
                by (intros Hin; apply list_elem_of_singleton in Hin; congruence).
              reflexivity.
      * cbn [ret] in E.
        assert (E' : ∃ spec', AggregateStep.build_agg_spec l rules spec' st = (st', r)).
        { destruct (AggregateStep._get_agg_function rule); eauto. }
        destruct E' as [spec' E']. apply IH in E'.
        destruct E' as (Hlen & Hso & Hco).
        split; [exact Hlen |]. split.
        -- unfold coerced. rewrite filter_cons_False by (simpl; rewrite Ec; exact id).
           exact Hso.
        -- intros c Hhas. rewrite coercions_cons, Ec. apply Hco, Hhas.
Qed.

Lemma build_agg_spec_returns l rules agg_spec st :
  ∃ st' out, AggregateStep.build_agg_spec l rules agg_spec st = (st', Ok out).
Proof.
  revert agg_spec st. induction rules as [| [output_name rule] rules IH];
    intros agg_spec st.
  - eexists _, _. reflexivity.
  - cbn [AggregateStep.build_agg_spec]. rewrite bind_run. unfold read at 1.
    destruct (negb _).
    + rewrite bind_run, add_warning_run. apply IH.
    + rewrite bind_run.
      destruct (ar_coerce_numeric rule); cbn [write ret];
        destruct (AggregateStep._get_agg_function rule); apply IH.
Qed.

Lemma aggregate_execute_table l config st st' r :
  AggregateStep.execute l config st = (st', r) →
  same_outside (coerced (aggregations config)) (deref st l) (deref st' l) ∧
  (has_column (deref st l) (group_by config) = true →
   ∀ c, has_column (deref st l) c = true →
        column_values (deref st' l) c =
        Nat.iter (coercions (aggregations config) c) to_numeric_series
          (column_values (deref st l) c)).
Proof.
  unfold AggregateStep.execute. rewrite bind_run. unfold read at 1.
  destruct (negb (has_column (deref st l) (group_by config))) eqn:Hg.
  - rewrite bind_run, add_error_run. intros E. inversion E; subst.
    split; [apply same_outside_refl |].
    intros Hg'. rewrite Hg' in Hg. discriminate.
  - apply negb_false_iff in Hg. pose proof (has_column_valid _ _ _ Hg) as Hl.
    intros E. split_bind E as st1 agg_spec E1.
    + destruct (build_agg_spec_table _ _ _ _ _ _ E1) as (Hlen & Hso & Hco).
      assert (Hd : deref st' l = deref st1 l).
      { destruct agg_spec as [| a agg_spec].
        - rewrite bind_run, add_error_run in E. inversion E; subst. reflexivity.
        - rewrite bind_run in E. unfold read in E.
          destruct (groupby_agg _ _ _) as [result | e].
          + rewrite alloc_run in E. inversion E; subst.
            apply deref_alloc_old. lia.
          + rewrite bind_run, add_error_run in E. inversion E; subst. reflexivity. }
      rewrite Hd. split; [exact Hso | intros _; exact Hco].
    + destruct (build_agg_spec_returns l (aggregations config) [] st)
        as (st2 & out & E2). congruence.
Qed.
End AggregateExtras.

Section AggregateTheorems.
Context `{PyLib}.

(** X6. The aggregate step never raises.  Whatever the configuration and
    the table, it returns, and what it returns is its input reference or a
    reference to a table that is new; a failure of the grouping is caught
    inside the step. *)
Theorem X6_aggregate_never_raises l config st :
  ∃ st' l',
    AggregateStep.execute l config st = (st', Ok l') ∧
    (l' = l ∨ l' = List.length (heap st)).
Proof.
  unfold AggregateStep.execute. rewrite bind_run. unfold read at 1.
  destruct (negb (has_column (deref st l) (group_by config))).
  - rewrite bind_run, add_error_run. eexists _, _. split; [reflexivity | auto].
  - destruct (build_agg_spec_returns l (aggregations config) [] st)
      as (st1 & agg_spec & E1).
    rewrite bind_run, E1.
    destruct (build_agg_spec_table _ _ _ _ _ _ E1) as (Hlen & _).
    destruct agg_spec as [| a agg_spec].
    + rewrite bind_run, add_error_run. eexists _, _. split; [reflexivity | auto].
    + rewrite bind_run. unfold read.
      destruct (groupby_agg _ _ _) as [result | e].
      * rewrite alloc_run. eexists _, _. split; [reflexivity |]. right. exact Hlen.
      * rewrite bind_run, add_error_run. eexists _, _. split; [reflexivity | auto].
Qed.

(** The rules whose source columns are all missing: each is skipped with
    a warning and nothing is added to the specification. *)
Lemma build_agg_spec_missing l rules agg_spec st :
  Forall (λ kr : string * AggregationRule,
            has_column (deref st l) (source kr.2) = false) rules →
  ∃ st1,
    AggregateStep.build_agg_spec l rules agg_spec st = (st1, Ok agg_spec) ∧
    heap st1 = heap st ∧
    current_row (ctx st1) = current_row (ctx st) ∧
    _errors (ctx st1) = _errors (ctx st) ∧
    _warnings (ctx st1) =
      (_warnings (ctx st) ++
       map (λ kr : string * AggregationRule,
              entry (ctx st) (MsgAggSourceNotFound (source kr.2))
                None None None WARNING) rules)%list.
Proof.
  revert st. induction rules as [| [output_name rule] rules IH]; intros st Hall.
  - exists st. simpl. rewrite app_nil_r. auto.
  - inversion Hall as [| ? ? Hc Hcs]; subst. simpl in Hc.
    cbn [AggregateStep.build_agg_spec]. rewrite bind_run. unfold read at 1.
    rewrite Hc. cbn [negb]. rewrite bind_run, add_warning_run.
    set (st2 := {| heap := heap st; ctx := _ |}).
    destruct (IH st2) as [st1 (E1 & Hh & Hr & He & Hw)].
    { rewrite (deref_heap st st2) by reflexivity. exact Hcs. }
    exists st1. split; [exact E1 |]. split; [exact Hh |].
    split; [rewrite Hr; reflexivity |]. split; [rewrite He; reflexivity |].
    rewrite Hw. subst st2. cbn [ctx]. rewrite add_error_ctx_warnings.
    cbn [goes_to_errors]. rewrite <- app_assoc. reflexivity.
Qed.

(** X8. An aggregate step whose group-by column exists but none of whose
    rules has its source column in the table (in particular a step without
    rules) passes its input through: it returns the same reference, leaves
    the store alone, and records one WARNING per rule followed by one
    ERROR. *)
Theorem X8_aggregate_without_usable_rule l config st :
  has_column (deref st l) (group_by config) = true →
  Forall (λ kr : string * AggregationRule,
            has_column (deref st l) (source kr.2) = false) (aggregations config) →
  ∃ st',
    AggregateStep.execute l config st = (st', Ok l) ∧
    heap st' = heap st ∧
    _errors (ctx st') =
      (_errors (ctx st) ++
       [entry (ctx st) MsgNoValidAggregations None None None ERROR])%list ∧
    _warnings (ctx st') =
      (_warnings (ctx st) ++
       map (λ kr : string * AggregationRule,
              entry (ctx st) (MsgAggSourceNotFound (source kr.2))
                None None None WARNING) (aggregations config))%list.
Proof.
  intros Hg Hall. unfold AggregateStep.execute. rewrite bind_run. unfold read at 1.
  rewrite Hg. cbn [negb].
  destruct (build_agg_spec_missing l (aggregations config) [] st Hall)
    as [st1 (E1 & Hh & Hr & He & Hw)].
  rewrite bind_run, E1. rewrite bind_run, add_error_run. cbn [ret].
  eexists. split; [reflexivity |]. cbn [heap ctx].
  split; [exact Hh |].
  rewrite add_error_ctx_errors, add_error_ctx_warnings. cbn [goes_to_errors].
  rewrite He, Hw. split; [| reflexivity].
  f_equal. f_equal. apply entry_current_row. exact Hr.
Qed.

(** X9. The aggregate step writes into the table it is handed.  After the
    step, whether it returned or raised, that table has the columns, the
    row labels and, outside the source columns of the rules with
    [coerce_numeric], the cells it had before; and when the group-by column
    exists, every column of the table holds the cells it had, coerced as a
    column by [pd.to_numeric] once per rule with [coerce_numeric] that has
    it as its source: a column of text becomes a column of numbers of one
    dtype, floats as soon as one cell is a float or cannot be read. *)
Theorem X9_aggregate_overwrites_coerced_columns l config st st' r :
  AggregateStep.execute l config st = (st', r) →
  same_outside (coerced (aggregations config)) (deref st l) (deref st' l) ∧
  (has_column (deref st l) (group_by config) = true →
   ∀ c, has_column (deref st l) c = true →
        column_values (deref st' l) c =
        Nat.iter (coercions (aggregations config) c) to_numeric_series
          (column_values (deref st l) c)).
Proof.
  apply aggregate_execute_table.
Qed.
End AggregateTheorems.

(** X7. [_first_non_null] gives the first cell of the series that is not
    null, every cell before it being null; it gives NaN exactly when every
    cell of the series is null. *)
Theorem X7_first_non_null_is_first (series : list Value) :
  let v := AggregateStep._first_non_null series in
  (∃ pre post,
     series = (pre ++ v :: post)%list ∧
     Forall (λ x, pd_isna x = true) pre ∧ pd_isna v = false) ∨
  (Forall (λ x, pd_isna x = true) series ∧ v = VFloat FNaN).
Proof.
  unfold AggregateStep._first_non_null.
  induction series as [| x series IH]; simpl.
  - right. split; [constructor | reflexivity].
  - destruct (pd_isna x) eqn:Ex.
    + rewrite filter_cons_False by (rewrite Ex; simpl; exact id).
      destruct IH as [(pre & post & Hs & Hpre & Hv) | [Hall Hv]].
      * left. exists (x :: pre), post. split; [simpl; congruence |].
        split; [constructor; assumption | exact Hv].
      * right. split; [constructor; assumption | exact Hv].
    + rewrite filter_cons_True by (rewrite Ex; exact I).
      left. exists [], series. split; [reflexivity |].
      split; [constructor | exact Ex].
Qed.

(** The sample orders summed over a column they lack. *)
Lemma X8_witness :
  let cfg := {| group_by := "status";
                aggregations := [("total", price_rule true)] |} in
  let st := Sample.initial Sample.orders (Sample.brand [] []) in
  ∃ st',
    AggregateStep.execute (H := SampleLib.lib) 0%nat cfg st = (st', Ok 0%nat) ∧
    heap st' = heap st ∧
    _errors (ctx st') =
      (_errors (ctx st) ++
       [entry (ctx st) MsgNoValidAggregations None None None ERROR])%list ∧
    _warnings (ctx st') =
      (_warnings (ctx st) ++
       map (λ kr : string * AggregationRule,
              entry (ctx st) (MsgAggSourceNotFound (source kr.2))
                None None None WARNING) (aggregations cfg))%list.
Proof.
  intros cfg st.
  apply (X8_aggregate_without_usable_rule (H := SampleLib.lib) 0%nat cfg st).
  - vm_compute; reflexivity.
  - repeat constructor.
Defined.

(** A sum over prices given as text, one of which cannot be read: the
    column is coerced in the table handed to the step, to the floats 12.0
    and NaN, and the sum of the group is 12.0. *)
Lemma X9_witness :
  let cfg := {| group_by := "status";
                aggregations := [("total", price_rule true)] |} in
  let st := Sample.initial priced_orders (Sample.brand [] []) in
  ∃ st',
    AggregateStep.execute (H := SampleLib.lib) 0%nat cfg st = (st', Ok 1%nat) ∧
    column_values (deref st' 0%nat) "price" = [VFloat (FNum 12 0); VFloat FNaN] ∧
    deref st' 1%nat =
      {| columns := ["status"; "total"];
         rows := [Sample.row_of 0 [("status", VStr "fulfilled");
                                   ("total", VFloat (FNum 12 0))]] |} ∧
    (same_outside (coerced (aggregations cfg)) (deref st 0%nat) (deref st' 0%nat) ∧
     (has_column (deref st 0%nat) (group_by cfg) = true →
      ∀ c, has_column (deref st 0%nat) c = true →
           column_values (deref st' 0%nat) c =
           Nat.iter (coercions (aggregations cfg) c)
             (to_numeric_series (H := SampleLib.lib))
             (column_values (deref st 0%nat) c))).
Proof.
  intros cfg st. eexists. split; [vm_compute; reflexivity |].
  split; [vm_compute; reflexivity |]. split; [vm_compute; reflexivity |].
  eapply (X9_aggregate_overwrites_coerced_columns (H := SampleLib.lib) 0%nat cfg st).
  vm_compute; reflexivity.
Defined.

(** ** The transform step and the formula strategy *)

(** The table built from the collected cells has the rows it was given,
    label by label, each with a cell under the same labels. *)
Lemma pd_DataFrame_labels cols (rs : list (Label * Row)) :
  map fst (rows (pd_DataFrame cols rs)) = map fst rs.
Proof. unfold pd_DataFrame. cbn [rows]. rewrite map_map. reflexivity. Qed.

Lemma pd_DataFrame_keys cols (rs : list (Label * Row)) (P : string → Prop) :
  Forall (λ o : Label * Row, ∀ c, is_Some (o.2 !! c) ↔ P c) rs →
  Forall (λ o : Label * Row, ∀ c, is_Some (o.2 !! c) ↔ P c)
    (rows (pd_DataFrame cols rs)).
Proof.
  intros Hrs. unfold pd_DataFrame. cbn [rows]. apply Forall_fmap.
  eapply Forall_impl; [exact Hrs |]. intros r Hr c. simpl.
  rewrite map_lookup_imap. specialize (Hr c).
  destruct (r.2 !! c); simpl; [| exact Hr].
  split; [intros _; apply Hr; eauto | eauto].
Qed.

Section TransformExtras.
Context `{PyLib} `{Strategies}.

(** X10. A transform step with at least one mapping never raises.  It
    allocates one new table: its columns are the mapped field names in the
    order of the mappings, its rows carry the labels of the input rows in
    the same order, and each row has a cell for exactly the mapped
    fields. *)
Theorem X10_transform_builds_mapped_columns l config st :
  mappings config ≠ [] →
  ∃ st' out,
    TransformStep.execute l config st = (st', Ok (List.length (heap st))) ∧
    heap st' = (heap st ++ [out])%list ∧
    columns out = map fst (mappings config) ∧
    map fst (rows out) = map fst (rows (deref st l)) ∧
    Forall (λ o : Label * Row,
              ∀ c, is_Some (o.2 !! c) ↔ c ∈ map fst (mappings config))
      (rows out).
Proof.
  intros Hne. unfold TransformStep.execute.
  destruct (mappings config) as [| m0 ms] eqn:Em; [congruence |].
  rewrite <- Em. clear Hne.
  rewrite bind_run. unfold read.
  destruct (transform_rows_spec (mappings config) (iterrows (deref st l)) st)
    as (st1 & out & E1 & Hrows).
  rewrite bind_run, E1, alloc_run.
  pose proof (heap_pure_transform_rows _ _ _ _ _ E1) as Hh.
  eexists _, _. split; [rewrite Hh; reflexivity |]. cbn [heap].
  split; [reflexivity |]. split; [reflexivity |].
  split.
  - rewrite pd_DataFrame_labels, <- iterrows_labels.
    clear -Hrows. induction Hrows as [| r o rs os [Hl _] _ IH]; simpl;
      [reflexivity |]. rewrite Hl, IH. reflexivity.
  - apply pd_DataFrame_keys. clear E1.
    induction Hrows as [| r o rs os [_ Hf] _ IH]; constructor; [| exact IH].
    destruct Hf as (sta & stb & ext & Ef).
    destruct (transform_fields_spec (mappings config) r.2 ∅ sta)
      as (st2 & ext' & res & Ef' & Hout & Hin).
    rewrite Ef in Ef'. inversion Ef'; subst.
    intros c. split.
    + intros Hs. destruct (decide (c ∈ map fst (mappings config))) as [Hc | Hc];
        [exact Hc |].
      rewrite (Hout c Hc), lookup_empty in Hs.
      destruct Hs as [? Hs]. discriminate.
    + intros Hc. apply (Hin c Hc).
Qed.

End TransformExtras.

(** No brace in a text: nothing in it is a placeholder. *)
Lemma str_in_tail needle a s : str_in needle (String a s) = false → str_in needle s = false.
Proof. simpl. intros Hs. apply orb_false_iff in Hs as [_ Hs]. exact Hs. Qed.

Lemma str_in_drop needle n s : str_in needle s = false → str_in needle (str_drop n s) = false.
Proof.
  revert s. induction n as [| n IH]; intros s Hs; [destruct s; exact Hs |].
  destruct s as [| a s]; [exact Hs |]. simpl. apply IH. eapply str_in_tail; eauto.
Qed.

Lemma match_placeholder_none s : str_in "{" s = false → match_placeholder s = None.
Proof.
  destruct s as [| a s]; [reflexivity |]. intros Hs.
  unfold match_placeholder.
  destruct a as [[] [] [] [] [] [] [] []]; try reflexivity.
  simpl in Hs. discriminate.
Qed.

Lemma match_coalesce_none s : str_in "{" s = false → match_coalesce s = None.
Proof.
  intros Hs. unfold match_coalesce.
  destruct (starts_with "COALESCE(" s); [| reflexivity].
  rewrite match_placeholder_none by (apply str_in_drop; exact Hs). reflexivity.
Qed.

Lemma findall_placeholders_none fuel s :
  str_in "{" s = false → findall_placeholders fuel s = [].
Proof.
  revert s. induction fuel as [| fuel IH]; intros s Hs; [reflexivity |].
  cbn [findall_placeholders]. rewrite match_placeholder_none by exact Hs.
  destruct s as [| a s]; [reflexivity |]. apply IH. eapply str_in_tail; eauto.
Qed.

Section FormulaExtras.
Context `{PyLib}.

Lemma sub_coalesce_none fuel row coerce s :
  str_in "{" s = false → FormulaTransformer.sub_coalesce fuel row coerce s = Ok s.
Proof.
  revert s. induction fuel as [| fuel IH]; intros s Hs; [reflexivity |].
  cbn [FormulaTransformer.sub_coalesce]. rewrite match_coalesce_none by exact Hs.
  destruct s as [| a s]; [reflexivity |].
  rewrite IH by (eapply str_in_tail; eauto). reflexivity.
Qed.

(** X12. A formula whose expression contains no brace is handed to the
    evaluator as it is written, and its outcome does not depend on the
    row. *)
Theorem X12_formula_without_braces_ignores_row row row' config ri st :
  str_in "{" (expression config) = false →
  FormulaTransformer.eval_text row config = Ok (expression config) ∧
  ∀ m m',
    formula m = Some config → formula m' = Some config →
    FormulaTransformer.transform row m ri st =
    FormulaTransformer.transform row' m' ri st.
Proof.
  intros Hs.
  assert (He : ∀ r, FormulaTransformer.eval_text r config = Ok (expression config)).
  { intros r. unfold FormulaTransformer.eval_text, FormulaTransformer._handle_coalesce.
    rewrite sub_coalesce_none by exact Hs.
    rewrite findall_placeholders_none by exact Hs. reflexivity. }
  split; [apply He |].
  intros m m' Hm Hm'. unfold FormulaTransformer.transform.
  rewrite Hm, Hm', !He. reflexivity.
Qed.
End FormulaExtras.

(** Two mappings over the sample orders. *)
Lemma X10_witness :
  let cfg := {| mappings := [("id", Sample.direct "name");
                             ("brand", Sample.static (VStr "Sample"))] |} in
  let st := Sample.initial Sample.orders (Sample.brand [] []) in
  ∃ st' out,
    TransformStep.execute (H := SampleLib.lib) (H0 := SampleLib.strategies)
      0%nat cfg st = (st', Ok (List.length (heap st))) ∧
    heap st' = (heap st ++ [out])%list ∧
    columns out = map fst (mappings cfg) ∧
    map fst (rows out) = map fst (rows (deref st 0%nat)) ∧
    Forall (λ o : Label * Row,
              ∀ c, is_Some (o.2 !! c) ↔ c ∈ map fst (mappings cfg))
      (rows out).
Proof.
  intros cfg st.
  apply (X10_transform_builds_mapped_columns (H := SampleLib.lib)
           (H0 := SampleLib.strategies) 0%nat cfg st).
  discriminate.
Defined.


(** The expression [2 ** 3] on an empty row and on another row. *)
Lemma X12_witness :
  let cfg := {| expression := "2 ** 3"; coerce_numeric := true |} in
  let st := Sample.initial Sample.orders (Sample.brand [] []) in
  FormulaTransformer.eval_text (H := SampleLib.lib) ∅ cfg = Ok (expression cfg) ∧
  ∀ m m',
    formula m = Some cfg → formula m' = Some cfg →
    FormulaTransformer.transform (H := SampleLib.lib) ∅ m 0 st =
    FormulaTransformer.transform (H := SampleLib.lib) {[ "a" := VInt 1 ]} m' 0 st.
Proof.
  intros cfg st.
  apply (X12_formula_without_braces_ignores_row (H := SampleLib.lib)
           ∅ {[ "a" := VInt 1 ]} cfg 0 st).
  vm_compute; reflexivity.
Defined.

(** ** The validate step *)

Lemma filter_all {A} (P : A → bool) (xs : list A) :
  (∀ x, x ∈ xs → P x = true) → filter (λ x, P x) xs = xs.
Proof.
  induction xs as [| x xs IH]; intros Hall; [reflexivity |].
  rewrite filter_cons_True by (rewrite (Hall x) by left; exact I).
  rewrite IH; [reflexivity |]. intros y Hy. apply Hall. right. exact Hy.
Qed.

Lemma filter_none {A} (P : A → bool) (xs : list A) :
  (∀ x, x ∈ xs → P x = false) → filter (λ x, P x) xs = [].
Proof.
  induction xs as [| x xs IH]; intros Hall; [reflexivity |].
  rewrite filter_cons_False by (rewrite (Hall x) by left; exact id).
  apply IH. intros y Hy. apply Hall. right. exact Hy.
Qed.

Section ValidateExtras.
Context `{PyLib}.

Lemma check_required_warnings fields row ri is_valid st st' v :
  ValidateStep.check_required fields row ri is_valid st = (st', Ok v) →
  _warnings (ctx st') = (_warnings (ctx st) ++ empty_warnings fields ri row)%list.
Proof.
  revert is_valid st. induction fields as [| f fields IH]; intros is_valid st E.
  - inversion E; subst. unfold empty_warnings. simpl. rewrite app_nil_r. reflexivity.
  - cbn [ValidateStep.check_required] in E. unfold empty_warnings. cbn [flat_map].
    fold (empty_warnings fields ri row).
    destruct (row !! f) as [cell |].
    + rewrite bind_run in E. destruct (ValidateStep._is_empty cell).
      * rewrite add_warning_run in E. apply IH in E. rewrite E. cbn [ctx].
        rewrite add_error_ctx_warnings. cbn [goes_to_errors].
        rewrite <- app_assoc. reflexivity.
      * cbn [ret] in E. apply IH in E. exact E.
    + rewrite bind_run, add_error_run in E. apply IH in E. rewrite E. cbn [ctx].
      rewrite add_error_ctx_warnings. reflexivity.
Qed.

Lemma check_types_warnings types row ri st st' :
  ValidateStep.check_types types row ri st = (st', Ok tt) →
  _warnings (ctx st') = (_warnings (ctx st) ++ type_warnings types ri row)%list.
Proof.
  revert st. induction types as [| [f t] types IH]; intros st E.
  - inversion E; subst. unfold type_warnings. simpl. rewrite app_nil_r. reflexivity.
  - cbn [ValidateStep.check_types] in E. unfold type_warnings. cbn [flat_map fst snd].
    fold (type_warnings types ri row).
    destruct (row !! f) as [cell |]; [| apply IH in E; exact E].
    rewrite bind_run in E. unfold lift_res in E.
    destruct (ValidateStep._validate_type cell t) as [[] | e]; [| | discriminate].
    + rewrite bind_run in E. cbn [negb ret] in E. apply IH in E. exact E.
    + rewrite bind_run in E. cbn [negb] in E. rewrite add_warning_run in E.
      apply IH in E. rewrite E. cbn [ctx].
      rewrite add_error_ctx_warnings. cbn [goes_to_errors].
      rewrite <- app_assoc. reflexivity.
Qed.

Lemma validate_rows_warnings required quarantine types rs st st' keep :
  ValidateStep.validate_rows required quarantine types rs st = (st', Ok keep) →
  _warnings (ctx st') =
    (_warnings (ctx st) ++ flat_map (row_warnings required quarantine types) rs)%list.
Proof.
  revert st keep. induction rs as [| [idx row] rs IH]; intros st keep E.
  - inversion E; subst. simpl. rewrite app_nil_r. reflexivity.
  - cbn [ValidateStep.validate_rows] in E.
    split_bind E as st1 is_valid Er; [| discriminate].
    destruct (check_required_spec required row (row_index_of idx) true st)
      as (st1' & Er' & _). rewrite Er in Er'. inversion Er'; subst st1' is_valid.
    clear Er'. cbn [andb] in *.
    split_bind E as st2 u Et; [| discriminate]. destruct u.
    split_bind E as st3 u Eq; [| discriminate].
    split_bind E as st4 rest Ev; [| discriminate].
    inversion E; subst st' keep; clear E.
    apply IH in Ev. rewrite Ev.
    apply check_required_warnings in Er. apply check_types_warnings in Et.
    cbn [flat_map]. rewrite app_assoc. f_equal.
    unfold row_warnings. cbn [fst snd].
    rewrite !app_assoc, <- Er, <- Et.
    destruct (row_ok required row || negb quarantine).
    + inversion Eq; subst. rewrite app_nil_r. reflexivity.
    + unfold quarantine_row in Eq. rewrite bind_run in Eq. cbn [modify_ctx] in Eq.
      rewrite add_error_run in Eq. inversion Eq; subst. reflexivity.
Qed.

(** X13. With row labels that do not repeat, a validate step that returns
    gives back exactly the rows that have every required field (every row
    when quarantine is off), in the order of the input, hence a
    subsequence of the input rows; with quarantine off, or without
    required fields, every row is kept and nothing is quarantined. *)
Theorem X13_validate_unique_labels_keep_valid_rows l config st st' l' :
  ValidateStep.execute l config st = (st', Ok l') →
  NoDup (map fst (rows (deref st l))) →
  let required := default [] (required_fields config) in
  let quarantine := default true (quarantine_invalid config) in
  rows (deref st' l') =
    filter (λ r : Label * Row, row_ok required r.2 || negb quarantine)
      (rows (deref st l)) ∧
  sublist (rows (deref st' l')) (rows (deref st l)) ∧
  (quarantine = false ∨ required = [] →
     rows (deref st' l') = rows (deref st l) ∧
     _quarantined_rows (ctx st') = _quarantined_rows (ctx st)).
Proof.
  intros E Hnd required quarantine. unfold ValidateStep.execute in E.
  rewrite bind_run in E. unfold read in E. fold required quarantine in E.
  split_bind E as st1 keep Ev; [| discriminate].
  rewrite alloc_run in E. inversion E; subst st' l'; clear E.
  destruct (iterrows_cells (deref st l)) as [d Hd]. rewrite Hd in Ev.
  destruct (validate_rows_spec _ _ _ _ _ _ _ Ev) as (-> & [Hh He Hq _] & Hw).
  rewrite kept_astype. rewrite quarantined_astype in Hq.
  rewrite deref_alloc. cbn [rows ctx].
  assert (Hrows : loc_select (rows (deref st l))
                    (kept required quarantine (rows (deref st l))) =
                  filter (λ r : Label * Row, row_ok required r.2 || negb quarantine)
                    (rows (deref st l))).
  { unfold kept.
    apply (loc_select_filter (λ r : Label * Row, row_ok required r.2 || negb quarantine)).
    exact Hnd. }
  rewrite Hrows. split; [reflexivity |]. split; [apply sublist_filter |].
  intros Hall.
  assert (Hok : ∀ r : Label * Row, row_ok required r.2 || negb quarantine = true).
  { intros r. destruct Hall as [-> | ->]; [apply orb_true_r | reflexivity]. }
  split.
  - apply (filter_all (λ r : Label * Row, row_ok required r.2 || negb quarantine)).
    intros r _. apply Hok.
  - rewrite Hq. unfold quarantined.
    rewrite (filter_none (λ r : Label * Row,
                            negb (row_ok required r.2 || negb quarantine)))
      by (intros r _; rewrite Hok; reflexivity).
    simpl. apply (left_id_L ∅ (∪)).
Qed.

(** X14. The warnings of a validate step that returns are, row by row and
    in this order: one per required field that is present and empty, one
    per constrained field whose cell fails its type check, and the
    quarantine warning when the row is dropped.  Nothing else is added to
    the warnings.  The rows and their cells are those that [iterrows]
    yields, which are the rows of the table as it holds them unless it is a
    table of integers and floats. *)
Theorem X14_validate_warnings l config st st' l' :
  ValidateStep.execute l config st = (st', Ok l') →
  _warnings (ctx st') =
    (_warnings (ctx st) ++
     flat_map (row_warnings (default [] (required_fields config))
                 (default true (quarantine_invalid config))
                 (default [] (validate_types config)))
       (map (λ r : Label * Series, (r.1, values r.2))
          (iterrows (deref st l))))%list ∧
  (values_dtype (deref st l) ≠ DFloat64 →
   _warnings (ctx st') =
     (_warnings (ctx st) ++
      flat_map (row_warnings (default [] (required_fields config))
                  (default true (quarantine_invalid config))
                  (default [] (validate_types config)))
        (rows (deref st l)))%list).
Proof.
  intros E. unfold ValidateStep.execute in E.
  rewrite bind_run in E. unfold read in E.
  split_bind E as st1 keep Ev; [| discriminate].
  rewrite alloc_run in E. inversion E; subst st' l'; clear E. cbn [ctx].
  apply validate_rows_warnings in Ev. split; [exact Ev |].
  intros Hd. rewrite Ev, iterrows_cells_same by exact Hd. reflexivity.
Qed.
End ValidateExtras.

(** The sample orders validated with quarantine off: no row has a
    customer, every row is kept. *)
Lemma X13_witness :
  let cfg := {| required_fields := Some ["name"; "customer"];
                quarantine_invalid := Some false; validate_types := None |} in
  let st := Sample.initial Sample.orders (Sample.brand [] []) in
  ∃ st' l',
    ValidateStep.execute (H := SampleLib.lib) 0%nat cfg st = (st', Ok l') ∧
    rows (deref st' l') =
      filter (λ r : Label * Row,
                row_ok (default [] (required_fields cfg)) r.2
                || negb (default true (quarantine_invalid cfg)))
        (rows (deref st 0%nat)) ∧
    sublist (rows (deref st' l')) (rows (deref st 0%nat)) ∧
    (default true (quarantine_invalid cfg) = false
     ∨ default [] (required_fields cfg) = [] →
       rows (deref st' l') = rows (deref st 0%nat) ∧
       _quarantined_rows (ctx st') = _quarantined_rows (ctx st)).
Proof.
  intros cfg st. eexists _, _. split; [vm_compute; reflexivity |].
  apply (X13_validate_unique_labels_keep_valid_rows (H := SampleLib.lib) 0%nat cfg st).
  - vm_compute; reflexivity.
  - vm_compute. repeat constructor; intros Hin;
      repeat (apply elem_of_cons in Hin as [Hin | Hin]; [discriminate |]);
      inversion Hin.
Defined.

(** An empty name and a malformed amount in the first row; the required
    field [email] is absent, so both rows are quarantined. *)
Lemma X14_witness :
  let cfg := {| required_fields := Some ["name"; "email"];
                quarantine_invalid := None;
                validate_types := Some [("amount", "numeric")] |} in
  let st := Sample.initial typed_orders (Sample.brand [] []) in
  ∃ st' l',
    ValidateStep.execute (H := SampleLib.lib) 0%nat cfg st = (st', Ok l') ∧
    _warnings (ctx st') =
      [empty_entry 0 "name" (VStr "");
       invalid_type_entry 0 "amount" "numeric" (VStr "abc");
       quarantine_entry 0 "Failed validation";
       quarantine_entry 1 "Failed validation"] ∧
    (_warnings (ctx st') =
       (_warnings (ctx st) ++
        flat_map (row_warnings (H := SampleLib.lib)
                    (default [] (required_fields cfg))
                    (default true (quarantine_invalid cfg))
                    (default [] (validate_types cfg)))
          (map (λ r : Label * Series, (r.1, values r.2))
             (iterrows (deref st 0%nat))))%list ∧
     (values_dtype (deref st 0%nat) ≠ DFloat64 →
      _warnings (ctx st') =
        (_warnings (ctx st) ++
         flat_map (row_warnings (H := SampleLib.lib)
                     (default [] (required_fields cfg))
                     (default true (quarantine_invalid cfg))
                     (default [] (validate_types cfg)))
           (rows (deref st 0%nat)))%list)).
Proof.
  intros cfg st. eexists _, _. split; [vm_compute; reflexivity |].
  split; [vm_compute; reflexivity |].
  eapply (X14_validate_warnings (H := SampleLib.lib) 0%nat cfg st).
  vm_compute; reflexivity.
Defined.

(** ** The engine: schema check and aborts *)

Lemma record_all_fields mk sev cols c :
  global_config (record_all mk sev cols c) = global_config c ∧
  brand_config (record_all mk sev cols c) = brand_config c ∧
  current_row (record_all mk sev cols c) = current_row c ∧
  _step_results (record_all mk sev cols c) = _step_results c ∧
  _quarantined_rows (record_all mk sev cols c) = _quarantined_rows c ∧
  _errors (record_all mk sev cols c) =
    (_errors c ++
     if goes_to_errors sev
     then map (λ col, run_entry (current_row c) (mk col) sev) cols else [])%list ∧
  _warnings (record_all mk sev cols c) =
    (_warnings c ++
     if goes_to_errors sev
     then [] else map (λ col, run_entry (current_row c) (mk col) sev) cols)%list.
Proof.
  revert c. unfold record_all. induction cols as [| col cols IH]; intros c.
  - simpl. destruct (goes_to_errors sev); rewrite !app_nil_r; auto 10.
  - cbn [fold_left].
    destruct (IH (add_error_ctx (mk col) None None None sev c))
      as (Hg & Hb & Hr & Hs & Hq & He & Hw).
    rewrite Hg, Hb, Hr, Hs, Hq, He, Hw.
    rewrite add_error_ctx_errors, add_error_ctx_warnings,
      add_error_ctx_quarantined, add_error_ctx_current_row.
    unfold entry, run_entry.
    destruct sev; cbn [goes_to_errors default map];
      rewrite <- ?app_assoc; auto 10.
Qed.

Lemma for_each_record_run mk sev (df : DataFrame) cols st :
  for_each cols (λ col,
      if negb (has_column df col)
      then add_error (mk col) None None None sev else ret tt) st =
  ({| heap := heap st; ctx := record_all mk sev (lacking df cols) (ctx st) |}, Ok tt).
Proof.
  revert st. induction cols as [| col cols IH]; intros st.
  - destruct st. reflexivity.
  - cbn [for_each]. rewrite bind_run. unfold lacking.
    destruct (negb (has_column df col)) eqn:Hc.
    + rewrite add_error_run, IH.
      rewrite filter_cons_True by (rewrite Hc; exact I). reflexivity.
    + cbn [ret]. rewrite IH.
      rewrite filter_cons_False by (rewrite Hc; exact id). reflexivity.
Qed.

Section EngineExtras.
Context `{PyLib} `{Strategies}.

Lemma validate_schema_run l bc st :
  PipelineEngine._validate_schema l bc st =
  ({| heap := heap st;
      ctx := record_all MsgOptionalColumnNotFound WARNING
               (lacking (deref st l) (optional_columns (input_schema bc)))
               (record_all MsgMissingRequiredColumn CRITICAL
                  (lacking (deref st l) (required_columns (input_schema bc)))
                  (ctx st)) |},
   Ok (map MsgMissingRequiredColumn
         (lacking (deref st l) (required_columns (input_schema bc))))).
Proof.
  unfold PipelineEngine._validate_schema. rewrite bind_run. unfold read.
  cbv iota beta. rewrite bind_run, for_each_record_run.
  rewrite bind_run.
  change (for_each (optional_columns (input_schema bc)) _)
    with (for_each (optional_columns (input_schema bc))
            (λ col, if negb (has_column (deref st l) col)
                    then add_error (MsgOptionalColumnNotFound col) None None None WARNING
                    else ret tt)).
  rewrite for_each_record_run. reflexivity.
Qed.

(** X15. If the table lacks a required column, [process] returns at the
    schema check: no table, [success = false], zero output rows, no step
    result, nothing quarantined; the errors are one CRITICAL entry per
    missing required column and the warnings one entry per missing
    optional column, in the declared order; the input is not even
    copied. *)
Theorem X15_missing_required_column_aborts gc df bc :
  lacking df (required_columns (input_schema bc)) ≠ [] →
  ∃ st' res,
    PipelineEngine.process gc df bc = (st', Ok (AtSchema, None, res)) ∧
    heap st' = [df] ∧
    success res = false ∧ input_rows res = len df ∧ output_rows res = 0 ∧
    step_results res = [] ∧ quarantined_rows res = [] ∧
    errors res =
      map (λ col, run_entry 0 (MsgMissingRequiredColumn col) CRITICAL)
        (lacking df (required_columns (input_schema bc))) ∧
    warnings res =
      map (λ col, run_entry 0 (MsgOptionalColumnNotFound col) WARNING)
        (lacking df (optional_columns (input_schema bc))).
Proof.
  intros Hne. unfold PipelineEngine.process, PipelineEngine.process_ref.
  set (st := {| heap := [df]; ctx := new_context gc bc |}).
  rewrite bind_run. unfold read at 1. cbv iota beta.
  rewrite bind_run, validate_schema_run.
  change (deref st 0%nat) with df.
  destruct (lacking df (required_columns (input_schema bc))) as [| col cols] eqn:El;
    [congruence |].
  cbn [map]. rewrite bind_run. unfold get_ctx, ret. cbv iota beta.
  eexists _, _. split; [reflexivity |]. cbn [heap ctx].
  split; [reflexivity |].
  set (c1 := record_all MsgMissingRequiredColumn CRITICAL (col :: cols) (ctx st)).
  destruct (record_all_fields MsgOptionalColumnNotFound WARNING
              (lacking df (optional_columns (input_schema bc))) c1)
    as (_ & _ & Hr2 & Hs2 & Hq2 & He2 & Hw2).
  destruct (record_all_fields MsgMissingRequiredColumn CRITICAL (col :: cols) (ctx st))
    as (_ & _ & Hr1 & Hs1 & Hq1 & He1 & Hw1).
  fold c1 in Hr1, Hs1, Hq1, He1, Hw1.
  unfold get_result. cbn [success input_rows output_rows step_results
                            quarantined_rows errors warnings andb].
  split; [reflexivity |]. split; [reflexivity |]. split; [reflexivity |].
  split; [rewrite Hs2, Hs1; reflexivity |].
  split; [rewrite Hq2, Hq1; reflexivity |].
  split.
  - rewrite He2, He1. cbn [goes_to_errors]. rewrite app_nil_r. reflexivity.
  - rewrite Hw2, Hw1, Hr1. cbn [goes_to_errors]. rewrite app_nil_r. reflexivity.
Qed.

(** X16. If the table has every required column, [process] is the loop
    over the steps run on a copy of the table, from a context that holds
    one WARNING per missing optional column and nothing else. *)
Theorem X16_valid_schema_runs_steps_on_copy gc df bc :
  lacking df (required_columns (input_schema bc)) = [] →
  PipelineEngine.process gc df bc =
  PipelineEngine.run_steps (len df) bc (pipeline bc) 1%nat
    {| heap := [df; df];
       ctx := record_all MsgOptionalColumnNotFound WARNING
                (lacking df (optional_columns (input_schema bc)))
                (new_context gc bc) |}.
Proof.
  intros Hnone. unfold PipelineEngine.process, PipelineEngine.process_ref.
  set (st := {| heap := [df]; ctx := new_context gc bc |}).
  rewrite bind_run. unfold read at 1. cbv iota beta.
  rewrite bind_run, validate_schema_run.
  change (deref st 0%nat) with df. rewrite Hnone.
  cbn [map]. rewrite bind_run. unfold read. cbv iota beta.
  rewrite bind_run, alloc_run. reflexivity.
Qed.

Lemma step_executors_none name :
  PipelineEngine._step_executors name = None ↔ name ∉ step_names.
Proof.
  unfold PipelineEngine._step_executors, step_names.
  destruct (String.eqb name "filter") eqn:E1;
    [apply String.eqb_eq in E1; subst; split; [discriminate | intros Hn; exfalso; apply Hn; repeat constructor] |].
  destruct (String.eqb name "aggregate") eqn:E2;
    [apply String.eqb_eq in E2; subst; split; [discriminate | intros Hn; exfalso; apply Hn; repeat constructor] |].
  destruct (String.eqb name "transform") eqn:E3;
    [apply String.eqb_eq in E3; subst; split; [discriminate | intros Hn; exfalso; apply Hn; repeat constructor] |].
  destruct (String.eqb name "validate") eqn:E4;
    [apply String.eqb_eq in E4; subst; split; [discriminate | intros Hn; exfalso; apply Hn; repeat constructor] |].
  apply String.eqb_neq in E1, E2, E3, E4.
  split; [| reflexivity]. intros _ Hin.
  repeat (apply elem_of_cons in Hin as [Hin | Hin]; [congruence |]).
  inversion Hin.
Qed.

(** X17. A step whose name is not registered aborts the run: the loop
    returns no table and [success = false], the store and the step results
    are as they were, one CRITICAL entry is appended to the errors, and
    the steps after it are not run. *)
Theorem X17_unknown_step_aborts input_rows bc s rest cur st :
  step s ∉ step_names →
  ∃ st' res,
    PipelineEngine.run_steps input_rows bc (s :: rest) cur st
      = (st', Ok (AtUnknownStep (step s), None, res)) ∧
    heap st' = heap st ∧
    success res = false ∧ output_rows res = 0 ∧
    step_results res = _step_results (ctx st) ∧
    errors res =
      (_errors (ctx st) ++
       [run_entry (current_row (ctx st)) (MsgUnknownStep (step s)) CRITICAL])%list ∧
    warnings res = _warnings (ctx st).
Proof.
  intros Hn. apply step_executors_none in Hn.
  cbn [PipelineEngine.run_steps]. rewrite bind_run. cbn [set_current_step modify_ctx].
  rewrite Hn. rewrite bind_run, add_error_run. rewrite bind_run.
  unfold get_ctx, ret. cbv iota beta.
  eexists _, _. split; [reflexivity |]. cbn [heap ctx].
  repeat (split; [reflexivity |]). reflexivity.
Qed.

(** X18. A step whose executor raises aborts the run: the loop returns no
    table, [success = false] and zero output rows; what the step recorded
    before raising stays in the ledger, followed by one CRITICAL entry that
    carries the exception; no step result is recorded for the step. *)
Theorem X18_failing_step_aborts input_rows bc s rest cur st executor st1 e :
  PipelineEngine._step_executors (step s) = Some executor →
  executor cur (config s) (set_current_step (step s) st).1 = (st1, Raise e) →
  ∃ st' res,
    PipelineEngine.run_steps input_rows bc (s :: rest) cur st
      = (st', Ok (AtStepFailed (step s), None, res)) ∧
    heap st' = heap st1 ∧
    success res = false ∧ output_rows res = 0 ∧
    step_results res = _step_results (ctx st1) ∧
    errors res =
      (_errors (ctx st1) ++
       [run_entry (current_row (ctx st1)) (MsgStepFailed (step s) e) CRITICAL])%list ∧
    warnings res = _warnings (ctx st1).
Proof.
  intros Hx He.
  cbn [PipelineEngine.run_steps]. rewrite bind_run.
  destruct (set_current_step (step s) st) as [st0 [[] | e0]] eqn:E0;
    [| discriminate E0].
  cbn [fst] in He. rewrite Hx. rewrite bind_run. unfold try_except.
  rewrite bind_run, He. rewrite bind_run, add_error_run. cbn [ret].
  rewrite bind_run. unfold get_ctx, ret. cbv iota beta.
  eexists _, _. split; [reflexivity |]. cbn [heap ctx].
  repeat (split; [reflexivity |]). reflexivity.
Qed.

(** X19. A registered step that carries the configuration of another
    class of step fails on its first attribute access: the run aborts with
    one CRITICAL entry for an [AttributeError], and store and step results
    are as before the step. *)
Theorem X19_config_of_another_class_aborts input_rows bc s rest cur st :
  step s ∈ step_names → config_class (config s) ≠ step s →
  ∃ st' res,
    PipelineEngine.run_steps input_rows bc (s :: rest) cur st
      = (st', Ok (AtStepFailed (step s), None, res)) ∧
    heap st' = heap st ∧
    success res = false ∧
    step_results res = _step_results (ctx st) ∧
    errors res =
      (_errors (ctx st) ++
       [run_entry (current_row (ctx st))
          (MsgStepFailed (step s) AttributeError) CRITICAL])%list.
Proof.
  intros Hin Hne.
  assert (Hx : ∃ executor,
             PipelineEngine._step_executors (step s) = Some executor ∧
             ∀ st0, executor cur (config s) st0 = (st0, Raise AttributeError)).
  { unfold step_names in Hin. unfold PipelineEngine._step_executors.
    repeat (apply elem_of_cons in Hin as [Hin | Hin];
            [rewrite Hin in *; cbn [String.eqb Ascii.eqb Bool.eqb];
             eexists; split; [reflexivity |];
             intros st0; destruct (config s); try reflexivity;
             exfalso; apply Hne; reflexivity |]).
    inversion Hin. }
  destruct Hx as (executor & Hx & Hraise).
  cbn [PipelineEngine.run_steps]. rewrite bind_run.
  cbn [set_current_step modify_ctx]. rewrite Hx.
  rewrite bind_run. unfold try_except. rewrite bind_run, Hraise.
  rewrite bind_run, add_error_run. cbn [ret].
  rewrite bind_run. unfold get_ctx, ret. cbv iota beta.
  eexists _, _. split; [reflexivity |]. cbn [heap ctx].
  repeat (split; [reflexivity |]). reflexivity.
Qed.

(** X20. Whatever way [process] returns: [success = true] implies that
    the errors of the result are empty and that the run completed or
    stopped on an empty table; a table is returned exactly when the run
    completed; without a table the output row count is zero; and the input
    row count is that of the caller's table. *)
Theorem X20_success_means_no_error gc df bc st' site out res :
  PipelineEngine.process gc df bc = (st', Ok (site, out, res)) →
  (success res = true → errors res = [] ∧ site_success site = true) ∧
  (is_Some out ↔ site = AtEnd) ∧
  (out = None → output_rows res = 0) ∧
  input_rows res = len df.
Proof.
  intros E. destruct (process_spec gc df bc) as (st2 & site2 & out2 & res2 & E2 & Hf).
  rewrite E in E2. inversion E2; subst st2 site2 out2 res2; clear E2.
  destruct site as [| name | name | name |].
  - destruct Hf as [-> ->]. split; [| split; [| split]].
    + intros Hs. apply success_get_result in Hs as [Hs _]. discriminate.
    + split; [intros [? Hx]; discriminate | discriminate].
    + reflexivity.
    + reflexivity.
  - destruct Hf as (-> & -> & _). split; [| split; [| split]].
    + intros Hs. apply success_get_result in Hs as [Hs _]. discriminate.
    + split; [intros [? Hx]; discriminate | discriminate].
    + reflexivity.
    + reflexivity.
  - destruct Hf as (-> & -> & _). split; [| split; [| split]].
    + intros Hs. apply success_get_result in Hs as [Hs _]. discriminate.
    + split; [intros [? Hx]; discriminate | discriminate].
    + reflexivity.
    + reflexivity.
  - destruct Hf as (-> & -> & _). split; [| split; [| split]].
    + intros Hs. apply success_get_result in Hs as [_ Hs]. split; [exact Hs | reflexivity].
    + split; [intros [? Hx]; discriminate | discriminate].
    + reflexivity.
    + reflexivity.
  - destruct Hf as (cur & st0 & Hcur & Efinal).
    destruct (run_steps_nil_spec (len df) bc cur st0 Hcur) as (st3 & E3 & _).
    rewrite Efinal in E3. inversion E3; subst; clear E3.
    split; [| split; [| split]].
    + intros Hs. apply success_get_result in Hs as [_ Hs]. split; [exact Hs | reflexivity].
    + split; [reflexivity | eauto].
    + discriminate.
    + reflexivity.
Qed.

(** X21. The table [process] returns is never the caller's table: it is
    the object allocated last, the caller's table is still at reference 0
    as it was, and [output_rows] is the row count of the returned
    table. *)
Theorem X21_output_is_a_new_table gc df bc st' site l res :
  PipelineEngine.process gc df bc = (st', Ok (site, Some l, res)) →
  l ≠ 0%nat ∧ S l = List.length (heap st') ∧
  heap st' !! 0%nat = Some df ∧
  output_rows res = len (deref st' l).
Proof.
  intros E. destruct (process_spec gc df bc) as (st2 & site2 & out2 & res2 & E2 & Hf).
  rewrite E in E2. inversion E2; subst st2 site2 out2 res2; clear E2.
  assert (Hfirst : heap st' !! 0%nat = Some df).
  { unfold PipelineEngine.process in E.
    apply process_ref_frame with (j := 0%nat) in E; [| simpl; lia]. exact E. }
  destruct site as [| name | name | name |];
    try (destruct Hf as (Hx & _); discriminate Hx).
  destruct Hf as (cur & st0 & Hcur & Efinal).
  cbn [PipelineEngine.run_steps] in Efinal.
  destruct (order_output_columns_spec cur bc st0 Hcur) as (st3 & E3 & Hlen & _).
  rewrite (bind_ok _ _ _ _ _ E3) in Efinal.
  rewrite bind_run in Efinal. unfold read in Efinal. cbv iota beta in Efinal.
  rewrite bind_run in Efinal. unfold get_ctx, ret in Efinal. cbv iota beta in Efinal.
  inversion Efinal; subst; clear Efinal.
  split; [lia |]. split; [lia |]. split; [exact Hfirst | reflexivity].
Qed.
End EngineExtras.

(** A table without the required column [status]. *)
Lemma X15_witness :
  let bc := Sample.brand [] [] in
  ∃ st' res,
    PipelineEngine.process (H := SampleLib.lib) (H0 := SampleLib.strategies)
      Sample.globals names_only bc = (st', Ok (AtSchema, None, res)) ∧
    heap st' = [names_only] ∧
    success res = false ∧ input_rows res = len names_only ∧ output_rows res = 0 ∧
    step_results res = [] ∧ quarantined_rows res = [] ∧
    errors res =
      map (λ col, run_entry 0 (MsgMissingRequiredColumn col) CRITICAL)
        (lacking names_only (required_columns (input_schema bc))) ∧
    warnings res =
      map (λ col, run_entry 0 (MsgOptionalColumnNotFound col) WARNING)
        (lacking names_only (optional_columns (input_schema bc))).
Proof.
  intros bc.
  apply (X15_missing_required_column_aborts (H := SampleLib.lib)
           (H0 := SampleLib.strategies) Sample.globals names_only bc).
  vm_compute. discriminate.
Defined.

(** The sample orders have the required column. *)
Lemma X16_witness :
  let bc := Sample.brand [Sample.status_is "fulfilled"] ["status"] in
  PipelineEngine.process (H := SampleLib.lib) (H0 := SampleLib.strategies)
    Sample.globals Sample.orders bc =
  PipelineEngine.run_steps (H := SampleLib.lib) (H0 := SampleLib.strategies)
    (len Sample.orders) bc (pipeline bc) 1%nat
    {| heap := [Sample.orders; Sample.orders];
       ctx := record_all MsgOptionalColumnNotFound WARNING
                (lacking Sample.orders (optional_columns (input_schema bc)))
                (new_context Sample.globals bc) |}.
Proof.
  intros bc.
  apply (X16_valid_schema_runs_steps_on_copy (H := SampleLib.lib)
           (H0 := SampleLib.strategies) Sample.globals Sample.orders bc).
  vm_compute; reflexivity.
Defined.

(** A step named [dedupe]. *)
Lemma X17_witness :
  let bc := Sample.brand [dedupe_step; Sample.status_is "fulfilled"] ["status"] in
  let st := {| heap := [Sample.orders; Sample.orders];
               ctx := new_context Sample.globals bc |} in
  ∃ st' res,
    PipelineEngine.run_steps (H := SampleLib.lib) (H0 := SampleLib.strategies)
      3 bc (dedupe_step :: [Sample.status_is "fulfilled"]) 1%nat st
      = (st', Ok (AtUnknownStep (step dedupe_step), None, res)) ∧
    heap st' = heap st ∧
    success res = false ∧ output_rows res = 0 ∧
    step_results res = _step_results (ctx st) ∧
    errors res =
      (_errors (ctx st) ++
       [run_entry (current_row (ctx st)) (MsgUnknownStep (step dedupe_step)) CRITICAL])%list ∧
    warnings res = _warnings (ctx st).
Proof.
  intros bc st.
  apply (X17_unknown_step_aborts (H := SampleLib.lib) (H0 := SampleLib.strategies)
           3 bc dedupe_step [Sample.status_is "fulfilled"] 1%nat st).
  vm_compute. intros Hin.
  repeat (apply elem_of_cons in Hin as [Hin | Hin]; [discriminate |]).
  inversion Hin.
Defined.

(** A comparison of the amounts with a text that is not a number. *)
Lemma X18_witness :
  let s := amount_above "a lot" in
  let bc := Sample.brand [s] ["status"] in
  let st := {| heap := [Sample.orders; Sample.orders];
               ctx := new_context Sample.globals bc |} in
  ∃ executor st1 e,
    PipelineEngine._step_executors (H := SampleLib.lib) (H0 := SampleLib.strategies)
      (step s) = Some executor ∧
    executor 1%nat (config s) (set_current_step (step s) st).1 = (st1, Raise e) ∧
    ∃ st' res,
      PipelineEngine.run_steps (H := SampleLib.lib) (H0 := SampleLib.strategies)
        3 bc (s :: []) 1%nat st
        = (st', Ok (AtStepFailed (step s), None, res)) ∧
      heap st' = heap st1 ∧
      success res = false ∧ output_rows res = 0 ∧
      step_results res = _step_results (ctx st1) ∧
      errors res =
        (_errors (ctx st1) ++
         [run_entry (current_row (ctx st1)) (MsgStepFailed (step s) e) CRITICAL])%list ∧
      warnings res = _warnings (ctx st1).
Proof.
  intros s bc st. eexists _, _, _.
  split; [reflexivity |]. split; [vm_compute; reflexivity |].
  eapply (X18_failing_step_aborts (H := SampleLib.lib) (H0 := SampleLib.strategies)
            3 bc s [] 1%nat st).
  - reflexivity.
  - vm_compute; reflexivity.
Defined.

(** A filter step with the configuration of a validate step. *)
Lemma X19_witness :
  let bc := Sample.brand [misplaced_config] ["status"] in
  let st := {| heap := [Sample.orders; Sample.orders];
               ctx := new_context Sample.globals bc |} in
  ∃ st' res,
    PipelineEngine.run_steps (H := SampleLib.lib) (H0 := SampleLib.strategies)
      3 bc (misplaced_config :: []) 1%nat st
      = (st', Ok (AtStepFailed (step misplaced_config), None, res)) ∧
    heap st' = heap st ∧
    success res = false ∧
    step_results res = _step_results (ctx st) ∧
    errors res =
      (_errors (ctx st) ++
       [run_entry (current_row (ctx st))
          (MsgStepFailed (step misplaced_config) AttributeError) CRITICAL])%list.
Proof.
  intros bc st.
  apply (X19_config_of_another_class_aborts (H := SampleLib.lib)
           (H0 := SampleLib.strategies) 3 bc misplaced_config [] 1%nat st).
  - left.
  - discriminate.
Defined.

(** The sample orders through one filter, both output columns
    present. *)
Lemma X20_witness :
  ∃ st' site out res,
    SampleRuns.filtered_run ["name"; "status"] = (st', Ok (site, out, res)) ∧
    success res = true ∧
    ((success res = true → errors res = [] ∧ site_success site = true) ∧
     (is_Some out ↔ site = AtEnd) ∧
     (out = None → output_rows res = 0) ∧
     input_rows res = len Sample.orders).
Proof.
  eexists _, _, _, _. split; [vm_compute; reflexivity |].
  split; [reflexivity |].
  eapply (X20_success_means_no_error (H := SampleLib.lib) (H0 := SampleLib.strategies)
            Sample.globals Sample.orders
            (Sample.brand [Sample.status_is "fulfilled"] ["name"; "status"])).
  vm_compute; reflexivity.
Defined.

(** The same run: the table returned is the fourth object of the
    store. *)
Lemma X21_witness :
  ∃ st' site l res,
    SampleRuns.filtered_run ["name"; "status"] = (st', Ok (site, Some l, res)) ∧
    l = 3%nat ∧
    (l ≠ 0%nat ∧ S l = List.length (heap st') ∧
     heap st' !! 0%nat = Some Sample.orders ∧
     output_rows res = len (deref st' l)).
Proof.
  eexists _, _, _, _. split; [vm_compute; reflexivity |].
  split; [reflexivity |].
  eapply (X21_output_is_a_new_table (H := SampleLib.lib) (H0 := SampleLib.strategies)
            Sample.globals Sample.orders
            (Sample.brand [Sample.status_is "fulfilled"] ["name"; "status"])).
  vm_compute; reflexivity.
Defined.

(** ** Whole runs *)

Create HintDb ctx_step.

Section CtxStep.
Context `{PyLib} `{Strategies}.
Variable R : ProcessingContext → ProcessingContext → Prop.
Hypothesis R_refl : ∀ c, R c c.
Hypothesis R_trans : ∀ c1 c2 c3, R c1 c2 → R c2 c3 → R c1 c3.
Hypothesis R_error : ∀ msg col orig ri c, R c (add_error_ctx msg col orig ri ERROR c).
Hypothesis R_warning : ∀ msg col orig ri c, R c (add_error_ctx msg col orig ri WARNING c).
Hypothesis R_row : ∀ n, ctx_step R (set_current_row n).
Hypothesis R_cache : ∀ ref obj, ctx_step R (set_ref_cache ref obj).
Hypothesis R_strategy : ∀ t row m ri c c' r,
  strategy_transform t row m ri c = (c', r) → R c c'.

Lemma ctx_step_ret {A} (a : A) : ctx_step R (ret a).
Proof. intros st st' r E. inversion E; subst. apply R_refl. Qed.

Lemma ctx_step_raise {A} (e : Exn) : ctx_step R (@raise A e).
Proof. intros st st' r E. inversion E; subst. apply R_refl. Qed.

Lemma ctx_step_lift_res {A} (x : Res A) : ctx_step R (lift_res x).
Proof. intros st st' r E. inversion E; subst. apply R_refl. Qed.

Lemma ctx_step_get_ctx : ctx_step R get_ctx.
Proof. intros st st' r E. inversion E; subst. apply R_refl. Qed.

Lemma ctx_step_read l : ctx_step R (read l).
Proof. intros st st' r E. inversion E; subst. apply R_refl. Qed.

Lemma ctx_step_alloc df : ctx_step R (alloc df).
Proof. intros st st' r E. inversion E; subst. apply R_refl. Qed.

Lemma ctx_step_write l df : ctx_step R (write l df).
Proof. intros st st' r E. inversion E; subst. apply R_refl. Qed.

Lemma ctx_step_bind {A B} (m : M A) (k : A → M B) :
  ctx_step R m → (∀ a, ctx_step R (k a)) → ctx_step R (bind m k).
Proof.
  intros Hm Hk st st' r E. split_bind E as st1 a Em.
  - eapply R_trans; [eapply Hm | eapply Hk]; eauto.
  - inversion E; subst. eapply Hm; eauto.
Qed.

Lemma ctx_step_try_except {A} (m : M A) (h : Exn → M A) :
  ctx_step R m → (∀ e, ctx_step R (h e)) → ctx_step R (try_except m h).
Proof.
  intros Hm Hh st st' r E. unfold try_except in E.
  destruct (m st) as [st1 [a | e]] eqn:Em.
  - inversion E; subst. eapply Hm; eauto.
  - eapply R_trans; [eapply Hm | eapply Hh]; eauto.
Qed.

Lemma ctx_step_for_each {A} (xs : list A) (body : A → M unit) :
  (∀ x, ctx_step R (body x)) → ctx_step R (for_each xs body).
Proof.
  intros Hb. induction xs as [| x xs IH]; simpl.
  - apply ctx_step_ret.
  - apply ctx_step_bind; auto.
Qed.

Lemma ctx_step_add_error msg col orig ri :
  ctx_step R (add_error msg col orig ri ERROR).
Proof. intros st st' r E. rewrite add_error_run in E. inversion E; subst. apply R_error. Qed.

Lemma ctx_step_add_warning msg col orig ri :
  ctx_step R (add_warning msg col orig ri).
Proof. intros st st' r E. rewrite add_warning_run in E. inversion E; subst. apply R_warning. Qed.

Lemma ctx_step_on_ctx t row m ri :
  ctx_step R (on_ctx (strategy_transform t row m ri)).
Proof.
  intros st st' r E. unfold on_ctx in E.
  destruct (strategy_transform t row m ri (ctx st)) as [c' r'] eqn:Es.
  inversion E; subst. eapply R_strategy; eauto.
Qed.

Local Hint Resolve ctx_step_ret ctx_step_raise ctx_step_lift_res ctx_step_get_ctx
  ctx_step_read ctx_step_alloc ctx_step_write ctx_step_add_error
  ctx_step_add_warning ctx_step_on_ctx R_row R_cache : ctx_step.

Local Ltac ctx_step_tac :=
  repeat first
    [ progress eauto with ctx_step
    | apply ctx_step_bind; [| intros ?]
    | apply ctx_step_try_except; [| intros ?]
    | apply ctx_step_for_each; intros ?
    | match goal with
      | |- ctx_step _ (if ?b then _ else _) => destruct b
      | |- ctx_step _ (match ?x with _ => _ end) => destruct x
      end ].

Lemma ctx_step_resolve_ref value : ctx_step R (resolve_ref value).
Proof.
  assert (Hrr : ∀ ref, ctx_step R (resolve_reference ref)).
  { intros ref. unfold resolve_reference.
    apply ctx_step_bind; [apply ctx_step_get_ctx |]. intros c.
    destruct (_ref_cache c !! ref); [apply ctx_step_ret |].
    destruct (negb _); [apply ctx_step_ret |].
    destruct (split _ _) as [| part0 parts]; [apply ctx_step_raise |].
    destruct (String.eqb part0 "global"); [| apply ctx_step_raise].
    destruct (resolve_path _ _); [| apply ctx_step_raise].
    apply ctx_step_bind; [apply R_cache |].
    intros _. apply ctx_step_ret. }
  unfold resolve_ref.
  destruct value as [[| | | | s] | | |]; try apply ctx_step_ret.
  destruct (starts_with "$ref:" s); [apply Hrr | apply ctx_step_ret].
Qed.

Lemma ctx_step_filter l config : ctx_step R (FilterStep.execute l config).
Proof.
  assert (Hc : ∀ conds, ctx_step R (FilterStep.collect_masks l conds)).
  { induction conds as [| c conds IH]; simpl; [apply ctx_step_ret |].
    apply ctx_step_bind.
    - unfold FilterStep._evaluate_condition.
      apply ctx_step_bind; [apply ctx_step_read |]. intros df.
      destruct (negb _).
      + destruct (fc_skip_if_column_missing c); ctx_step_tac.
      + apply ctx_step_bind; [apply ctx_step_resolve_ref |]. intros v.
        destruct (_ && _); apply ctx_step_lift_res.
    - intros mask. apply ctx_step_bind; [apply IH |]. intros masks.
      apply ctx_step_ret. }
  unfold FilterStep.execute.
  destruct (conditions config) as [| c cs]; [apply ctx_step_ret |].
  apply ctx_step_bind; [apply Hc |]. intros masks.
  destruct masks; ctx_step_tac.
Qed.

Lemma ctx_step_aggregate l config : ctx_step R (AggregateStep.execute l config).
Proof.
  assert (Hb : ∀ rules spec, ctx_step R (AggregateStep.build_agg_spec l rules spec)).
  { induction rules as [| [output_name rule] rules IH]; intros spec; simpl;
      [apply ctx_step_ret |].
    apply ctx_step_bind; [apply ctx_step_read |]. intros df.
    destruct (negb _).
    - apply ctx_step_bind; [apply ctx_step_add_warning |]. intros _. apply IH.
    - apply ctx_step_bind; [destruct (ar_coerce_numeric rule); ctx_step_tac |].
      intros _. destruct (AggregateStep._get_agg_function rule); apply IH. }
  unfold AggregateStep.execute.
  apply ctx_step_bind; [apply ctx_step_read |]. intros df.
  destruct (negb _); [ctx_step_tac |].
  apply ctx_step_bind; [apply Hb |]. intros spec.
  destruct spec; [ctx_step_tac |].
  apply ctx_step_bind; [apply ctx_step_read |]. intros df'.
  destruct (groupby_agg _ _ _); ctx_step_tac.
Qed.

Lemma ctx_step_get_transformer t row mapping ri :
  ctx_step R (TransformerFactory.get_transformer t row mapping ri).
Proof.
  destruct t; simpl; try apply ctx_step_on_ctx.
  - apply ctx_step_ret.
  - unfold DirectTransformer.transform. ctx_step_tac.
  - unfold FormulaTransformer.transform. ctx_step_tac.
Qed.

Lemma ctx_step_transform l config : ctx_step R (TransformStep.execute l config).
Proof.
  assert (Hf : ∀ f m row, ctx_step R (TransformStep.transform_field f m row)).
  { intros f m row. unfold TransformStep.transform_field.
    apply ctx_step_try_except.
    - apply ctx_step_bind; [apply ctx_step_get_ctx |]. intros c.
      apply ctx_step_get_transformer.
    - intros e. ctx_step_tac. }
  assert (Hfs : ∀ ms ext res, ctx_step R (TransformStep.transform_fields ms ext res)).
  { induction ms as [| [f m] ms IH]; intros ext res; simpl; [apply ctx_step_ret |].
    apply ctx_step_bind; [apply Hf |]. intros v. apply IH. }
  assert (Hrs : ∀ ms rs, ctx_step R (TransformStep.transform_rows ms rs)).
  { intros ms. induction rs as [| [idx row] rs IH]; simpl; [apply ctx_step_ret |].
    apply ctx_step_bind; [apply R_row |]. intros _.
    apply ctx_step_bind; [apply Hfs |]. intros done.
    apply ctx_step_bind; [apply IH |]. intros out. apply ctx_step_ret. }
  unfold TransformStep.execute.
  destruct (mappings config); [apply ctx_step_ret |].
  apply ctx_step_bind; [apply ctx_step_read |]. intros df.
  apply ctx_step_bind; [apply Hrs |]. intros out. apply ctx_step_alloc.
Qed.

Lemma ctx_step_validate l config :
  (∀ ri reason, ctx_step R (quarantine_row ri reason)) →
  ctx_step R (ValidateStep.execute l config).
Proof.
  intros Hq.
  assert (Hr : ∀ fields row ri v, ctx_step R (ValidateStep.check_required fields row ri v)).
  { induction fields as [| f fields IH]; intros row ri v; simpl; [apply ctx_step_ret |].
    destruct (row !! f) as [cell |].
    - apply ctx_step_bind; [destruct (ValidateStep._is_empty cell); ctx_step_tac |].
      intros _. apply IH.
    - apply ctx_step_bind; [apply ctx_step_add_error |]. intros _. apply IH. }
  assert (Ht : ∀ types row ri, ctx_step R (ValidateStep.check_types types row ri)).
  { induction types as [| [f t] types IH]; intros row ri; simpl; [apply ctx_step_ret |].
    destruct (row !! f) as [cell |]; [| apply IH].
    apply ctx_step_bind; [apply ctx_step_lift_res |]. intros ok.
    apply ctx_step_bind; [destruct (negb ok); ctx_step_tac |].
    intros _. apply IH. }
  assert (Hv : ∀ req q types rs, ctx_step R (ValidateStep.validate_rows req q types rs)).
  { intros req q types. induction rs as [| [idx row] rs IH]; simpl;
      [apply ctx_step_ret |].
    apply ctx_step_bind; [apply Hr |]. intros v.
    apply ctx_step_bind; [apply Ht |]. intros _.
    apply ctx_step_bind; [destruct (v || negb q); [apply ctx_step_ret | apply Hq] |].
    intros _. apply ctx_step_bind; [apply IH |]. intros keep. apply ctx_step_ret. }
  unfold ValidateStep.execute.
  apply ctx_step_bind; [apply ctx_step_read |]. intros df.
  apply ctx_step_bind; [apply Hv |]. intros keep. apply ctx_step_alloc.
Qed.

(** Every registered executor, the validate step provided it may
    quarantine. *)
Lemma ctx_step_executor name executor l cfg :
  (name = "validate" → ∀ ri reason, ctx_step R (quarantine_row ri reason)) →
  PipelineEngine._step_executors name = Some executor →
  ctx_step R (executor l cfg).
Proof.
  intros Hq. unfold PipelineEngine._step_executors.
  destruct (String.eqb name "filter").
  { intros E. inversion E; subst. destruct cfg; try apply ctx_step_raise.
    apply ctx_step_filter. }
  destruct (String.eqb name "aggregate").
  { intros E. inversion E; subst. destruct cfg; try apply ctx_step_raise.
    apply ctx_step_aggregate. }
  destruct (String.eqb name "transform").
  { intros E. inversion E; subst. destruct cfg; try apply ctx_step_raise.
    apply ctx_step_transform. }
  destruct (String.eqb name "validate") eqn:Ev; [| discriminate].
  apply String.eqb_eq in Ev.
  intros E. inversion E; subst. destruct cfg; try apply ctx_step_raise.
  apply ctx_step_validate. apply Hq. reflexivity.
Qed.

Lemma ctx_step_order_output_columns l bc :
  ctx_step R (PipelineEngine._order_output_columns l bc).
Proof.
  unfold PipelineEngine._order_output_columns.
  apply ctx_step_bind; [apply ctx_step_read |]. intros df.
  apply ctx_step_bind.
  - destruct (filter _ _); [apply ctx_step_ret |].
    apply ctx_step_bind; [apply ctx_step_add_error |]. intros _.
    apply ctx_step_for_each. intros col.
    apply ctx_step_bind; [apply ctx_step_read |]. intros df'. apply ctx_step_write.
  - intros _. apply ctx_step_bind; [apply ctx_step_read |]. intros df'.
    destruct (PipelineEngine.select_columns _ _); [apply ctx_step_alloc |].
    apply ctx_step_bind; [apply ctx_step_add_error |]. intros _. apply ctx_step_ret.
Qed.
End CtxStep.

Lemma step_effect_refl c : step_effect c c.
Proof.
  split; [reflexivity | |]; exists []; rewrite app_nil_r; split; auto.
Qed.

Lemma step_effect_trans c1 c2 c3 :
  step_effect c1 c2 → step_effect c2 c3 → step_effect c1 c3.
Proof.
  intros [Hs1 (es1 & He1 & Hf1) (ws1 & Hw1 & Hg1)]
         [Hs2 (es2 & He2 & Hf2) (ws2 & Hw2 & Hg2)].
  split; [congruence | |].
  - exists (es1 ++ es2)%list. rewrite He2, He1, app_assoc.
    split; [reflexivity | apply Forall_app; auto].
  - exists (ws1 ++ ws2)%list. rewrite Hw2, Hw1, app_assoc.
    split; [reflexivity | apply Forall_app; auto].
Qed.

Lemma step_effect_error msg col orig ri c :
  step_effect c (add_error_ctx msg col orig ri ERROR c).
Proof.
  split; [reflexivity | |].
  - eexists. split; [reflexivity |]. repeat constructor.
  - exists []. simpl. rewrite app_nil_r. split; auto.
Qed.

Lemma step_effect_warning msg col orig ri c :
  step_effect c (add_error_ctx msg col orig ri WARNING c).
Proof.
  split; [reflexivity | |].
  - exists []. simpl. rewrite app_nil_r. split; auto.
  - eexists. split; [reflexivity |]. repeat constructor.
Qed.

Lemma step_effect_row n : ctx_step step_effect (set_current_row n).
Proof. intros st st' r E. inversion E; subst. simpl. split; [reflexivity | |]; exists []; rewrite app_nil_r; split; auto. Qed.

Lemma step_effect_cache ref obj : ctx_step step_effect (set_ref_cache ref obj).
Proof. intros st st' r E. inversion E; subst. simpl. split; [reflexivity | |]; exists []; rewrite app_nil_r; split; auto. Qed.

Lemma step_effect_quarantine ri reason : ctx_step step_effect (quarantine_row ri reason).
Proof.
  intros st st' r E. inversion E; subst. simpl. split; [reflexivity | |].
  - exists []. rewrite app_nil_r. split; auto.
  - eexists. split; [reflexivity |]. repeat constructor.
Qed.

Lemma step_effect_ledger c c' : step_effect c c' → step_ledger c → step_ledger c'.
Proof.
  intros [_ (es & He & Hf) (ws & Hw & Hg)] [H1 H2]. split.
  - rewrite He. apply Forall_app; auto.
  - rewrite Hw. apply Forall_app; auto.
Qed.

Section RunInversion.
Context `{PyLib} `{Strategies}.

(** The code after the loop. *)
Lemma run_steps_nil_inv input_rows bc cur st st' site out res :
  PipelineEngine.run_steps input_rows bc [] cur st = (st', Ok (site, out, res)) →
  ∃ l,
    PipelineEngine._order_output_columns cur bc st = (st', Ok l) ∧
    site = AtEnd ∧ out = Some l ∧
    res = get_result (ctx st') input_rows (len (deref st' l)) true.
Proof.
  cbn [PipelineEngine.run_steps]. intros E.
  split_bind E as st1 l El; [| discriminate].
  rewrite bind_run in E. unfold read in E. cbv iota beta in E.
  rewrite bind_run in E. unfold get_ctx, ret in E. cbv iota beta in E.
  inversion E; subst. exists l. auto.
Qed.

(** One turn of the loop: the four ways it goes on or returns. *)
Lemma run_steps_cons_inv input_rows bc s steps cur st st' site out res :
  PipelineEngine.run_steps input_rows bc (s :: steps) cur st
    = (st', Ok (site, out, res)) →
  let st0 := (set_current_step (step s) st).1 in
  (PipelineEngine._step_executors (step s) = None ∧
   site = AtUnknownStep (step s) ∧ out = None ∧
   ctx st' = add_error_ctx (MsgUnknownStep (step s)) None None None CRITICAL (ctx st0) ∧
   res = get_result (ctx st') input_rows 0 false) ∨
  (∃ executor st1,
     PipelineEngine._step_executors (step s) = Some executor ∧
     ((∃ e,
         executor cur (config s) st0 = (st1, Raise e) ∧
         site = AtStepFailed (step s) ∧ out = None ∧
         ctx st' = add_error_ctx (MsgStepFailed (step s) e) None None None
                     CRITICAL (ctx st1) ∧
         res = get_result (ctx st') input_rows 0 false) ∨
      (∃ result_df,
         executor cur (config s) st0 = (st1, Ok result_df) ∧
         let record :=
           {| sr_step_name := step s;
              sr_input_rows := len (deref st1 cur);
              sr_output_rows := len (deref st1 result_df);
              sr_filtered_rows := len (deref st1 cur) - len (deref st1 result_df) |} in
         let st2 := {| heap := heap st1; ctx := with_step_result record (ctx st1) |} in
         (len (deref st1 result_df) = 0 ∧
          site = AtNoRows (step s) ∧ out = None ∧
          ctx st' = add_error_ctx (MsgNoOutputRows (step s)) None None None
                      WARNING (ctx st2) ∧
          res = get_result (ctx st') input_rows 0 true) ∨
         (len (deref st1 result_df) ≠ 0 ∧
          PipelineEngine.run_steps input_rows bc steps result_df st2
            = (st', Ok (site, out, res)))))).
Proof.
  intros E st0. cbn [PipelineEngine.run_steps] in E.
  rewrite bind_run in E.
  change (set_current_step (step s) st) with (st0, @Ok unit tt) in E.
  cbv iota beta in E.
  destruct (PipelineEngine._step_executors (step s)) as [executor |].
  - right. rewrite bind_run in E. unfold try_except in E. rewrite bind_run in E.
    destruct (executor cur (config s) st0) as [st1 [result_df | e]] eqn:Eexec.
    + exists executor, st1. split; [reflexivity |]. right.
      exists result_df. split; [exact Eexec |].
      unfold ret at 1 in E. cbv iota beta in E.
      rewrite bind_run in E. unfold read at 1 in E. cbv iota beta in E.
      rewrite bind_run in E. unfold read at 1 in E. cbv iota beta in E.
      rewrite bind_run in E. cbn [add_step_result modify_ctx] in E.
      destruct (len (deref st1 result_df) =? 0) eqn:Elen.
      * left. apply Z.eqb_eq in Elen.
        rewrite bind_run, add_warning_run in E. cbv iota beta in E.
        rewrite bind_run in E. unfold get_ctx, ret in E. cbv iota beta in E.
        inversion E; subst. auto.
      * right. apply Z.eqb_neq in Elen. split; [exact Elen | exact E].
    + exists executor, st1. split; [reflexivity |]. left. exists e.
      split; [exact Eexec |].
      rewrite bind_run, add_error_run in E. cbv iota beta in E.
      unfold ret at 1 in E. cbv iota beta in E.
      rewrite bind_run in E. unfold get_ctx, ret in E. cbv iota beta in E.
      inversion E; subst. auto.
  - left. rewrite bind_run, add_error_run in E. cbv iota beta in E.
    rewrite bind_run in E. unfold get_ctx, ret in E. cbv iota beta in E.
    inversion E; subst. auto.
Qed.

(** [process] is the schema check followed by the loop on a copy. *)
Lemma process_run gc df bc :
  PipelineEngine.process gc df bc =
  let c1 :=
    record_all MsgOptionalColumnNotFound WARNING
      (lacking df (optional_columns (input_schema bc)))
      (record_all MsgMissingRequiredColumn CRITICAL
         (lacking df (required_columns (input_schema bc)))
         (new_context gc bc)) in
  match lacking df (required_columns (input_schema bc)) with
  | [] =>
      PipelineEngine.run_steps (len df) bc (pipeline bc) 1%nat
        {| heap := [df; df]; ctx := c1 |}
  | _ =>
      ({| heap := [df]; ctx := c1 |},
       Ok (AtSchema, None, get_result c1 (len df) 0 false))
  end.
Proof.
  unfold PipelineEngine.process, PipelineEngine.process_ref.
  set (st := {| heap := [df]; ctx := new_context gc bc |}).
  rewrite bind_run. unfold read at 1. cbv iota beta.
  rewrite bind_run, validate_schema_run.
  change (deref st 0%nat) with df. cbv zeta.
  destruct (lacking df (required_columns (input_schema bc))) as [| col cols].
  - cbn [map]. rewrite bind_run. unfold read. cbv iota beta.
    rewrite bind_run, alloc_run. reflexivity.
  - cbn [map]. rewrite bind_run. unfold get_ctx, ret. reflexivity.
Qed.

(** The loop of [process] and the code after it, put together, are
    [run_steps]. *)
Lemma run_steps_loop input_rows bc steps cur st :
  PipelineEngine.run_steps input_rows bc steps cur st =
  match PipelineEngine.run_loop input_rows steps cur st with
  | (st0, Ok (inr cur')) => PipelineEngine.run_steps input_rows bc [] cur' st0
  | (st0, Ok (inl r)) => (st0, Ok r)
  | (st0, Raise e) => (st0, Raise e)
  end.
Proof.
  revert cur st. induction steps as [| s steps IH]; intros cur st; [reflexivity |].
  cbn [PipelineEngine.run_steps PipelineEngine.run_loop].
  rewrite !bind_run.
  destruct (set_current_step (step s) st) as [st0 [[] | e0]]; [| reflexivity].
  destruct (PipelineEngine._step_executors (step s)) as [executor |].
  - rewrite !bind_run.
    destruct (try_except _ _ st0) as [st1 [[result_df |] | e1]]; [| | reflexivity].
    + rewrite !bind_run. unfold read. cbv iota beta.
      rewrite ?bind_run. cbv iota beta.
      rewrite ?bind_run. cbn [add_step_result modify_ctx].
      destruct (len (deref st1 result_df) =? 0).
      * rewrite !bind_run, !add_warning_run. cbv iota beta.
        rewrite ?bind_run. unfold get_ctx, ret. reflexivity.
      * apply IH.
    + rewrite ?bind_run. unfold get_ctx, ret. reflexivity.
  - rewrite !bind_run, !add_error_run. cbv iota beta.
    rewrite ?bind_run. unfold get_ctx, ret. reflexivity.
Qed.

(** Where the loop ends: a return of the loop is not the return at the
    end of [process], and the table it hands to the code after it is in the
    store. *)
Lemma run_loop_end input_rows steps cur st st0 x :
  (cur < List.length (heap st))%nat →
  PipelineEngine.run_loop input_rows steps cur st = (st0, Ok x) →
  match x with
  | inl (site, _, _) => site ≠ AtEnd
  | inr cur' => (cur' < List.length (heap st0))%nat
  end.
Proof.
  revert cur st. induction steps as [| s steps IH]; intros cur st Hcur E.
  - inversion E; subst. exact Hcur.
  - cbn [PipelineEngine.run_loop] in E. rewrite bind_run in E.
    cbn [set_current_step modify_ctx] in E.
    destruct (PipelineEngine._step_executors (step s)) as [executor |].
    + rewrite bind_run in E. unfold try_except in E. rewrite bind_run in E.
      match type of E with
      | context [executor cur (config s) ?s0] =>
          destruct (executor cur (config s) s0) as [st1 [result_df | e]]
      end.
      * unfold ret at 1 in E. cbv iota beta in E.
        rewrite bind_run in E. unfold read at 1 in E. cbv iota beta in E.
        rewrite bind_run in E. unfold read at 1 in E. cbv iota beta in E.
        rewrite bind_run in E. cbn [add_step_result modify_ctx] in E.
        destruct (len (deref st1 result_df) =? 0) eqn:Elen.
        -- rewrite bind_run, add_warning_run in E. cbv iota beta in E.
           rewrite bind_run in E. unfold get_ctx, ret in E. cbv iota beta in E.
           inversion E; subst. discriminate.
        -- apply Z.eqb_neq in Elen. eapply IH; [| exact E].
           cbn [heap]. apply deref_nonempty_valid. exact Elen.
      * rewrite bind_run, add_error_run in E. cbv iota beta in E.
        unfold ret at 1 in E. cbv iota beta in E.
        rewrite bind_run in E. unfold get_ctx, ret in E. cbv iota beta in E.
        inversion E; subst. discriminate.
    + rewrite bind_run, add_error_run in E. cbv iota beta in E.
      rewrite bind_run in E. unfold get_ctx, ret in E. cbv iota beta in E.
      inversion E; subst. discriminate.
Qed.

(** C6. When a run executes all its steps to completion, the loop over
    the steps has ended without a return, in a state [st0] and with a table
    [cur] in hand, the table of the final step; both are what the loop
    computes from the copy of the caller's table.  The code after the loop
    then returns a new table whose columns are the declared output columns
    in the declared order and whose rows are the rows of [cur], label by
    label: under a declared column each holds the cell of [cur], or a null
    when [cur] has no such column.  [output_rows] counts its rows.  When
    some declared column was absent from [cur], one entry of severity ERROR
    naming the absent columns is added to the [_errors] that the loop left,
    and nothing else is recorded. *)
Theorem C6_output_columns_ordered gc df bc st' out res :
  PipelineEngine.process gc df bc = (st', Ok (AtEnd, out, res)) →
  ∃ cur st0 l,
    PipelineEngine.run_loop (len df) (pipeline bc) 1%nat (run_start gc df bc)
      = (st0, Ok (inr cur)) ∧
    (cur < List.length (heap st0))%nat ∧
    PipelineEngine.run_steps (len df) bc [] cur st0 = (st', Ok (AtEnd, out, res)) ∧
    out = Some l ∧
    l = List.length (heap st0) ∧
    columns (deref st' l) = output_columns bc ∧
    ordered bc (deref st0 cur) (deref st' l) ∧
    output_rows res = len (deref st' l) ∧
    _errors (ctx st') =
      (_errors (ctx st0) ++ missing_columns_entries bc (deref st0 cur) (ctx st0))%list ∧
    _warnings (ctx st') = _warnings (ctx st0).
Proof.
  intros E. rewrite process_run in E. cbv zeta in E.
  destruct (lacking df (required_columns (input_schema bc))) as [| col cols];
    [| inversion E].
  change (record_all MsgMissingRequiredColumn CRITICAL [] (new_context gc bc))
    with (new_context gc bc) in E.
  fold (run_start gc df bc) in E. rewrite run_steps_loop in E.
  destruct (PipelineEngine.run_loop (len df) (pipeline bc) 1%nat (run_start gc df bc))
    as [st0 [[[[site o] r] | cur] | e]] eqn:Eloop.
  - pose proof (run_loop_end _ _ 1%nat (run_start gc df bc) _ _
                  ltac:(unfold run_start; simpl; lia) Eloop)
      as Hsite.
    inversion E; subst. congruence.
  - pose proof (run_loop_end _ _ 1%nat (run_start gc df bc) _ _
                  ltac:(unfold run_start; simpl; lia) Eloop)
      as Hcur.
    destruct (run_steps_nil_spec (len df) bc cur st0 Hcur)
      as (st3 & E3 & Hord & He & Hw).
    pose proof E as Efinal.
    rewrite E3 in E. inversion E; subst st3 out res; clear E.
    exists cur, st0, (List.length (heap st0)).
    split; [reflexivity |]. split; [exact Hcur |]. split; [exact Efinal |].
    split; [reflexivity |]. split; [reflexivity |].
    split; [apply Hord |]. split; [exact Hord |]. split; [reflexivity |].
    split; assumption.
  - discriminate E.
Qed.
End RunInversion.

(** The declared columns [status] and [Brand], the second absent from the
    filtered table: it is filled with nulls and the ERROR is recorded after
    the loop. *)
Lemma C6_output_columns_witness :
  let bc := Sample.brand [Sample.status_is "fulfilled"] ["status"; "Brand"] in
  ∃ st' out res,
    SampleRuns.filtered_run ["status"; "Brand"] = (st', Ok (AtEnd, out, res)) ∧
    deref st' 3%nat =
      {| columns := ["status"; "Brand"];
         rows := [Sample.row_of 0 [("status", VStr "fulfilled"); ("Brand", VNone)];
                  Sample.row_of 2 [("status", VStr "fulfilled"); ("Brand", VNone)]] |} ∧
    ∃ cur st0 l,
      PipelineEngine.run_loop (H := SampleLib.lib) (H0 := SampleLib.strategies)
        (len Sample.orders) (pipeline bc) 1%nat
        (run_start Sample.globals Sample.orders bc) = (st0, Ok (inr cur)) ∧
      (cur < List.length (heap st0))%nat ∧
      PipelineEngine.run_steps (H := SampleLib.lib) (H0 := SampleLib.strategies)
        (len Sample.orders) bc [] cur st0 = (st', Ok (AtEnd, out, res)) ∧
      out = Some l ∧
      l = List.length (heap st0) ∧
      columns (deref st' l) = output_columns bc ∧
      ordered bc (deref st0 cur) (deref st' l) ∧
      output_rows res = len (deref st' l) ∧
      _errors (ctx st') =
        (_errors (ctx st0) ++
         missing_columns_entries bc (deref st0 cur) (ctx st0))%list ∧
      _warnings (ctx st') = _warnings (ctx st0).
Proof.
  intros bc. eexists _, _, _. split; [vm_compute; reflexivity |].
  split; [vm_compute; reflexivity |].
  apply (C6_output_columns_ordered (H := SampleLib.lib)
           (H0 := SampleLib.strategies) Sample.globals Sample.orders bc).
  vm_compute; reflexivity.
Defined.

Lemma same_quarantine_row n : ctx_step same_quarantine (set_current_row n).
Proof. intros st st' r E. inversion E; subst. reflexivity. Qed.

Lemma same_quarantine_cache ref obj : ctx_step same_quarantine (set_ref_cache ref obj).
Proof. intros st st' r E. inversion E; subst. reflexivity. Qed.

Lemma grown_store_keeps_rows st st1 l :
  (l < List.length (heap st))%nat →
  heap st1 = heap st ∨ (∃ x, heap st1 = (heap st ++ [x])%list) →
  len (deref st1 l) = len (deref st l).
Proof.
  intros Hl [Hh | [x Hh]]; unfold deref; rewrite Hh; [reflexivity |].
  rewrite lookup_app_l by exact Hl. reflexivity.
Qed.

Section WholeRun.
Context `{PyLib} `{Strategies} `{!LedgerStrategies}.

Lemma executor_step_effect name executor l cfg :
  PipelineEngine._step_executors name = Some executor →
  ctx_step step_effect (executor l cfg).
Proof.
  apply (ctx_step_executor step_effect step_effect_refl step_effect_trans
           step_effect_error step_effect_warning step_effect_row
           step_effect_cache strategy_step_effect).
  intros _. apply step_effect_quarantine.
Qed.

Lemma order_step_effect l bc :
  ctx_step step_effect (PipelineEngine._order_output_columns l bc).
Proof.
  apply (ctx_step_order_output_columns step_effect step_effect_refl
           step_effect_trans step_effect_error).
Qed.

Lemma executor_same_quarantine name executor l cfg :
  name ≠ "validate" →
  PipelineEngine._step_executors name = Some executor →
  ctx_step same_quarantine (executor l cfg).
Proof.
  intros Hn.
  apply (ctx_step_executor same_quarantine).
  - intros c. reflexivity.
  - intros c1 c2 c3 H12 H23. unfold same_quarantine in *. congruence.
  - intros. apply add_error_ctx_quarantined.
  - intros. apply add_error_ctx_quarantined.
  - apply same_quarantine_row.
  - apply same_quarantine_cache.
  - apply strategy_same_quarantine.
  - intros Hv. contradiction.
Qed.

Lemma order_same_quarantine l bc :
  ctx_step same_quarantine (PipelineEngine._order_output_columns l bc).
Proof.
  apply (ctx_step_order_output_columns same_quarantine).
  - intros c. reflexivity.
  - intros c1 c2 c3 H12 H23. unfold same_quarantine in *. congruence.
  - intros. apply add_error_ctx_quarantined.
Qed.

(** A step that gives a table back leaves the row count of its input as
    it was. *)
Lemma executor_keeps_input_rows name executor l cfg st st1 l' :
  PipelineEngine._step_executors name = Some executor →
  executor l cfg st = (st1, Ok l') →
  (l < List.length (heap st))%nat →
  len (deref st1 l) = len (deref st l).
Proof.
  unfold PipelineEngine._step_executors. intros Hx E Hl.
  destruct (String.eqb name "filter").
  { inversion Hx; subst. destruct cfg; try discriminate.
    apply grown_store_keeps_rows; [exact Hl |].
    destruct (filter_execute_store _ _ _ _ _ E) as [[_ Hh] | (mask & _ & Hh)]; eauto. }
  destruct (String.eqb name "aggregate").
  { inversion Hx; subst. destruct cfg as [| c | |]; try discriminate.
    destruct (aggregate_execute_table _ _ _ _ _ E) as [[_ Hr] _].
    unfold len. rewrite (Forall2_length _ _ _ Hr). reflexivity. }
  destruct (String.eqb name "transform").
  { inversion Hx; subst. destruct cfg as [| | c |]; try discriminate.
    apply grown_store_keeps_rows; [exact Hl |].
    unfold TransformStep.execute in E.
    destruct (mappings c); [inversion E; auto |].
    rewrite bind_run in E. unfold read in E. cbv iota beta in E.
    split_bind E as st2 out Er; [| discriminate].
    rewrite alloc_run in E. inversion E; subst.
    right. eexists. simpl. rewrite (heap_pure_transform_rows _ _ _ _ _ Er).
    reflexivity. }
  destruct (String.eqb name "validate"); [| discriminate].
  inversion Hx; subst. destruct cfg as [| | | c]; try discriminate.
  apply grown_store_keeps_rows; [exact Hl |].
  unfold ValidateStep.execute in E.
  rewrite bind_run in E. unfold read in E. cbv iota beta in E.
  split_bind E as st2 keep Er; [| discriminate].
  rewrite alloc_run in E. inversion E; subst.
  right. eexists. simpl. rewrite (heap_pure_validate_rows _ _ _ _ _ _ _ Er).
  reflexivity.
Qed.

(** The severities of the ledger when the loop returns. *)
Lemma run_steps_severities input_rows bc steps cur st st' site out res :
  step_ledger (ctx st) →
  PipelineEngine.run_steps input_rows bc steps cur st = (st', Ok (site, out, res)) →
  Forall (λ e, severity e = WARNING) (warnings res) ∧
  if site_success site
  then Forall (λ e, severity e = ERROR) (errors res)
  else ∃ es e, errors res = (es ++ [e])%list ∧
               Forall (λ e, severity e = ERROR) es ∧ severity e = CRITICAL.
Proof.
  revert cur st. induction steps as [| s steps IH]; intros cur st Hl E.
  - apply run_steps_nil_inv in E as (l & El & -> & -> & ->).
    apply order_step_effect in El.
    destruct (step_effect_ledger _ _ El Hl) as [He Hw]. split; assumption.
  - apply run_steps_cons_inv in E. cbv zeta in E.
    destruct Hl as [Hle Hlw].
    destruct E as [(_ & -> & -> & Hc & ->) |
                   (executor & st1 & Hx &
                    [(e & Ee & -> & -> & Hc & ->) |
                     (result_df & Ee &
                      [(_ & -> & -> & Hc & ->) | (_ & Er)])])].
    + rewrite Hc. split; [exact Hlw |]. cbn [site_success].
      eexists _, _. split; [reflexivity |]. split; [exact Hle | reflexivity].
    + apply (executor_step_effect _ _ _ _ Hx) in Ee.
      destruct (step_effect_ledger _ _ Ee (conj Hle Hlw)) as [He1 Hw1].
      rewrite Hc. split; [exact Hw1 |]. cbn [site_success].
      eexists _, _. split; [reflexivity |]. split; [exact He1 | reflexivity].
    + apply (executor_step_effect _ _ _ _ Hx) in Ee.
      destruct (step_effect_ledger _ _ Ee (conj Hle Hlw)) as [He1 Hw1].
      rewrite Hc. split; [| exact He1].
      cbn [warnings get_result]. rewrite add_error_ctx_warnings. cbn [goes_to_errors].
      apply Forall_app. split; [exact Hw1 | repeat constructor].
    + apply (executor_step_effect _ _ _ _ Hx) in Ee.
      destruct (step_effect_ledger _ _ Ee (conj Hle Hlw)) as [He1 Hw1].
      apply (IH _ _ (conj He1 Hw1 : step_ledger (ctx {| heap := heap st1; ctx := with_step_result _ (ctx st1) |})) Er).
Qed.

(** The step results when the loop returns. *)
Lemma run_steps_accounted input_rows bc steps cur st st' site out res :
  (cur < List.length (heap st))%nat →
  PipelineEngine.run_steps input_rows bc steps cur st = (st', Ok (site, out, res)) →
  ∃ new,
    step_results res = (_step_results (ctx st) ++ new)%list ∧
    accounted (len (deref st cur)) new ∧
    map sr_step_name new `prefix_of` map step steps ∧
    (site = AtEnd →
       map sr_step_name new = map step steps ∧
       output_rows res = rows_left (len (deref st cur)) new).
Proof.
  revert cur st. induction steps as [| s steps IH]; intros cur st Hcur E.
  - apply run_steps_nil_inv in E as (l & El & -> & -> & ->).
    exists []. rewrite app_nil_r.
    pose proof (order_step_effect _ _ _ _ _ El) as [Hs _ _].
    destruct (order_output_columns_spec cur bc st Hcur)
      as (st2 & E2 & _ & [_ Hord] & _).
    rewrite El in E2. inversion E2; subst st2 l; clear E2.
    split; [exact Hs |]. split; [exact I |]. split; [reflexivity |].
    intros _. split; [reflexivity |].
    cbn [output_rows get_result rows_left fold_left]. unfold len.
    rewrite (Forall2_length _ _ _ Hord). reflexivity.
  - apply run_steps_cons_inv in E. cbv zeta in E.
    destruct E as [(_ & -> & -> & Hc & ->) |
                   (executor & st1 & Hx &
                    [(e & Ee & -> & -> & Hc & ->) |
                     (result_df & Ee &
                      [(Hz & -> & -> & Hc & ->) | (Hnz & Er)])])].
    + exists []. rewrite Hc, app_nil_r.
      split; [reflexivity |]. split; [exact I |].
      split; [apply prefix_nil | discriminate].
    + exists []. rewrite Hc, app_nil_r.
      pose proof (executor_step_effect _ _ _ _ Hx _ _ _ Ee) as [Hs _ _].
      split; [exact Hs |]. split; [exact I |].
      split; [apply prefix_nil | discriminate].
    + pose proof (executor_step_effect _ _ _ _ Hx _ _ _ Ee) as [Hs _ _].
      pose proof (executor_keeps_input_rows _ _ _ _ _ _ _ Hx Ee Hcur) as Hin.
      eexists [_]. rewrite Hc.
      split; [cbn [step_results get_result]; simpl; rewrite Hs; reflexivity |].
      split; [cbn [accounted sr_input_rows sr_filtered_rows sr_output_rows];
              rewrite Hin; auto |].
      split; [| discriminate].
      cbn [map sr_step_name]. apply prefix_cons, prefix_nil.
    + pose proof (executor_step_effect _ _ _ _ Hx _ _ _ Ee) as [Hs _ _].
      pose proof (executor_keeps_input_rows _ _ _ _ _ _ _ Hx Ee Hcur) as Hin.
      apply IH in Er; [| apply deref_nonempty_valid; exact Hnz].
      destruct Er as (new & Hres & Hacc & Hpre & Hend).
      eexists (_ :: new).
      split; [rewrite Hres; simpl; rewrite Hs, <- app_assoc; reflexivity |].
      split; [cbn [accounted sr_input_rows sr_filtered_rows sr_output_rows];
              rewrite Hin; auto |].
      split; [cbn [map sr_step_name]; apply prefix_cons; exact Hpre |].
      intros Hsite. destruct (Hend Hsite) as [Hn Ho].
      split; [cbn [map sr_step_name]; rewrite Hn; reflexivity | exact Ho].
Qed.

(** The quarantine set when the loop returns, no step being a validate
    step. *)
Lemma run_steps_quarantine input_rows bc steps cur st st' site out res :
  Forall (λ s, step s ≠ "validate") steps →
  PipelineEngine.run_steps input_rows bc steps cur st = (st', Ok (site, out, res)) →
  quarantined_rows res = elements (_quarantined_rows (ctx st)).
Proof.
  revert cur st. induction steps as [| s steps IH]; intros cur st Hall E.
  - apply run_steps_nil_inv in E as (l & El & -> & -> & ->).
    apply order_same_quarantine in El. cbn [quarantined_rows get_result].
    rewrite El. reflexivity.
  - inversion Hall as [| ? ? Hs Hrest]; subst.
    apply run_steps_cons_inv in E. cbv zeta in E.
    destruct E as [(_ & -> & -> & Hc & ->) |
                   (executor & st1 & Hx &
                    [(e & Ee & -> & -> & Hc & ->) |
                     (result_df & Ee &
                      [(_ & -> & -> & Hc & ->) | (_ & Er)])])].
    + rewrite Hc. reflexivity.
    + apply (executor_same_quarantine _ _ _ _ Hs Hx) in Ee.
      rewrite Hc. cbn [quarantined_rows get_result].
      rewrite add_error_ctx_quarantined, Ee. reflexivity.
    + apply (executor_same_quarantine _ _ _ _ Hs Hx) in Ee.
      rewrite Hc. cbn [quarantined_rows get_result].
      rewrite add_error_ctx_quarantined. simpl. rewrite Ee. reflexivity.
    + apply (executor_same_quarantine _ _ _ _ Hs Hx) in Ee.
      apply (IH _ _ Hrest) in Er. rewrite Er. simpl. rewrite Ee. reflexivity.
Qed.

(** X22. Provided the strategies that are not unfolded only record
    warnings, in every result of [process] the warnings all have severity
    WARNING, the errors all have severity ERROR or CRITICAL, and a
    CRITICAL entry is present exactly when the run was aborted (schema
    check, unknown step or failing step). *)
Theorem X22_critical_entry_iff_aborted gc df bc st' site out res :
  PipelineEngine.process gc df bc = (st', Ok (site, out, res)) →
  Forall (λ e, severity e = WARNING) (warnings res) ∧
  Forall (λ e, severity e = ERROR ∨ severity e = CRITICAL) (errors res) ∧
  (Exists (λ e, severity e = CRITICAL) (errors res) ↔ site_success site = false).
Proof.
  rewrite process_run. cbv zeta.
  destruct (record_all_fields MsgMissingRequiredColumn CRITICAL
              (lacking df (required_columns (input_schema bc))) (new_context gc bc))
    as (_ & _ & Hr1 & _ & _ & He1 & Hw1).
  destruct (record_all_fields MsgOptionalColumnNotFound WARNING
              (lacking df (optional_columns (input_schema bc)))
              (record_all MsgMissingRequiredColumn CRITICAL
                 (lacking df (required_columns (input_schema bc))) (new_context gc bc)))
    as (_ & _ & _ & _ & _ & He2 & Hw2).
  cbn [goes_to_errors] in He1, Hw1, He2, Hw2.
  rewrite app_nil_r in He2, Hw1. rewrite He1 in He2. rewrite Hw1 in Hw2.
  cbn [new_context _errors _warnings app] in He2, Hw2.
  set (c1 := record_all MsgOptionalColumnNotFound WARNING _ _) in *.
  clearbody c1.
  destruct (lacking df (required_columns (input_schema bc))) as [| col cols] eqn:El.
  - intros E. apply run_steps_severities in E.
    + destruct E as [Hw He]. split; [exact Hw |].
      destruct (site_success site).
      * split; [eapply Forall_impl; [exact He | auto] |].
        split; [| discriminate]. intros Hex. exfalso.
        apply Exists_exists in Hex as (e & Hin & Hsev).
        rewrite Forall_forall in He. rewrite (He e Hin) in Hsev. discriminate.
      * destruct He as (es & e & -> & Hes & Hcrit).
        split.
        -- apply Forall_app. split; [eapply Forall_impl; [exact Hes | auto] |].
           constructor; [right; exact Hcrit | constructor].
        -- split; [reflexivity |]. intros _. apply Exists_app. right.
           constructor. exact Hcrit.
    + split; cbn [ctx]; [rewrite He2; constructor |].
      rewrite Hw2. apply Forall_forall. intros e Hin.
      apply list_elem_of_fmap in Hin as (c & -> & _). reflexivity.
  - intros E. injection E as _ <- _ <-. cbn [warnings errors get_result site_success].
    rewrite He2, Hw2. split; [| split].
    + apply Forall_forall. intros e Hin.
      apply list_elem_of_fmap in Hin as (c & -> & _). reflexivity.
    + apply Forall_forall. intros e Hin.
      apply list_elem_of_fmap in Hin as (c & -> & _). right. reflexivity.
    + split; [reflexivity |]. intros _. cbn [map]. left. reflexivity.
Qed.

(** X23. Under the same proviso, the step results of every run account
    for the rows: the first step starts from the rows of the input, each
    later step from the rows its predecessor gave back, and each reports
    as filtered the difference between what it received and what it gave
    back; the recorded names are a prefix of the step names of the
    pipeline, all of them when the run completes, and then [output_rows]
    is the row count the last step left. *)
Theorem X23_step_results_account_for_rows gc df bc st' site out res :
  PipelineEngine.process gc df bc = (st', Ok (site, out, res)) →
  accounted (len df) (step_results res) ∧
  map sr_step_name (step_results res) `prefix_of` map step (pipeline bc) ∧
  (site = AtEnd →
     map sr_step_name (step_results res) = map step (pipeline bc) ∧
     output_rows res = rows_left (len df) (step_results res)).
Proof.
  rewrite process_run. cbv zeta.
  destruct (record_all_fields MsgMissingRequiredColumn CRITICAL
              (lacking df (required_columns (input_schema bc))) (new_context gc bc))
    as (_ & _ & _ & Hs1 & _).
  destruct (record_all_fields MsgOptionalColumnNotFound WARNING
              (lacking df (optional_columns (input_schema bc)))
              (record_all MsgMissingRequiredColumn CRITICAL
                 (lacking df (required_columns (input_schema bc))) (new_context gc bc)))
    as (_ & _ & _ & Hs2 & _).
  rewrite Hs1 in Hs2. cbn [new_context _step_results] in Hs2.
  set (c1 := record_all MsgOptionalColumnNotFound WARNING _ _) in *.
  clearbody c1.
  destruct (lacking df (required_columns (input_schema bc))) as [| col cols] eqn:El.
  - intros E. apply run_steps_accounted in E; [| simpl; lia].
    destruct E as (new & Hres & Hacc & Hpre & Hend).
    cbn [ctx] in Hres. rewrite Hs2 in Hres. cbn [app] in Hres. rewrite Hres.
    change (deref {| heap := [df; df]; ctx := c1 |} 1%nat) with df in Hacc, Hend.
    auto.
  - intros E. injection E as _ <- _ <-. cbn [step_results get_result].
    rewrite Hs2. split; [exact I |]. split; [apply prefix_nil | discriminate].
Qed.

(** X24. Under the same proviso, a run of a pipeline without validate
    step quarantines nothing. *)
Theorem X24_only_validate_quarantines gc df bc st' site out res :
  Forall (λ s, step s ≠ "validate") (pipeline bc) →
  PipelineEngine.process gc df bc = (st', Ok (site, out, res)) →
  quarantined_rows res = [].
Proof.
  intros Hall. rewrite process_run. cbv zeta.
  destruct (record_all_fields MsgMissingRequiredColumn CRITICAL
              (lacking df (required_columns (input_schema bc))) (new_context gc bc))
    as (_ & _ & _ & _ & Hq1 & _).
  destruct (record_all_fields MsgOptionalColumnNotFound WARNING
              (lacking df (optional_columns (input_schema bc)))
              (record_all MsgMissingRequiredColumn CRITICAL
                 (lacking df (required_columns (input_schema bc))) (new_context gc bc)))
    as (_ & _ & _ & _ & Hq2 & _).
  rewrite Hq1 in Hq2. cbn [new_context _quarantined_rows] in Hq2.
  set (c1 := record_all MsgOptionalColumnNotFound WARNING _ _) in *.
  clearbody c1.
  destruct (lacking df (required_columns (input_schema bc))) as [| col cols] eqn:El.
  - intros E. apply (run_steps_quarantine _ _ _ _ _ _ _ _ _ Hall) in E.
    rewrite E. cbn [ctx]. rewrite Hq2. apply elements_empty.
  - intros E. injection E as _ <- _ <-. cbn [quarantined_rows get_result].
    rewrite Hq2. apply elements_empty.
Qed.
End WholeRun.

(** The sample strategies leave the context alone. *)
Lemma sample_ledger_strategies : @LedgerStrategies SampleLib.strategies.
Proof.
  split; intros t row m ri c c' r E; inversion E; subst.
  - split; [reflexivity | |]; exists []; rewrite app_nil_r; split; auto.
  - reflexivity.
Qed.

(** A filter on a missing column, which records an ERROR, followed
    by an unknown step. *)
Lemma X22_witness :
  ∃ st' site out res,
    SampleRuns.emptied_run [SampleRuns.region_is "north"; dedupe_step]
      = (st', Ok (site, out, res)) ∧
    site = AtUnknownStep "dedupe" ∧
    (Forall (λ e, severity e = WARNING) (warnings res) ∧
     Forall (λ e, severity e = ERROR ∨ severity e = CRITICAL) (errors res) ∧
     (Exists (λ e, severity e = CRITICAL) (errors res) ↔ site_success site = false)).
Proof.
  eexists _, _, _, _. split; [vm_compute; reflexivity |].
  split; [reflexivity |].
  eapply (X22_critical_entry_iff_aborted (H := SampleLib.lib)
            (H0 := SampleLib.strategies) (H1 := sample_ledger_strategies)
            Sample.globals Sample.orders
            (Sample.brand [SampleRuns.region_is "north"; dedupe_step] ["status"])).
  vm_compute; reflexivity.
Defined.

(** One filter that keeps two of the three sample orders. *)
Lemma X23_witness :
  ∃ st' site out res,
    SampleRuns.filtered_run ["name"; "status"] = (st', Ok (site, out, res)) ∧
    step_results res =
      [ {| sr_step_name := "filter"; sr_input_rows := 3; sr_output_rows := 2;
           sr_filtered_rows := 1 |} ] ∧
    (accounted (len Sample.orders) (step_results res) ∧
     map sr_step_name (step_results res) `prefix_of`
       map step (pipeline (Sample.brand [Sample.status_is "fulfilled"] ["name"; "status"])) ∧
     (site = AtEnd →
        map sr_step_name (step_results res) =
          map step (pipeline (Sample.brand [Sample.status_is "fulfilled"] ["name"; "status"])) ∧
        output_rows res = rows_left (len Sample.orders) (step_results res))).
Proof.
  eexists _, _, _, _. split; [vm_compute; reflexivity |].
  split; [reflexivity |].
  eapply (X23_step_results_account_for_rows (H := SampleLib.lib)
            (H0 := SampleLib.strategies) (H1 := sample_ledger_strategies)
            Sample.globals Sample.orders
            (Sample.brand [Sample.status_is "fulfilled"] ["name"; "status"])).
  vm_compute; reflexivity.
Defined.

(** A pipeline of one filter. *)
Lemma X24_witness :
  ∃ st' site out res,
    SampleRuns.filtered_run ["name"; "status"] = (st', Ok (site, out, res)) ∧
    quarantined_rows res = [].
Proof.
  eexists _, _, _, _. split; [vm_compute; reflexivity |].
  eapply (X24_only_validate_quarantines (H := SampleLib.lib)
            (H0 := SampleLib.strategies) (H1 := sample_ledger_strategies)
            Sample.globals Sample.orders
            (Sample.brand [Sample.status_is "fulfilled"] ["name"; "status"])).
  - repeat constructor; discriminate.
  - vm_compute; reflexivity.
Defined.

(** ** The lookup and phone strategies *)

Lemma assoc_elem {A} (k : string) (l : list (string * A)) (v : A) :
  assoc k l = Some v → (k, v) ∈ l.
Proof.
  induction l as [| [k' v'] l IH]; simpl; [discriminate |].
  destruct (String.eqb k k') eqn:Ek.
  - apply String.eqb_eq in Ek. intros E. inversion E; subst. left.
  - intros E. right. apply IH, E.
Qed.

Lemma find_elem {A} (p : A → bool) (l : list A) (x : A) :
  find p l = Some x → x ∈ l ∧ p x = true.
Proof.
  induction l as [| y l IH]; simpl; [discriminate |].
  destruct (p y) eqn:Ey.
  - intros E. inversion E; subst. split; [left | exact Ey].
  - intros E. destruct (IH E) as [Hin Hp]. split; [right; exact Hin | exact Hp].
Qed.

Lemma find_none_elem {A} (p : A → bool) (l : list A) :
  find p l = None → ∀ x, x ∈ l → p x = false.
Proof.
  induction l as [| y l IH]; simpl; intros E x Hx; [inversion Hx |].
  destruct (p y) eqn:Ey; [discriminate |].
  apply elem_of_cons in Hx as [-> | Hx]; [exact Ey | apply IH; assumption].
Qed.

Section LookupExtras.
Context `{PyLib}.

Lemma mapping_get_elem mapping key v :
  LookupTransformer.mapping_get mapping key = v → v ≠ VNone → (key, v) ∈ mapping.
Proof.
  unfold LookupTransformer.mapping_get. intros E Hv.
  destruct (assoc key mapping) as [w |] eqn:Ea; simpl in E; subst.
  - apply assoc_elem, Ea.
  - congruence.
Qed.

(** X25. The value of a lookup field is the configured default or one of
    the values of the configured mapping; the lookup never invents a
    value. *)
Theorem X25_lookup_result_comes_from_mapping row m ri config :
  lookup m = Some config →
  LookupTransformer.transform row m ri = lk_default config ∨
  ∃ k, (k, LookupTransformer.transform row m ri) ∈ lk_mapping config.
Proof.
  intros Hm. unfold LookupTransformer.transform. rewrite Hm.
  assert (Hd : ∀ value,
             LookupTransformer._lookup_direct value config = lk_default config ∨
             ∃ k, (k, LookupTransformer._lookup_direct value config) ∈ lk_mapping config).
  { intros value. unfold LookupTransformer._lookup_direct.
    match goal with
    | |- context [LookupTransformer.mapping_get ?mp ?key] =>
        destruct (LookupTransformer.mapping_get mp key) eqn:Eg
    end;
      try (right; eexists; eapply mapping_get_elem; [exact Eg | discriminate]).
    match goal with
    | |- context [find ?p ?l] => destruct (find p l) as [kv |] eqn:Ef
    end; [| left; reflexivity].
    apply find_elem in Ef as [Hin _]. right. exists kv.1.
    destruct kv; exact Hin. }
  assert (Hp : ∀ value,
             LookupTransformer._lookup_by_prefix value config = lk_default config ∨
             ∃ k, (k, LookupTransformer._lookup_by_prefix value config) ∈ lk_mapping config).
  { intros value. unfold LookupTransformer._lookup_by_prefix.
    match goal with
    | |- context [LookupTransformer.mapping_get ?mp ?key] =>
        destruct (LookupTransformer.mapping_get mp key) eqn:Eg
    end;
      try (right; eexists; eapply mapping_get_elem; [exact Eg | discriminate]).
    left. reflexivity. }
  destruct (get_column_value row (lk_source_column config) VNone);
    try (left; reflexivity);
    destruct (lk_strategy config); auto.
Qed.

(** X26. The direct lookup ignores case.  If no key of the mapping equals
    the looked-up text once both are upper-cased, the result is the
    default; if some key does, the result is the value of such a key. *)
Theorem X26_lookup_direct_ignores_case value config :
  let text := lookup_text value config in
  let v := LookupTransformer._lookup_direct value config in
  ((∀ kv, kv ∈ lk_mapping config → ¬ matches_key text kv) → v = lk_default config) ∧
  ((∃ kv, kv ∈ lk_mapping config ∧ matches_key text kv) →
   ∃ kv, kv ∈ lk_mapping config ∧ matches_key text kv ∧ v = kv.2).
Proof.
  intros text v. subst v. unfold LookupTransformer._lookup_direct.
  fold (lookup_text value config). fold text.
  destruct (find (λ kv : string * Value,
                    String.eqb (str_upper kv.1) (str_upper text))
              (lk_mapping config)) as [kv |] eqn:Ef.
  - apply find_elem in Ef as [Hin Hk]. apply String.eqb_eq in Hk.
    split.
    + intros Hno. exfalso. apply (Hno kv Hin). exact Hk.
    + intros _.
      destruct (LookupTransformer.mapping_get (lk_mapping config) text) eqn:Eg;
        try (eexists (text, _); split;
             [eapply mapping_get_elem; [exact Eg | discriminate] |
              split; reflexivity]).
      exists kv. auto.
  - pose proof (find_none_elem _ _ Ef) as Hnone.
    assert (Hg : LookupTransformer.mapping_get (lk_mapping config) text = VNone).
    { destruct (LookupTransformer.mapping_get (lk_mapping config) text) eqn:Eg;
        try reflexivity;
        (exfalso;
         assert (Hin : (text, LookupTransformer.mapping_get (lk_mapping config) text)
                       ∈ lk_mapping config)
           by (eapply mapping_get_elem; [reflexivity | rewrite Eg; discriminate]);
         specialize (Hnone _ Hin); simpl in Hnone;
         rewrite String.eqb_refl in Hnone; discriminate). }
    rewrite Hg. split; [reflexivity |].
    intros (kv & Hin & Hk). exfalso. specialize (Hnone kv Hin). simpl in Hnone.
    unfold matches_key in Hk. rewrite Hk, String.eqb_refl in Hnone. discriminate.
Qed.
End LookupExtras.
(** A status written in lower case between blanks. *)
Lemma X25_witness :
  let row : Row := list_to_map [("status", VStr " fulfilled ")] in
  LookupTransformer.transform (H := SampleLib.lib) row status_lookup 0 = VStr "F" ∧
  (LookupTransformer.transform (H := SampleLib.lib) row status_lookup 0
     = lk_default status_codes ∨
   ∃ k, (k, LookupTransformer.transform (H := SampleLib.lib) row status_lookup 0)
        ∈ lk_mapping status_codes).
Proof.
  intros row. split; [vm_compute; reflexivity |].
  apply (X25_lookup_result_comes_from_mapping (H := SampleLib.lib) row
           status_lookup 0 status_codes).
  reflexivity.
Defined.










Section PhoneExtras.
Context `{PyLib}.




End PhoneExtras.


(** ** The configuration check and the quiet strategies *)

Lemma validate_step_config_nil s index :
  _validate_step_config s index = [] ↔ well_configured s.
Proof.
  unfold _validate_step_config, well_configured.
  destruct (String.eqb (step s) "filter") eqn:E1.
  { apply String.eqb_eq in E1. rewrite E1. split.
    - intros Hv. split; [| split; intros Hx; discriminate Hx].
      intros _. destruct (config s) as [c | | |]; try discriminate Hv.
      exists c. split; [reflexivity |]. destruct (conditions c); [discriminate | discriminate].
    - intros [Hf _]. destruct (Hf eq_refl) as (c & -> & Hc).
      destruct (conditions c); [congruence | reflexivity]. }
  destruct (String.eqb (step s) "aggregate") eqn:E2.
  { apply String.eqb_eq in E2. rewrite E2. split.
    - intros Hv. split; [intros Hx; discriminate Hx |].
      split; [| intros Hx; discriminate Hx].
      intros _. destruct (config s) as [| c | |]; try discriminate Hv.
      exists c. split; [reflexivity |].
      apply app_eq_nil in Hv as [Hg Ha].
      destruct (String.eqb (group_by c) "") eqn:Eg; [discriminate |].
      apply String.eqb_neq in Eg. split; [exact Eg |].
      destruct (aggregations c); [discriminate | discriminate].
    - intros (_ & Ha & _). destruct (Ha eq_refl) as (c & -> & Hg & Hr).
      apply String.eqb_neq in Hg. rewrite Hg.
      destruct (aggregations c); [congruence | reflexivity]. }
  destruct (String.eqb (step s) "transform") eqn:E3.
  { apply String.eqb_eq in E3. rewrite E3. split.
    - intros Hv. split; [intros Hx; discriminate Hx |].
      split; [intros Hx; discriminate Hx |].
      intros _. destruct (config s) as [| | c |]; try discriminate Hv.
      exists c. split; [reflexivity |]. destruct (mappings c); [discriminate | discriminate].
    - intros (_ & _ & Ht). destruct (Ht eq_refl) as (c & -> & Hc).
      destruct (mappings c); [congruence | reflexivity]. }
  apply String.eqb_neq in E1, E2, E3.
  split; [| reflexivity]. intros _. repeat split; intros Hx; congruence.
Qed.

Lemma validate_steps_nil steps index :
  validate_steps steps index = [] ↔ Forall well_configured steps.
Proof.
  revert index. induction steps as [| s steps IH]; intros index; simpl.
  - split; [constructor | reflexivity].
  - split.
    + intros Hv. apply app_eq_nil in Hv as [H1 H2].
      constructor; [eapply validate_step_config_nil; eauto | eapply IH; eauto].
    + intros Hall. inversion Hall as [| ? ? H1 H2]; subst.
      apply (validate_step_config_nil s index) in H1. rewrite H1.
      apply (IH (index + 1)) in H2. rewrite H2. reflexivity.
Qed.

Lemma validate_step_config_about s index e :
  e ∈ _validate_step_config s index → error_step e = Some (index + 1, step s).
Proof.
  unfold _validate_step_config.
  destruct (String.eqb (step s) "filter").
  { destruct (config s) as [c | | |];
      [destruct (conditions c) | | |];
      intros Hin; repeat (apply elem_of_cons in Hin as [-> | Hin]; [reflexivity |]);
      inversion Hin. }
  destruct (String.eqb (step s) "aggregate").
  { destruct (config s) as [| c | |];
      [| destruct (String.eqb (group_by c) ""), (aggregations c) | |];
      intros Hin; simpl in Hin;
      repeat (apply elem_of_cons in Hin as [-> | Hin]; [reflexivity |]);
      inversion Hin. }
  destruct (String.eqb (step s) "transform").
  { destruct (config s) as [| | c |];
      [| | destruct (mappings c) |];
      intros Hin; repeat (apply elem_of_cons in Hin as [-> | Hin]; [reflexivity |]);
      inversion Hin. }
  intros Hin. inversion Hin.
Qed.

Lemma validate_steps_about steps index e :
  e ∈ validate_steps steps index →
  ∃ i s, steps !! i = Some s ∧
         error_step e = Some (index + Z.of_nat i + 1, step s).
Proof.
  revert index. induction steps as [| s steps IH]; intros index Hin; simpl in Hin.
  - inversion Hin.
  - apply elem_of_app in Hin as [Hin | Hin].
    + exists 0%nat, s. split; [reflexivity |].
      rewrite (validate_step_config_about _ _ _ Hin). f_equal. f_equal. lia.
    + destruct (IH _ Hin) as (i & s' & Hi & He).
      exists (S i), s'. split; [exact Hi |]. rewrite He. f_equal. f_equal. lia.
Qed.

(** X29. [validate_brand_config] reports nothing exactly when the
    pipeline has a transform step and every filter, aggregate and transform
    step carries a configuration of its own class that is not empty.  A
    validate step, or a step of any other name, is never looked at. *)
Theorem X29_config_check_accepts_well_configured bc :
  validate_brand_config bc = [] ↔
  (∃ s, s ∈ pipeline bc ∧ step s = "transform") ∧
  Forall well_configured (pipeline bc).
Proof.
  unfold validate_brand_config.
  destruct (existsb (λ s, String.eqb (step s) "transform") (pipeline bc)) eqn:Ex.
  - apply existsb_exists in Ex as (s & Hin & Hs). apply String.eqb_eq in Hs.
    rewrite app_nil_l, validate_steps_nil. split.
    + intros Hall. split; [| exact Hall]. exists s.
      split; [apply list_elem_of_In; exact Hin | exact Hs].
    + intros [_ Hall]. exact Hall.
  - split; [discriminate |]. intros [(s & Hin & Hs) _]. exfalso.
    assert (Hex : existsb (λ s, String.eqb (step s) "transform") (pipeline bc) = true).
    { apply existsb_exists. exists s. split; [apply list_elem_of_In; exact Hin |].
      apply String.eqb_eq. exact Hs. }
    congruence.
Qed.

(** X30. Every message of [validate_brand_config] other than the missing
    transform step is about a step of the pipeline: it carries the name of
    that step and its position counted from one. *)
Theorem X30_config_check_names_the_step bc e :
  e ∈ validate_brand_config bc →
  e = ErrNoTransformStep ∨
  ∃ i s, pipeline bc !! i = Some s ∧ error_step e = Some (Z.of_nat i + 1, step s).
Proof.
  unfold validate_brand_config. intros Hin.
  apply elem_of_app in Hin as [Hin | Hin].
  - left. destruct (existsb _ _); [inversion Hin |].
    apply list_elem_of_singleton in Hin. exact Hin.
  - right. destruct (validate_steps_about _ _ _ Hin) as (i & s & Hi & He).
    exists i, s. split; [exact Hi |]. rewrite He. f_equal.
Qed.

(** A pipeline of two filters, the second without conditions. *)
Lemma X30_witness :
  let bc := Sample.brand [Sample.status_is "fulfilled"; empty_filter] [] in
  let e := ErrNoFilterConditions 2 "filter" in
  validate_brand_config bc = [ErrNoTransformStep; e] ∧
  (e = ErrNoTransformStep ∨
   ∃ i s, pipeline bc !! i = Some s ∧ error_step e = Some (Z.of_nat i + 1, step s)).
Proof.
  intros bc e. split; [reflexivity |].
  apply (X30_config_check_names_the_step bc e).
  vm_compute. right. left.
Defined.

(** *** The strategies that never fail: static, direct, lookup and phone *)
Section UnfoldedStrategies.
Context `{PyLib}.
Variable country_phone_codes : list PhoneCodeConfig.
Variable others : Strategies.

Lemma quiet_field f m row st :
  type m ∈ quiet_types →
  ∃ v, TransformStep.transform_field
         (H0 := unfolded_strategies country_phone_codes others) f m row st
       = (st, Ok v).
Proof.
  intros Hq. unfold TransformStep.transform_field, try_except.
  rewrite bind_run. unfold get_ctx at 1. unfold quiet_types in Hq.
  repeat (apply elem_of_cons in Hq as [Hq | Hq];
          [rewrite Hq; cbn [TransformerFactory.get_transformer] |]).
  - eexists. reflexivity.
  - unfold DirectTransformer.transform.
    destruct (source_column m) as [[| a col] |]; try (eexists; reflexivity).
    destruct (pd_isna _); [eexists; reflexivity |].
    destruct (m.(transform)); eexists; reflexivity.
  - destruct st. eexists. reflexivity.
  - destruct st. eexists. reflexivity.
  - inversion Hq.
Qed.

Lemma quiet_fields ms ext res st :
  Forall (λ fm : string * FieldMapping, type fm.2 ∈ quiet_types) ms →
  ∃ out, TransformStep.transform_fields
           (H0 := unfolded_strategies country_phone_codes others) ms ext res st
         = (st, Ok out).
Proof.
  revert ext res. induction ms as [| [f m] ms IH]; intros ext res Hall.
  - eexists. reflexivity.
  - inversion Hall as [| ? ? Hm Hms]; subst.
    destruct (quiet_field f m (values ext) st Hm) as [v Ev].
    cbn [TransformStep.transform_fields]. rewrite bind_run, Ev. apply IH, Hms.
Qed.

Lemma quiet_rows ms rs st :
  Forall (λ fm : string * FieldMapping, type fm.2 ∈ quiet_types) ms →
  ∃ st' out,
    TransformStep.transform_rows
      (H0 := unfolded_strategies country_phone_codes others) ms rs st
      = (st', Ok out) ∧
    same_ledger (ctx st) (ctx st').
Proof.
  intros Hall. revert st. induction rs as [| [idx row] rs IH]; intros st.
  - eexists _, _. split; [reflexivity |]. repeat split.
  - cbn [TransformStep.transform_rows]. rewrite bind_run.
    cbn [set_current_row modify_ctx].
    set (st1 := {| heap := heap st; ctx := _ |}).
    destruct (quiet_fields ms row ∅ st1 Hall) as [done Ed].
    rewrite bind_run, Ed.
    destruct (IH st1) as (st' & out & Er & Hl).
    rewrite bind_run, Er. eexists _, _. split; [reflexivity |].
    destruct Hl as (He & Hw & Hq & Hs). repeat split; assumption.
Qed.

(** X28. A transform step whose mappings are all of type static, direct,
    lookup or phone never raises and records nothing: errors, warnings,
    quarantine set and step results are after the step what they were
    before. *)
Theorem X28_quiet_mappings_record_nothing l config st :
  Forall (λ fm : string * FieldMapping, type fm.2 ∈ quiet_types) (mappings config) →
  ∃ st' l',
    TransformStep.execute
      (H0 := unfolded_strategies country_phone_codes others) l config st
      = (st', Ok l') ∧
    same_ledger (ctx st) (ctx st').
Proof.
  intros Hall. unfold TransformStep.execute.
  destruct (mappings config) as [| fm ms] eqn:Em.
  - eexists _, _. split; [reflexivity |]. repeat split.
  - rewrite bind_run. unfold read.
    destruct (quiet_rows (fm :: ms) (iterrows (deref st l)) st Hall)
      as (st1 & out & Er & Hl).
    rewrite bind_run, Er, alloc_run. eexists _, _. split; [reflexivity |].
    exact Hl.
Qed.

Lemma unfolded_ledger_strategies :
  @LedgerStrategies others →
  @LedgerStrategies (unfolded_strategies country_phone_codes others).
Proof.
  intros [Hse Hsq]. split; intros t row m ri c c' r E;
    destruct t; try (eapply Hse; exact E); try (eapply Hsq; exact E);
    simpl in E; inversion E; subst;
    try reflexivity;
    (split; [reflexivity | |]; exists []; rewrite app_nil_r; split; auto).
Qed.
End UnfoldedStrategies.

(** A lookup and a direct copy over the sample orders. *)
Lemma X28_witness :
  let cfg := {| mappings := [("code", status_lookup); ("id", Sample.direct "name")] |} in
  let st := Sample.initial Sample.orders (Sample.brand [] []) in
  ∃ st' l',
    TransformStep.execute (H := SampleLib.lib)
      (H0 := unfolded_strategies (H := SampleLib.lib) [] SampleLib.strategies)
      0%nat cfg st = (st', Ok l') ∧
    same_ledger (ctx st) (ctx st').
Proof.
  intros cfg st.
  apply (X28_quiet_mappings_record_nothing (H := SampleLib.lib) []
           SampleLib.strategies 0%nat cfg st).
  repeat constructor.
Defined.

